(** * Chatterous bot (main.py): store, economy, reminders and message dispatch

    A shallow embedding of the stateful core of [main.py] and the proofs of
    its specification.  The SQLite tables are finite maps and lists, the
    in-memory dictionaries are finite maps, Python integers are [Z], text is
    a [string] of code points below 256, and every read of the clock or of
    the random generator is an explicit argument of the function that
    performs it.  The power [xp ** 0.5] is computed by the C library, so
    it is a parameter of the development ([pow_half] of the section
    [Platform]); what is proved of levels says which accuracy of the power
    it needs.  SQLite stores 64-bit integers: inserting a reminder checks
    the range of what it binds, and the theorems on the [users] table that
    depend on the range state it as a hypothesis. *)

From Stdlib Require Import ZArith Lia Bool List Ascii String.
From stdpp Require Import base option list gmap.
Import ListNotations.

Local Open Scope Z_scope.

(** ** Python results *)

(** The exceptions the modelled code can raise. *)
Inductive exn : Type :=
  | TypeError
  | ValueError
  | IndexError
  | AttributeError
  | OverflowError.

(** A call either returns a value or raises. *)
Inductive result (A : Type) : Type :=
  | Returned (a : A)
  | Raised (e : exn).
Arguments Returned {A} a.
Arguments Raised {A} e.

(** [random.randint(lo, hi)]: the generator's draw [raw] is reduced to the
    closed interval [lo .. hi]. *)
Definition randint (lo hi raw : Z) : Z := lo + raw mod (hi - lo + 1).

(** ** [int(xp ** 0.5)] in binary64 *)

(** [float(n)] for [0 <= n]: the nearest binary64 value, ties to even.  The
    value is an integer again, so it is returned as a [Z]; [None] is the
    [OverflowError] of an integer beyond the binary64 range. *)
Definition float_of_int (n : Z) : option Z :=
  if n <? 2 ^ 53 then Some n
  else
    let e := Z.log2 n - 52 in
    let q := n / 2 ^ e in
    let r := n mod 2 ^ e in
    let half := 2 ^ (e - 1) in
    let m := if r <? half then q
             else if half <? r then q + 1
             else if Z.even q then q else q + 1 in
    if m * 2 ^ e <? 2 ^ 1024 then Some (m * 2 ^ e) else None.

(** A double that is not negative, as significand and exponent: [(m, e)]
    stands for [m * 2^e]. *)
Definition double : Type := (Z * Z)%type.

(** [int(r)] for a double [r]: the fraction is cut off. *)
Definition trunc_float (r : double) : Z :=
  let '(m, e) := r in
  if 0 <=? e then m * 2 ^ e else Z.quot m (2 ^ (- e)).

(** [r] is the square root of the integer [x] to less than one unit in
    the last place: it is written with a significand of 53 bits, and the
    doubles next to it on either side lie strictly on the other side of the
    root.  The upper neighbour of [m * 2^e] is [(m + 1) * 2^e]; the lower
    one is [(m - 1) * 2^e], or [(2 m - 1) * 2^(e-1)] when [m = 2^52].  The
    root of 0 is 0. *)
Definition root_within_ulp (x : Z) (r : double) : Prop :=
  let '(m, e) := r in
  if x =? 0 then m = 0
  else
    2 ^ 52 <= m < 2 ^ 53
    /\ x * 4 ^ Z.max 0 (- e) < (m + 1) ^ 2 * 4 ^ Z.max 0 e
    /\ (2 * m - (if m =? 2 ^ 52 then 1 else 2)) ^ 2 * 4 ^ Z.max 0 e
       < 4 * x * 4 ^ Z.max 0 (- e).

(** The correctly rounded square root of a double with an integer value,
    one function a C library's [pow(x, 0.5)] can be; the examples run on
    it.  With [2^e <= sqrt x < 2^(e+1)] the significand is
    [sqrt x * 2^(52-e)] rounded to the nearest integer. *)
Definition sqrt_float (x : Z) : double :=
  if x =? 0 then (0, 0)
  else
    let e := Z.log2 (Z.sqrt x) in
    let u := 52 - e in
    if 0 <=? u then
      let '(m, r) := Z.sqrtrem (x * 4 ^ u) in
      (if m <? r then m + 1 else m, - u)
    else
      let v := - u in
      let m := Z.sqrt (x / 4 ^ v) in
      (if 4 ^ v * (m * m + m) + 4 ^ (v - 1) <? x then m + 1 else m, v).

(** ** The [users] table *)

Record user_row : Type := mk_user {
  coins : Z;
  xp : Z;
  level : Z;
  last_daily : Z }.

Definition set_coins (f : Z -> Z) (r : user_row) : user_row :=
  mk_user (f (coins r)) (xp r) (level r) (last_daily r).
Definition set_xp (f : Z -> Z) (r : user_row) : user_row :=
  mk_user (coins r) (f (xp r)) (level r) (last_daily r).
Definition set_level (l : Z) (r : user_row) : user_row :=
  mk_user (coins r) (xp r) l (last_daily r).
Definition set_last_daily (t : Z) (r : user_row) : user_row :=
  mk_user (coins r) (xp r) (level r) t.

(** The table, keyed by its primary key [user_id]. *)
Abbreviation users := (gmap Z user_row).

(** The row of [INSERT OR IGNORE INTO users ... VALUES (user_id, 0, 0, 0, 0)]. *)
Definition fresh_row : user_row := mk_user 0 0 0 0.

Definition ensure_user (user_id : Z) (s : users) : users :=
  match s !! user_id with
  | Some _ => s
  | None => <[user_id := fresh_row]> s
  end.

(** ** The platform *)

Section Platform.

(** [xp ** 0.5] is computed by the C library's [pow], whose results the
    source does not determine: [pow_half x] stands for the finite double
    that [pow(x, 0.5)] returns for a double [x] that is not negative and
    has an integer value. *)
Variable pow_half : Z -> double.

Set Default Proof Using "Type".

(** [int(xp ** 0.5)]: the integer is converted to a double, the power is
    taken and its fraction cut off.  A negative base gives a complex power,
    which [int] refuses with a [TypeError]. *)
Definition int_pow_half (xp : Z) : result Z :=
  if xp <? 0 then Raised TypeError
  else match float_of_int xp with
       | None => Raised OverflowError
       | Some x => Returned (trunc_float (pow_half x))
       end.

(** The platform's power is accurate on the integers below [2^52]: its
    result is the root to less than one unit in the last place. *)
Definition pow_accurate : Prop :=
  forall x, 0 <= x < 2 ^ 52 -> root_within_ulp x (pow_half x).

(** [add_xp]: the xp update is committed before the level is recomputed, so
    it survives an exception in the recomputation. *)
Definition add_xp (user_id amount : Z) (s : users) : users * result (option Z) :=
  let s1 := ensure_user user_id s in
  let s2 := alter (set_xp (fun x => x + amount)) user_id s1 in
  match s2 !! user_id with
  | None => (s2, Raised TypeError)
  | Some row =>
      match int_pow_half (xp row) with
      | Raised e => (s2, Raised e)
      | Returned new_level =>
          if level row <? new_level
          then (alter (set_level new_level) user_id s2, Returned (Some new_level))
          else (s2, Returned None)
      end
  end.

(** [SELECT * FROM users WHERE user_id = ?], [fetchone()]. *)
Definition get_user (user_id : Z) (s : users) : option user_row := s !! user_id.

(** [change_coins] returns the new balance. *)
Definition change_coins (user_id delta : Z) (s : users) : users * result Z :=
  let s1 := ensure_user user_id s in
  let s2 := alter (set_coins (fun c => c + delta)) user_id s1 in
  match s2 !! user_id with
  | None => (s2, Raised TypeError)
  | Some row => (s2, Returned (coins row))
  end.


(** ** Text *)

Local Open Scope string_scope.
Local Open Scope list_scope.
Local Open Scope Z_scope.

(** The code point of a character. *)
Definition code (c : ascii) : Z := Z.of_N (N_of_ascii c).

(** [str.isspace] on one code point below 256. *)
Definition is_space (c : ascii) : bool :=
  let n := code c in
  ((9 <=? n) && (n <=? 13)) || ((28 <=? n) && (n <=? 32))
  || (n =? 133) || (n =? 160).

(** [str.lower] on one code point below 256: the ASCII capitals and the
    Latin-1 capitals U+00C0..U+00DE, the multiplication sign excepted. *)
Definition lower_char (c : ascii) : ascii :=
  let n := code c in
  if ((65 <=? n) && (n <=? 90))
     || ((192 <=? n) && (n <=? 222) && negb (n =? 215))
  then ascii_of_N (Z.to_N (n + 32))
  else c.

(** [s.lower()]. *)
Fixpoint lower (s : string) : string :=
  match s with
  | EmptyString => EmptyString
  | String c r => String (lower_char c) (lower r)
  end.

(** Stripping on both sides, for a given notion of blank. *)
Fixpoint lstrip_by (blank : ascii -> bool) (s : string) : string :=
  match s with
  | EmptyString => EmptyString
  | String c r => if blank c then lstrip_by blank r else s
  end.

Fixpoint rstrip_by (blank : ascii -> bool) (s : string) : string :=
  match s with
  | EmptyString => EmptyString
  | String c r =>
      match rstrip_by blank r with
      | EmptyString => if blank c then EmptyString else String c EmptyString
      | r' => String c r'
      end
  end.

Definition strip_by (blank : ascii -> bool) (s : string) : string :=
  rstrip_by blank (lstrip_by blank s).

(** [s.strip()]. *)
Definition strip (s : string) : string := strip_by is_space s.

(** [kw in s]: [kw] occurs in [s] as a contiguous run. *)
Fixpoint contains (kw s : string) : bool :=
  String.prefix kw s
  || match s with
     | EmptyString => false
     | String _ r => contains kw r
     end.

Definition is_digit (c : ascii) : bool := (48 <=? code c) && (code c <=? 57).

(** The digits of [int(...)]: decimal digits in which single underscores
    may stand between two digits.  [prev] tells whether the previous
    character was a digit. *)
Fixpoint digits_value (acc : Z) (prev : bool) (s : string) : option Z :=
  match s with
  | EmptyString => if prev then Some acc else None
  | String c r =>
      if is_digit c then digits_value (10 * acc + (code c - 48)) true r
      else if Ascii.eqb c "_" then
        if prev then digits_value acc false r else None
      else None
  end.

(** The blanks [int] skips around the number: the ASCII white space and
    the two Latin-1 spaces, but not the separators U+001C..U+001F that
    [str.isspace] also knows. *)
Definition is_int_space (c : ascii) : bool :=
  let n := code c in
  ((9 <=? n) && (n <=? 13)) || (n =? 32) || (n =? 133) || (n =? 160).

(** The number of decimal digits in a text. *)
Fixpoint digit_count (s : string) : Z :=
  match s with
  | EmptyString => 0
  | String c r => (if is_digit c then 1 else 0) + digit_count r
  end.

(** The interpreter's default limit on the digits of a text that [int]
    converts ([sys.int_info.default_max_str_digits]). *)
Definition MAX_STR_DIGITS : Z := 4300.

(** [int(s)] in base ten: blanks are skipped on both sides, one sign may
    precede the digits, and a text of more than [MAX_STR_DIGITS] digits is
    refused; anything else is a [ValueError] too. *)
Definition py_int (s : string) : result Z :=
  let t := strip_by is_int_space s in
  let '(sign, body) :=
    match t with
    | String c r =>
        if Ascii.eqb c "+" then (1, r)
        else if Ascii.eqb c "-" then (-1, r)
        else (1, t)
    | EmptyString => (1, t)
    end in
  match digits_value 0 false body with
  | Some v =>
      if MAX_STR_DIGITS <? digit_count body then Raised ValueError
      else Returned (sign * v)
  | None => Raised ValueError
  end.

(** [(s[:-1], s[-1])]; [None] stands for the [IndexError] of [s[-1]] on the
    empty string. *)
Fixpoint split_last (s : string) : option (string * ascii) :=
  match s with
  | EmptyString => None
  | String c r =>
      match split_last r with
      | None => Some (EmptyString, c)
      | Some (pre, l) => Some (String c pre, l)
      end
  end.

(** ** Reminder time parsing and the [reminders] table *)

(** [{"s":1, "m":60, "h":3600, "d":86400}.get(unit)]. *)
Definition unit_seconds (unit : ascii) : option Z :=
  match unit with
  | "s"%char => Some 1
  | "m"%char => Some 60
  | "h"%char => Some 3600
  | "d"%char => Some 86400
  | _ => None
  end.

(** The [try] block of [cmd_remindme]: the offset in seconds, or the
    exception that the [except] clause turns into the format message. *)
Definition parse_when (when : string) : result Z :=
  match split_last when with
  | None => Raised IndexError
  | Some (pre, unit) =>
      match py_int pre with
      | Raised e => Raised e
      | Returned num =>
          match unit_seconds unit with
          | None => Raised ValueError
          | Some mult =>
              if mult =? 0 then Raised ValueError else Returned (num * mult)
          end
      end
  end.

Record reminder_row : Type := mk_reminder {
  rid : Z;
  r_user_id : Z;
  r_guild_id : option Z;
  r_channel_id : Z;
  remind_at : Z;
  r_content : string;
  created_at : Z }.

(** The table in row order, with the counter of its AUTOINCREMENT key. *)
Record reminders_table : Type := mk_reminders {
  rows : list reminder_row;
  last_id : Z }.

(** What [sqlite3] binds as an INTEGER: a Python [int] of 64 bits; any
    other raises an [OverflowError] when the statement is executed. *)
Definition sqlite_integer (x : Z) : bool := (- 2 ^ 63 <=? x) && (x <? 2 ^ 63).

(** The [INSERT] of [schedule_reminder] once its parameters are bound: one
    row more, under the next id. *)
Definition insert_reminder (user_id : Z) (guild_id : option Z)
    (channel_id remind_at_ : Z) (content_ : string) (clock : Z)
    (t : reminders_table) : reminders_table :=
  let id := last_id t + 1 in
  mk_reminders
    (rows t ++ [mk_reminder id user_id guild_id channel_id remind_at_ content_ clock])
    id.

(** Whether the integer parameters of the [INSERT] can all be bound; a
    missing guild is bound as NULL. *)
Definition sqlite_binds (user_id : Z) (guild_id : option Z)
    (channel_id remind_at_ clock : Z) : bool :=
  sqlite_integer user_id
  && match guild_id with Some g => sqlite_integer g | None => true end
  && sqlite_integer channel_id && sqlite_integer remind_at_
  && sqlite_integer clock.

(** [schedule_reminder]; [clock] is its own [int(time.time())].  A
    parameter that does not fit raises before anything is written. *)
Definition schedule_reminder (user_id : Z) (guild_id : option Z)
    (channel_id remind_at_ : Z) (content_ : string) (clock : Z)
    (t : reminders_table) : result reminders_table :=
  if sqlite_binds user_id guild_id channel_id remind_at_ clock
  then Returned (insert_reminder user_id guild_id channel_id remind_at_ content_ clock t)
  else Raised OverflowError.

(** The command context: who invoked the command and where. *)
Record context : Type := mk_context {
  ctx_author : Z;
  ctx_guild : option Z;
  ctx_channel : Z }.

Inductive remind_reply : Type :=
  | InvalidTimeFormat
  | ReminderSet (at_ : Z).

(** [cmd_remindme]; [clock1] is the command's [int(time.time())] and
    [clock2] the one [schedule_reminder] reads afterwards.  The parsing
    stands in a [try] whose handler sends the format message; the insert
    stands after it, so an exception of the insert leaves the command
    without a reply. *)
Definition cmd_remindme (ctx : context) (when content_ : string)
    (clock1 clock2 : Z) (t : reminders_table)
    : reminders_table * result remind_reply :=
  match parse_when when with
  | Raised _ => (t, Returned InvalidTimeFormat)
  | Returned seconds =>
      let at_ := clock1 + seconds in
      match schedule_reminder (ctx_author ctx) (ctx_guild ctx) (ctx_channel ctx)
              at_ content_ clock2 t with
      | Raised e => (t, Raised e)
      | Returned t' => (t', Returned (ReminderSet at_))
      end
  end.

(** What happens to one due reminder: the channel no longer resolves, the
    send returns, or the send raises. *)
Inductive delivery : Type :=
  | ChannelGone
  | SendOk
  | SendRaises.

(** [DELETE FROM reminders WHERE id = ?]. *)
Definition delete_reminder (id : Z) (l : list reminder_row) : list reminder_row :=
  List.filter (fun r => negb (rid r =? id)) l.

(** The body of the [for r in rows] loop: the [DELETE] stands after the
    send inside the same [try], so a send that raises skips it. *)
Definition deliver_one (outcome : reminder_row -> delivery)
    (acc : list reminder_row * list (Z * delivery)) (r : reminder_row)
    : list reminder_row * list (Z * delivery) :=
  let '(table, log) := acc in
  match outcome r with
  | ChannelGone => (delete_reminder (rid r) table, log ++ [(rid r, ChannelGone)])
  | SendOk => (delete_reminder (rid r) table, log ++ [(rid r, SendOk)])
  | SendRaises => (table, log ++ [(rid r, SendRaises)])
  end.

(** One cycle of [reminders_worker] at time [now]: the due rows are fetched
    first, then handled in order.  The result is the table and, per due
    row, what happened to it. *)
Definition worker_cycle (now : Z) (outcome : reminder_row -> delivery)
    (t : reminders_table) : reminders_table * list (Z * delivery) :=
  let due := List.filter (fun r => remind_at r <=? now) (rows t) in
  let '(table, log) := fold_left (deliver_one outcome) due (rows t, []) in
  (mk_reminders table (last_id t), log).

(** ** Economy commands *)

Inductive give_reply : Type :=
  | EnterAmount
  | NotEnoughCoins
  | Gave.

(** [cmd_give]: indexing the missing row of a sender raises. *)
Definition cmd_give (author member amount : Z) (s : users) : users * result give_reply :=
  if amount <=? 0 then (s, Returned EnterAmount)
  else
    match get_user author s with
    | None => (s, Raised TypeError)
    | Some row =>
        if coins row <? amount then (s, Returned NotEnoughCoins)
        else
          match change_coins author (- amount) s with
          | (s1, Raised e) => (s1, Raised e)
          | (s1, Returned _) =>
              match change_coins member amount s1 with
              | (s2, Raised e) => (s2, Raised e)
              | (s2, Returned _) => (s2, Returned Gave)
              end
          end
    end.

Inductive daily_reply : Type :=
  | AlreadyClaimed
  | Claimed (reward : Z).

(** [x or 0] on an integer. *)
Definition or_zero (x : Z) : Z := if x =? 0 then 0 else x.

(** [cmd_daily]; [now] is [int(time.time())] and [raw] the generator's
    draw. *)
Definition cmd_daily (author now raw : Z) (s : users) : users * result daily_reply :=
  let s1 := ensure_user author s in
  match get_user author s1 with
  | None => (s1, Raised TypeError)
  | Some row =>
      let last := or_zero (last_daily row) in
      if now - last <? 24 * 3600 then (s1, Returned AlreadyClaimed)
      else
        let reward := randint 50 150 raw in
        match change_coins author reward s1 with
        | (s2, Raised e) => (s2, Raised e)
        | (s2, Returned _) =>
            (alter (set_last_daily now) author s2, Returned (Claimed reward))
        end
  end.

(** The balance [cmd_balance] shows: a missing account has 0 coins. *)
Definition balance (user_id : Z) (s : users) : Z :=
  match get_user user_id s with
  | None => 0
  | Some row => coins row
  end.

(** ** Reaction roles *)

Record reaction_role : Type := mk_reaction_role {
  rr_guild_id : Z;
  rr_channel_id : Z;
  rr_message_id : Z;
  rr_emoji : string;
  rr_role_id : Z }.

(** The payload of a raw reaction event. *)
Record reaction_payload : Type := mk_payload {
  p_user_id : Z;
  p_guild_id : Z;
  p_message_id : Z;
  p_emoji : string }.

(** What the client's cache resolves: [bot.get_guild], [guild.get_role] and
    [guild.get_member]. *)
Record guild_cache : Type := mk_cache {
  has_guild : Z -> bool;
  has_role : Z -> Z -> bool;
  has_member : Z -> Z -> bool }.

(** What a raw reaction handler does, in order. *)
Inductive role_effect : Type :=
  | SelectBinding (guild_id message_id : Z) (emoji : string)
  | AddRoles (member role : Z)
  | RemoveRoles (member role : Z).

(** [SELECT role_id FROM reaction_roles WHERE guild_id = ? AND message_id = ?
    AND emoji = ?], [fetchone()]: the first matching row. *)
Definition select_binding (guild_id message_id : Z) (emoji : string)
    (table : list reaction_role) : option Z :=
  match List.filter (fun b => (rr_guild_id b =? guild_id)
                           && (rr_message_id b =? message_id)
                           && String.eqb (rr_emoji b) emoji) table with
  | [] => None
  | b :: _ => Some (rr_role_id b)
  end.

(** The part both raw handlers share after the self-filter of the add
    handler: look the binding up, resolve role and member, act.  A guild
    that does not resolve makes [guild.get_role] raise. *)
Definition resolve_and_act (act : Z -> Z -> role_effect) (cache : guild_cache)
    (table : list reaction_role) (payload : reaction_payload)
    : result (list role_effect) :=
  let q := SelectBinding (p_guild_id payload) (p_message_id payload) (p_emoji payload) in
  match select_binding (p_guild_id payload) (p_message_id payload) (p_emoji payload) table with
  | None => Returned [q]
  | Some role =>
      if has_guild cache (p_guild_id payload) then
        if has_member cache (p_guild_id payload) (p_user_id payload)
           && has_role cache (p_guild_id payload) role
        then Returned [q; act (p_user_id payload) role]
        else Returned [q]
      else Raised AttributeError
  end.

Definition on_raw_reaction_add (bot_user_id : Z) (cache : guild_cache)
    (table : list reaction_role) (payload : reaction_payload)
    : result (list role_effect) :=
  if p_user_id payload =? bot_user_id then Returned []
  else resolve_and_act AddRoles cache table payload.

Definition on_raw_reaction_remove (bot_user_id : Z) (cache : guild_cache)
    (table : list reaction_role) (payload : reaction_payload)
    : result (list role_effect) :=
  resolve_and_act RemoveRoles cache table payload.

(** ** Message dispatch *)

Definition TRIVIA_QUESTIONS : list (string * string) :=
  [ ("What is the capital of France?", "paris");
    ("Which planet is known as the Red Planet?", "mars");
    ("Who wrote Hamlet?", "william shakespeare");
    ("What is 9 * 9?", "81") ].

(** The settings read from the environment at start-up.  The two cooldowns
    are counted in the unit of the clock readings. *)
Record config : Type := mk_config {
  AUTO_REACT_CHANNEL_IDS : list Z;
  AUTO_REACT_KEYWORDS : list string;
  AUTO_REACT_COOLDOWN : Z;
  AUTO_REPLY_CHANNEL_IDS : list Z;
  AUTO_REPLY_KEYWORDS : list string;
  AUTO_REPLY_CHANCE : Z;
  AUTO_REPLY_COOLDOWN : Z }.

(** The database table [users] and the module-level dictionaries. *)
Record bot_state : Type := mk_state {
  db_users : users;
  active_trivia : gmap Z (string * Z);
  trivia_scores : gmap Z Z;
  _last_react_time : gmap (Z * Z) Z;
  _last_reply_time : gmap (Z * Z) Z }.

Definition initial_state : bot_state := mk_state ∅ ∅ ∅ ∅ ∅.

Record message : Type := mk_message {
  author_bot : bool;
  author_id : Z;
  channel_id : Z;
  content : string }.

(** What the outside world contributes while one message is handled: the
    draw for the xp amount, whether the trivia announcement is sent or
    raises, the reading of [time.time()] in clock ticks, and the draw for
    the reply chance. *)
Record surroundings : Type := mk_surroundings {
  xp_draw : Z;
  announce_sent : bool;
  clock : Z;
  reply_draw : Z }.

(** What [on_message] emits, in order. *)
Inductive action : Type :=
  | LevelUp (user lvl : Z)
  | TriviaCorrect (user total : Z)
  | TriviaAnnounceFailed (user : Z)
  | AddReactions (user channel : Z)
  | AutoReply (user channel : Z)
  | ProcessCommands (m : message)
  | LogError (e : exn).

(** [d.get(k, 0)]. *)
Definition get0 `{Countable K} (d : gmap K Z) (k : K) : Z := default 0 (d !! k).

(** [random.choice(seq)] with the generator's draw [raw]. *)
Definition choice {A : Type} (seq : list A) (raw : Z) : option A :=
  seq !! Z.to_nat (raw mod Z.of_nat (length seq)).

(** [trivia_cmd] and [trivia_slash]: the picked answer is stored for the
    channel together with the asker. *)
Definition trivia_cmd (channel asker raw : Z) (st : bot_state) : bot_state :=
  match choice TRIVIA_QUESTIONS raw with
  | None => st
  | Some q =>
      mk_state (db_users st) (<[channel := (snd q, asker)]> (active_trivia st))
        (trivia_scores st) (_last_react_time st) (_last_reply_time st)
  end.

(** The xp award of [on_message]. *)
Definition award_xp (m : message) (w : surroundings) (st : bot_state)
    : bot_state * list action :=
  let '(u, r) := add_xp (author_id m) (randint 1 3 (xp_draw w)) (db_users st) in
  let st' := mk_state u (active_trivia st) (trivia_scores st)
               (_last_react_time st) (_last_reply_time st) in
  match r with
  | Returned (Some lvl) =>
      (st', if lvl =? 0 then [] else [LevelUp (author_id m) lvl])
  | Returned None => (st', [])
  | Raised e => (st', [LogError e])
  end.

(** The trivia answer check of [on_message].  The boolean tells whether the
    handler returns here (after dispatching prefix commands). *)
Definition trivia_check (m : message) (w : surroundings) (st : bot_state)
    : bot_state * list action * bool :=
  match active_trivia st !! channel_id m with
  | None => (st, [], false)
  | Some (answer, _) =>
      if String.eqb (lower (strip (content m))) answer then
        let uid := author_id m in
        let total := get0 (trivia_scores st) uid + 1 in
        let scores := <[uid := total]> (trivia_scores st) in
        if announce_sent w then
          (mk_state (db_users st) (delete (channel_id m) (active_trivia st))
             scores (_last_react_time st) (_last_reply_time st),
           [TriviaCorrect uid total; ProcessCommands m], true)
        else
          (mk_state (db_users st) (active_trivia st) scores
             (_last_react_time st) (_last_reply_time st),
           [TriviaAnnounceFailed uid], false)
      else (st, [], false)
  end.

(** [any(kw in message.content.lower() for kw in keywords)]. *)
Definition any_keyword (keywords : list string) (m : message) : bool :=
  existsb (fun kw => contains kw (lower (content m))) keywords.

Definition in_channels (ids : list Z) (m : message) : bool :=
  existsb (Z.eqb (channel_id m)) ids.

(** The cooldown test both subsystems use: [now - last.get(key, 0) >= cooldown]. *)
Definition cooled_down (last : gmap (Z * Z) Z) (key : Z * Z) (now cooldown : Z) : bool :=
  cooldown <=? now - get0 last key.

(** The auto-react block: the new timestamps and whether reactions are
    added. *)
Definition auto_react (cfg : config) (m : message) (now : Z)
    (last : gmap (Z * Z) Z) : gmap (Z * Z) Z * bool :=
  let key := (author_id m, channel_id m) in
  if in_channels (AUTO_REACT_CHANNEL_IDS cfg) m then
    match AUTO_REACT_KEYWORDS cfg with
    | _ :: _ =>
        if any_keyword (AUTO_REACT_KEYWORDS cfg) m then
          if cooled_down last key now (AUTO_REACT_COOLDOWN cfg)
          then (<[key := now]> last, true) else (last, false)
        else (last, false)
    | [] =>
        if cooled_down last key now (AUTO_REACT_COOLDOWN cfg)
        then (<[key := now]> last, true) else (last, false)
    end
  else (last, false).

(** The auto-reply block. *)
Definition auto_reply (cfg : config) (m : message) (now raw : Z)
    (last : gmap (Z * Z) Z) : gmap (Z * Z) Z * bool :=
  let key := (author_id m, channel_id m) in
  if in_channels (AUTO_REPLY_CHANNEL_IDS cfg) m then
    if match AUTO_REPLY_KEYWORDS cfg with [] => true | _ :: _ => false end
       || any_keyword (AUTO_REPLY_KEYWORDS cfg) m then
      if cooled_down last key now (AUTO_REPLY_COOLDOWN cfg) then
        if randint 1 100 raw <=? AUTO_REPLY_CHANCE cfg
        then (<[key := now]> last, true) else (last, false)
      else (last, false)
    else (last, false)
  else (last, false).

Definition on_message (cfg : config) (m : message) (w : surroundings)
    (st : bot_state) : bot_state * list action :=
  if author_bot m then (st, [])
  else
    let '(st1, a1) := award_xp m w st in
    let '(st2, a2, handled) := trivia_check m w st1 in
    if handled then (st2, a1 ++ a2)
    else
      let '(lr, reacted) := auto_react cfg m (clock w) (_last_react_time st2) in
      let '(lp, replied) := auto_reply cfg m (clock w) (reply_draw w) (_last_reply_time st2) in
      (mk_state (db_users st2) (active_trivia st2) (trivia_scores st2) lr lp,
       a1 ++ a2
       ++ (if reacted then [AddReactions (author_id m) (channel_id m)] else [])
       ++ (if replied then [AutoReply (author_id m) (channel_id m)] else [])
       ++ [ProcessCommands m]).

(** The events that reach the dictionaries of the dispatcher. *)
Inductive event : Type :=
  | MessageCreated (m : message) (w : surroundings)
  | TriviaStarted (channel asker raw : Z).

Definition handle (cfg : config) (st : bot_state) (ev : event)
    : bot_state * list action :=
  match ev with
  | MessageCreated m w => on_message cfg m w st
  | TriviaStarted channel asker raw => (trivia_cmd channel asker raw st, [])
  end.

(** The events in the order they are handled; the result keeps what each
    one emitted. *)
Fixpoint run (cfg : config) (st : bot_state) (evs : list event)
    : bot_state * list (list action) :=
  match evs with
  | [] => (st, [])
  | ev :: rest =>
      let '(st1, a) := handle cfg st ev in
      let '(st2, l) := run cfg st1 rest in
      (st2, a :: l)
  end.

(** ** Views of the store used in the statements *)

Definition xp_of (user_id : Z) (s : users) : Z :=
  match s !! user_id with None => 0 | Some row => xp row end.

Definition level_of (user_id : Z) (s : users) : Z :=
  match s !! user_id with None => 0 | Some row => level row end.

Definition last_daily_of (user_id : Z) (s : users) : Z :=
  match s !! user_id with None => 0 | Some row => last_daily row end.

(** A sequence of [add_xp] calls, each with its user and amount. *)
Definition add_xp_calls (calls : list (Z * Z)) (s : users) : users :=
  fold_left (fun acc c => fst (add_xp (fst c) (snd c) acc)) calls s.

(** The stores the program can build: every row is created by
    [ensure_user], and xp only ever receives increments. *)
Inductive reachable_users : users -> Prop :=
  | reach_empty : reachable_users ∅
  | reach_ensure s u : reachable_users s -> reachable_users (ensure_user u s)
  | reach_add_xp s u amount :
      reachable_users s -> 0 <= amount -> reachable_users (fst (add_xp u amount s))
  | reach_change_coins s u delta :
      reachable_users s -> reachable_users (fst (change_coins u delta s))
  | reach_last_daily s u now :
      reachable_users s -> reachable_users (alter (set_last_daily now) u s).

(** The invariant of the [users] table: xp is not negative and, within the
    range where the binary64 root is exact, the level is its integer root. *)
Definition level_tracks_xp (s : users) : Prop :=
  forall u row, s !! u = Some row ->
    0 <= xp row /\ (xp row < 2 ^ 52 -> level row = Z.sqrt (xp row)).

(** The primary key of [reminders]: no two rows share an id and the
    AUTOINCREMENT counter is not below any id in use. *)
Definition well_keyed (t : reminders_table) : Prop :=
  List.NoDup (map rid (rows t)) /\ Forall (fun r => rid r <= last_id t) (rows t).

Definition empty_reminders : reminders_table := mk_reminders [] 0.

(** Whether the loop body deletes the row. *)
Definition deletes (outcome : reminder_row -> delivery) (r : reminder_row) : bool :=
  match outcome r with
  | SendRaises => false
  | _ => true
  end.

Definition is_due (now : Z) (r : reminder_row) : bool := remind_at r <=? now.

(** What can happen to the table afterwards: further cycles of the worker
    and further reminders being scheduled. *)
Inductive evolves (t : reminders_table) : reminders_table -> Prop :=
  | evolves_refl : evolves t t
  | evolves_cycle t2 now outcome :
      evolves t t2 -> evolves t (fst (worker_cycle now outcome t2))
  | evolves_schedule t2 user guild channel at_ text clock_ :
      evolves t t2 ->
      evolves t (insert_reminder user guild channel at_ text clock_ t2).

(** ** The time format in the words of the specification *)

(** Whether every character is a decimal digit. *)
Fixpoint all_digits (s : string) : bool :=
  match s with
  | EmptyString => true
  | String c r => is_digit c && all_digits r
  end.

(** The number a run of decimal digits denotes, read after [acc]. *)
Fixpoint decimal_value (acc : Z) (s : string) : Z :=
  match s with
  | EmptyString => acc
  | String c r => decimal_value (10 * acc + (code c - 48)) r
  end.

(** "An integer": a non-empty run of decimal digits, with at most a sign in
    front. *)
Inductive integer_text : string -> Z -> Prop :=
  | int_plain ds :
      ds <> EmptyString -> all_digits ds = true ->
      integer_text ds (decimal_value 0 ds)
  | int_plus ds :
      ds <> EmptyString -> all_digits ds = true ->
      integer_text (String "+" ds) (decimal_value 0 ds)
  | int_minus ds :
      ds <> EmptyString -> all_digits ds = true ->
      integer_text (String "-" ds) (- decimal_value 0 ds).

(** "An integer immediately followed by one unit character from
    {s,m,h,d}", with the offset it denotes. *)
Definition spec_time_format (when : string) (seconds : Z) : Prop :=
  exists pre unit num mult,
    when = (pre ++ String unit EmptyString)%string
    /\ integer_text pre num
    /\ In (unit, mult) [("s"%char, 1); ("m"%char, 60); ("h"%char, 3600); ("d"%char, 86400)]
    /\ seconds = num * mult.

(** ** The texts [int] converts, as a grammar *)

(** Whether every character is a blank. *)
Fixpoint all_blank (blank : ascii -> bool) (s : string) : bool :=
  match s with
  | EmptyString => true
  | String c r => blank c && all_blank blank r
  end.

(** Whether the text does not end in a blank. *)
Definition ends_clean (blank : ascii -> bool) (s : string) : bool :=
  match split_last s with
  | None => true
  | Some (_, c) => negb (blank c)
  end.

(** What may follow a digit: nothing, another digit, or an underscore and
    another digit.  [digit_tail r acc v]: after the digits read so far
    denote [acc], the rest [r] brings the number to [v]. *)
Inductive digit_tail : string -> Z -> Z -> Prop :=
  | tail_end acc : digit_tail EmptyString acc acc
  | tail_digit c r acc v :
      is_digit c = true -> digit_tail r (10 * acc + (code c - 48)) v ->
      digit_tail (String c r) acc v
  | tail_underscore c r acc v :
      is_digit c = true -> digit_tail r (10 * acc + (code c - 48)) v ->
      digit_tail (String "_" (String c r)) acc v.

(** A run of digits in which single underscores may separate two digits. *)
Inductive digit_run : string -> Z -> Prop :=
  | run_intro c r v :
      is_digit c = true -> digit_tail r (code c - 48) v ->
      digit_run (String c r) v.

(** The texts [int] converts: blanks, at most one sign, a run of at most
    [MAX_STR_DIGITS] digits, blanks. *)
Inductive int_text : string -> Z -> Prop :=
  | int_text_plain lead body trail v :
      all_blank is_int_space lead = true -> all_blank is_int_space trail = true ->
      digit_run body v -> digit_count body <= MAX_STR_DIGITS ->
      int_text (lead ++ body ++ trail)%string v
  | int_text_plus lead body trail v :
      all_blank is_int_space lead = true -> all_blank is_int_space trail = true ->
      digit_run body v -> digit_count body <= MAX_STR_DIGITS ->
      int_text (lead ++ String "+" body ++ trail)%string v
  | int_text_minus lead body trail v :
      all_blank is_int_space lead = true -> all_blank is_int_space trail = true ->
      digit_run body v -> digit_count body <= MAX_STR_DIGITS ->
      int_text (lead ++ String "-" body ++ trail)%string (- v).

(** The characters [int] tolerates around and between the digits. *)
Definition int_filler (c : ascii) : bool :=
  is_int_space c || Ascii.eqb c "+" || Ascii.eqb c "-" || Ascii.eqb c "_".

(** Whether no character is a blank. *)
Fixpoint no_blank (blank : ascii -> bool) (s : string) : bool :=
  match s with
  | EmptyString => true
  | String c r => negb (blank c) && no_blank blank r
  end.

(** The characters of a text. *)
Definition chars (s : string) : list ascii := list_ascii_of_string s.

(** ** Notions used in the statements about the dispatcher *)

(** The answers a session can hold. *)
Definition trivia_answers : list string := map snd TRIVIA_QUESTIONS.

(** "Trimmed-lowercased": [s.strip().lower()]. *)
Definition normalise (s : string) : string := lower (strip s).

(** Every active session holds an answer of [TRIVIA_QUESTIONS]. *)
Definition sessions_from_command (st : bot_state) : Prop :=
  forall channel answer asker,
    active_trivia st !! channel = Some (answer, asker) -> In answer trivia_answers.

(** The score [trivia_scores.get(user, 0)]. *)
Definition score (st : bot_state) (user : Z) : Z := get0 (trivia_scores st) user.

(** The [i]-th handled event emitted [a]. *)
Definition emitted (outs : list (list action)) (i : nat) (a : action) : Prop :=
  exists acts, outs !! i = Some acts /\ In a acts.

(** ** A small scenario for the examples *)

(** Channel 3 is configured for both subsystems, without keywords. *)
Definition demo_config : config := mk_config [3] [] 10 [3] [] 15 30.

(** User 9 has started a trivia question in channel 3; the generator's draw
    0 picks the first question, whose answer is "paris". *)
Definition demo_state : bot_state :=
  fst (run demo_config initial_state [TriviaStarted 3 9 0]).

(** An action that is neither an auto-react nor an auto-reply. *)
Definition quiet (a : action) : Prop :=
  match a with
  | AddReactions _ _ | AutoReply _ _ => False
  | _ => True
  end.

(** * Further parts of [main.py] *)

(** ** Economy: sequences of commands *)

(** The handlers that write to [users]. *)
Inductive economy_command : Type :=
  | Give (author member amount : Z)
  | Daily (author now raw : Z)
  | Message (author raw : Z).

Definition economy_step (s : users) (c : economy_command) : users :=
  match c with
  | Give author member amount => fst (cmd_give author member amount s)
  | Daily author now raw => fst (cmd_daily author now raw s)
  | Message author raw => fst (add_xp author (randint 1 3 raw) s)
  end.

Definition economy_run (cs : list economy_command) (s : users) : users :=
  fold_left economy_step cs s.

(** No account is in debt. *)
Definition solvent (s : users) : Prop :=
  forall u row, s !! u = Some row -> 0 <= coins row.

(** ** Reactions to a message *)

(** How the platform answers one [message.add_reaction]. *)
Inductive reaction_outcome : Type :=
  | Reacted
  | Forbidden
  | OtherFailure.

(** The loop of [try_add_reactions] from the [i]-th emoji on: the attempts
    made, in order, each with its outcome.  [answer i] is the platform's
    answer to the attempt on the [i]-th emoji.  [discord.Forbidden] ends the
    loop; any other exception is logged and the loop goes on. *)
Fixpoint try_add_reactions_from (answer : nat -> reaction_outcome) (i : nat)
    (emojis : list string) : list (string * reaction_outcome) :=
  match emojis with
  | [] => []
  | e :: rest =>
      match answer i with
      | Forbidden => [(e, Forbidden)]
      | o => (e, o) :: try_add_reactions_from answer (S i) rest
      end
  end.

Definition try_add_reactions (answer : nat -> reaction_outcome)
    (emojis : list string) : list (string * reaction_outcome) :=
  try_add_reactions_from answer 0 emojis.

(** ** Settings read from the environment *)

(** [s.split(sep)] for a separator of one character. *)
Fixpoint str_split (sep : ascii) (s : string) : list string :=
  match s with
  | EmptyString => [EmptyString]
  | String c r =>
      if Ascii.eqb c sep then EmptyString :: str_split sep r
      else
        match str_split sep r with
        | [] => [String c EmptyString]
        | p :: ps => String c p :: ps
        end
  end.

(** Whether every character of the text satisfies [p]. *)
Fixpoint all_chars (p : ascii -> bool) (s : string) : bool :=
  match s with
  | EmptyString => true
  | String c r => p c && all_chars p r
  end.

(** The code points below 256 that [str.isdigit] accepts: the decimal
    digits and the superscripts two, three and one. *)
Definition is_unicode_digit (c : ascii) : bool :=
  is_digit c || (code c =? 178) || (code c =? 179) || (code c =? 185).

(** [s.isdigit()]. *)
Definition isdigit (s : string) : bool :=
  match s with
  | EmptyString => false
  | String _ _ => all_chars is_unicode_digit s
  end.

(** The truth value of a text: whether it is not empty. *)
Definition nonempty (s : string) : bool :=
  match s with
  | EmptyString => false
  | String _ _ => true
  end.

(** [[int(x) for x in xs]]: the first [int] that raises ends the
    comprehension. *)
Fixpoint int_each (xs : list string) : result (list Z) :=
  match xs with
  | [] => Returned []
  | x :: rest =>
      match py_int x with
      | Raised e => Raised e
      | Returned v =>
          match int_each rest with
          | Raised e => Raised e
          | Returned vs => Returned (v :: vs)
          end
      end
  end.

(** [[int(x) for x in setting.split(",") if x.strip().isdigit()]], the
    expression behind [AUTO_REACT_CHANNEL_IDS] and
    [AUTO_REPLY_CHANNEL_IDS]. *)
Definition parse_channel_ids (setting : string) : result (list Z) :=
  int_each (List.filter (fun x => isdigit (strip x)) (str_split "," setting)).

(** [[k.strip().lower() for k in setting.split(",") if k.strip()]], the
    expression behind [AUTO_REACT_KEYWORDS] and [AUTO_REPLY_KEYWORDS]. *)
Definition parse_keywords (setting : string) : list string :=
  map (fun k => lower (strip k))
    (List.filter (fun k => nonempty (strip k)) (str_split "," setting)).

(** [[o.strip() for o in setting.split(",") if o.strip()]], the expression
    behind the options of a poll (and behind [AUTO_REACT_EMOJIS]). *)
Definition parse_items (setting : string) : list string :=
  map strip (List.filter (fun o => nonempty (strip o)) (str_split "," setting)).

(** [os.environ.get(key, default)]. *)
Definition environ_get (environ : string -> option string) (key default_ : string)
    : string :=
  match environ key with
  | Some v => v
  | None => default_
  end.

(** The settings of the two subsystems as the module reads them at import,
    in the order of the source; the first expression that raises ends the
    import. *)
Definition load_config (environ : string -> option string) : result config :=
  match parse_channel_ids (environ_get environ "AUTO_REACT_CHANNELS" "") with
  | Raised e => Raised e
  | Returned react_ids =>
  let react_keywords := parse_keywords (environ_get environ "AUTO_REACT_KEYWORDS" "") in
  match py_int (environ_get environ "AUTO_REACT_COOLDOWN" "10") with
  | Raised e => Raised e
  | Returned react_cooldown =>
  match parse_channel_ids (environ_get environ "AUTO_REPLY_CHANNELS" "") with
  | Raised e => Raised e
  | Returned reply_ids =>
  let reply_keywords := parse_keywords (environ_get environ "AUTO_REPLY_KEYWORDS" "") in
  match py_int (environ_get environ "AUTO_REPLY_CHANCE" "15") with
  | Raised e => Raised e
  | Returned reply_chance =>
  match py_int (environ_get environ "AUTO_REPLY_COOLDOWN" "30") with
  | Raised e => Raised e
  | Returned reply_cooldown =>
      Returned (mk_config react_ids react_keywords react_cooldown
                  reply_ids reply_keywords reply_chance reply_cooldown)
  end end end end end.

(** ** Rock-paper-scissors *)

Inductive rps_result : Type :=
  | Tie
  | YouWin
  | IWin.

Inductive rps_reply : Type :=
  | InvalidChoice
  | Played (you bot : string) (res : rps_result).

Definition rps_opts : list string := ["rock"; "paper"; "scissors"].

(** The comparison of [rps_slash]. *)
Definition rps_judge (you bot : string) : rps_result :=
  if String.eqb you bot then Tie
  else if (String.eqb you "rock" && String.eqb bot "scissors")
          || (String.eqb you "paper" && String.eqb bot "rock")
          || (String.eqb you "scissors" && String.eqb bot "paper")
       then YouWin
       else IWin.

(** [rps_slash] up to the message it hands to
    [interaction.response.send_message]; [raw] is the generator's draw.
    The send itself is not part of the model: it can raise, and it does
    when the function is reached through [rps_cmd], whose context has no
    [response]. *)
Definition rps_slash (choice_ : string) (raw : Z) : result rps_reply :=
  let you := lower choice_ in
  if negb (existsb (String.eqb you) rps_opts) then Returned InvalidChoice
  else
    match choice rps_opts raw with
    | None => Raised IndexError
    | Some bot => Returned (Played you bot (rps_judge you bot))
    end.

(** ** Polls *)

(** The keycap emojis, as lists of code points. *)
Definition NUMBER_EMOJIS : list (list Z) :=
  [[49; 8419]; [50; 8419]; [51; 8419]; [52; 8419]; [53; 8419]].

Inductive poll_reply : Type :=
  | ProvideOptions
  | PollOpened (lines : list (list Z * string)).

(** [(NUMBER_EMOJIS[i], options[i])] for the positions from [i] on; an index
    beyond the emojis raises. *)
Fixpoint poll_lines (i : nat) (options : list string)
    : result (list (list Z * string)) :=
  match options with
  | [] => Returned []
  | o :: rest =>
      match NUMBER_EMOJIS !! i with
      | None => Raised IndexError
      | Some e =>
          match poll_lines (S i) rest with
          | Raised x => Raised x
          | Returned ls => Returned ((e, o) :: ls)
          end
      end
  end.

(** The opening of [poll_slash]: the options are parsed and counted, and
    the lines of the embed are built. *)
Definition poll_slash (opts : string) : result poll_reply :=
  let options := parse_items opts in
  if (length options <? 2)%nat || (5 <? length options)%nat
  then Returned ProvideOptions
  else
    match poll_lines 0 options with
    | Raised x => Raised x
    | Returned ls => Returned (PollOpened ls)
    end.

(** ** Moderation *)

Record infraction_row : Type := mk_infraction {
  inf_id : Z;
  inf_guild_id : Z;
  inf_user_id : Z;
  inf_mod_id : Z;
  inf_action : string;
  inf_reason : string;
  inf_created_at : Z }.

(** The table [infractions] in row order, with the counter of its
    AUTOINCREMENT key. *)
Record infractions_table : Type := mk_infractions {
  inf_rows : list infraction_row;
  inf_last_id : Z }.

(** [log_infraction]; [clock] is its [int(time.time())]. *)
Definition log_infraction (guild_id user_id mod_id : Z) (action_ reason : string)
    (clock : Z) (t : infractions_table) : infractions_table :=
  let id := inf_last_id t + 1 in
  mk_infractions
    (inf_rows t ++ [mk_infraction id guild_id user_id mod_id action_ reason clock])
    id.

(** The messages the moderation commands try to send. *)
Inductive moderation_message : Type :=
  | Kicked (member : Z) (reason : string)
  | KickFailed
  | Banned (member : Z) (reason : string)
  | BanFailed
  | Warned (member : Z) (reason : string).

(** [cmd_kick] in a guild.  [kick_ok] tells whether [member.kick] returns
    and [confirm_ok] whether the confirmation is sent; kick, log entry and
    confirmation stand in one [try], and whatever raises there leads to the
    failure message.  The result lists the messages tried, in order. *)
Definition cmd_kick (guild author member : Z) (reason : string)
    (kick_ok confirm_ok : bool) (clock : Z) (t : infractions_table)
    : infractions_table * list moderation_message :=
  if kick_ok then
    let t' := log_infraction guild member author "kick" reason clock t in
    if confirm_ok then (t', [Kicked member reason])
    else (t', [Kicked member reason; KickFailed])
  else (t, [KickFailed]).

(** [cmd_ban], built like [cmd_kick]. *)
Definition cmd_ban (guild author member : Z) (reason : string)
    (ban_ok confirm_ok : bool) (clock : Z) (t : infractions_table)
    : infractions_table * list moderation_message :=
  if ban_ok then
    let t' := log_infraction guild member author "ban" reason clock t in
    if confirm_ok then (t', [Banned member reason])
    else (t', [Banned member reason; BanFailed])
  else (t, [BanFailed]).

(** [cmd_warn]: the entry is written first, outside any [try]. *)
Definition cmd_warn (guild author member : Z) (reason : string)
    (clock : Z) (t : infractions_table)
    : infractions_table * list moderation_message :=
  (log_infraction guild member author "warn" reason clock t, [Warned member reason]).

(** A moderation command as it reaches the bot, with the platform's part in
    it. *)
Inductive moderation_command : Type :=
  | Kick (guild author member : Z) (reason : string) (kick_ok confirm_ok : bool) (clock : Z)
  | Ban (guild author member : Z) (reason : string) (ban_ok confirm_ok : bool) (clock : Z)
  | Warn (guild author member : Z) (reason : string) (clock : Z).

Definition moderation_step (t : infractions_table) (c : moderation_command)
    : infractions_table :=
  match c with
  | Kick guild author member reason kick_ok confirm_ok clock =>
      fst (cmd_kick guild author member reason kick_ok confirm_ok clock t)
  | Ban guild author member reason ban_ok confirm_ok clock =>
      fst (cmd_ban guild author member reason ban_ok confirm_ok clock t)
  | Warn guild author member reason clock =>
      fst (cmd_warn guild author member reason clock t)
  end.

Definition moderation_run (cs : list moderation_command) (t : infractions_table)
    : infractions_table :=
  fold_left moderation_step cs t.

(** Whether the platform carried the command out: a warning always is. *)
Definition carried_out (c : moderation_command) : bool :=
  match c with
  | Kick _ _ _ _ kick_ok _ _ => kick_ok
  | Ban _ _ _ _ ban_ok _ _ => ban_ok
  | Warn _ _ _ _ _ => true
  end.

(** What a row says, its id apart: guild, member, moderator, action,
    reason and time. *)
Definition entry (r : infraction_row) : Z * Z * Z * string * string * Z :=
  (inf_guild_id r, inf_user_id r, inf_mod_id r, inf_action r, inf_reason r,
   inf_created_at r).

(** What a command should leave in the log. *)
Definition entry_of (c : moderation_command) : Z * Z * Z * string * string * Z :=
  match c with
  | Kick guild author member reason _ _ clock => (guild, member, author, "kick", reason, clock)
  | Ban guild author member reason _ _ clock => (guild, member, author, "ban", reason, clock)
  | Warn guild author member reason clock => (guild, member, author, "warn", reason, clock)
  end.

(** ** Welcome messages *)

(** A row of [guild_config]; [cmd_setwelcome] is its only writer. *)
Record guild_config_row : Type := mk_guild_config {
  welcome_channel : Z;
  welcome_message : string;
  modlog_channel : option Z }.

Abbreviation guild_configs := (gmap Z guild_config_row).

(** [cmd_setwelcome]: [INSERT OR REPLACE] puts a whole new row in the place
    of the guild's old one. *)
Definition cmd_setwelcome (guild channel : Z) (message_ : string)
    (t : guild_configs) : guild_configs :=
  <[guild := mk_guild_config channel message_ None]> t.

(** [on_member_join]: the message the handler tries to send, as channel and
    text.  [format template user guild] stands for
    [template.format(user=..., guild=...)], which raises on a template it
    cannot fill, and [get_channel] for what the guild's cache resolves; an
    exception in the [try] is dropped. *)
Definition on_member_join (format : string -> string -> string -> result string)
    (get_channel : Z -> Z -> bool) (guild : Z) (mention guild_name : string)
    (t : guild_configs) : option (Z * string) :=
  match t !! guild with
  | None => None
  | Some row =>
      if get_channel guild (welcome_channel row) then
        match format (welcome_message row) mention guild_name with
        | Returned text => Some (welcome_channel row, text)
        | Raised _ => None
        end
      else None
  end.

(** ** Reaction roles: registering *)

(** [cmd_createreactionrole]: the row is appended; nothing looks for an
    older binding of the same emoji. *)
Definition cmd_createreactionrole (guild channel message_id : Z) (emoji : string)
    (role : Z) (table : list reaction_role) : list reaction_role :=
  table ++ [mk_reaction_role guild channel message_id emoji role].

(** ** Asking the assistant *)

Definition MAX_RESPONSE_LENGTH : nat := 1900.

Inductive ask_message : Type :=
  | Answer (out : string)
  | AIError (err : option string).

(** What [ask_slash] sends for the pair [(text, err)] that
    [query_huggingface] returned. *)
Definition ask_slash (text err : option string) : ask_message :=
  match text with
  | Some t =>
      if nonempty t then
        let out := strip t in
        if (MAX_RESPONSE_LENGTH <? String.length out)%nat
        then Answer (substring 0 MAX_RESPONSE_LENGTH out ++ "...")
        else Answer out
      else AIError err
  | None => AIError err
  end.

(** What [ask_prefix] puts into its message. *)
Definition ask_prefix (text err : option string) : ask_message :=
  match text with
  | Some t =>
      if nonempty t then Answer (substring 0 MAX_RESPONSE_LENGTH t)
      else AIError err
  | None => AIError err
  end.

(** * Proofs *)

(** ** The model on known values *)


(** Texts [int] converts and texts it refuses. *)
Example py_int_values :
  map py_int ["10"; "-5"; "+7"; "007"; " 10 "; "1_0"; ""; "+"; "1__0"; "_1";
              "1_"; "1 0"; "- 1"; "m1"; "1.5"]
  = [Returned 10; Returned (-5); Returned 7; Returned 7; Returned 10;
     Returned 10; Raised ValueError; Raised ValueError; Raised ValueError;
     Raised ValueError; Raised ValueError; Raised ValueError;
     Raised ValueError; Raised ValueError; Raised ValueError].
Proof. vm_compute. reflexivity. Qed.

Example normalise_values :
  map normalise ["  Paris "; "WILLIAM Shakespeare"; "81"; " "]
  = ["paris"; "william shakespeare"; "81"; ""].
Proof. vm_compute. reflexivity. Qed.

(** ** The square root in binary64 *)

Lemma four_pow u : 0 <= u -> 4 ^ u = 2 ^ u * 2 ^ u.
Proof.
  intros Hu. change 4 with (2 ^ 2).
  rewrite <- Z.pow_mul_r, <- Z.pow_add_r by lia. f_equal. lia.
Qed.

Lemma root_within_ulp_trunc x r :
  0 <= x < 2 ^ 52 -> root_within_ulp x r -> trunc_float r = Z.sqrt x.
Proof.
  intros [Hx0 Hx] H. destruct r as [m e]. unfold root_within_ulp in H.
  destruct (x =? 0) eqn:Hz.
  { apply Z.eqb_eq in Hz. subst. unfold trunc_float.
    destruct (0 <=? e); [reflexivity|]. change (Z.sqrt 0) with 0.
    destruct (2 ^ (- e)); reflexivity. }
  apply Z.eqb_neq in Hz. destruct H as ([Hm Hm53] & Hup & Hlo).
  set (d := if m =? 2 ^ 52 then 1 else 2) in *.
  assert (Hd : 2 ^ 53 - 1 <= 2 * m - d).
  { unfold d. destruct (m =? 2 ^ 52) eqn:E; [apply Z.eqb_eq in E | apply Z.eqb_neq in E]; lia. }
  assert (Hd2 : 2 * m - 2 <= 2 * m - d) by (unfold d; destruct (m =? 2 ^ 52); lia).
  assert (Hsq : (2 ^ 53 - 1) ^ 2 <= (2 * m - d) ^ 2) by (apply Z.pow_le_mono_l; lia).
  (* the exponent is at most -27 *)
  assert (He : e <= -27).
  { destruct (Z_lt_le_dec e (-26)) as [?|Hge]; [lia|]. exfalso.
    destruct (Z_lt_le_dec e 0) as [Hneg|Hpos].
    - rewrite (Z.max_l 0 e), (Z.max_r 0 (- e)) in Hlo by lia.
      rewrite Z.pow_0_r, Z.mul_1_r in Hlo.
      assert (4 ^ (- e) <= 4 ^ 26) by (apply Z.pow_le_mono_r; lia).
      assert (4 * x * 4 ^ (- e) <= 4 * (2 ^ 52 - 1) * 4 ^ 26) by nia.
      assert ((2 ^ 53 - 1) ^ 2 > 4 * (2 ^ 52 - 1) * 4 ^ 26) by reflexivity. lia.
    - rewrite (Z.max_r 0 e), (Z.max_l 0 (- e)) in Hlo by lia.
      rewrite Z.pow_0_r, Z.mul_1_r in Hlo.
      assert (1 <= 4 ^ e) by (apply (Z.pow_le_mono_r 4 0 e); lia).
      assert ((2 ^ 53 - 1) ^ 2 > 4 * 2 ^ 52) by reflexivity. nia. }
  rewrite (Z.max_r 0 (- e)), (Z.max_l 0 e), Z.pow_0_r, !Z.mul_1_r in Hup, Hlo by lia.
  rewrite (four_pow (- e)) in Hup, Hlo by lia.
  assert (HP : 2 ^ 27 <= 2 ^ (- e)) by (apply Z.pow_le_mono_r; lia).
  unfold trunc_float. destruct (0 <=? e) eqn:E0; [apply Z.leb_le in E0; lia|].
  set (P := 2 ^ (- e)) in *.
  pose proof (Z.sqrt_spec x ltac:(lia)) as Hn. unfold Z.succ in Hn.
  pose proof (Z.sqrt_nonneg x) as Hn0. set (n := Z.sqrt x) in *.
  assert (Hn26 : n < 2 ^ 26).
  { destruct (Z_lt_le_dec n (2 ^ 26)) as [?|Hge]; [lia|].
    assert (2 ^ 26 * 2 ^ 26 <= n * n) by nia.
    change (2 ^ 26 * 2 ^ 26) with (2 ^ 52) in *. lia. }
  assert (HP27 : 2 ^ 27 = 134217728) by reflexivity.
  assert (H26 : 2 ^ 26 = 67108864) by reflexivity.
  assert (HP0 : 0 < P) by lia.
  assert (Hlow : n * P <= m).
  { destruct (Z_lt_le_dec m (n * P)) as [Hlt|?]; [|lia]. exfalso.
    assert (H1 : (m + 1) ^ 2 <= (n * P) ^ 2) by (apply Z.pow_le_mono_l; lia).
    assert (H2 : (n * n) * (P * P) <= x * (P * P))
      by (apply Z.mul_le_mono_nonneg_r; [clear -HP0; nia | lia]).
    replace ((n * P) ^ 2) with ((n * n) * (P * P)) in H1 by ring. lia. }
  assert (Hhigh : m < (n + 1) * P).
  { destruct (Z_lt_le_dec m ((n + 1) * P)) as [?|Hge]; [lia|]. exfalso.
    set (A := (n + 1) * P) in *.
    assert (HA1 : P <= A) by (unfold A; clear -Hn0 HP0; nia).
    assert (H1 : (2 * A - 2) ^ 2 <= (2 * m - d) ^ 2) by (apply Z.pow_le_mono_l; lia).
    assert (H2 : (x + 1) * (P * P) <= ((n + 1) * (n + 1)) * (P * P))
      by (apply Z.mul_le_mono_nonneg_r; [clear -HP0; nia | lia]).
    replace (((n + 1) * (n + 1)) * (P * P)) with (A * A) in H2 by (unfold A; ring).
    assert (HAP : 2 * A <= P * P).
    { assert (2 * (n + 1) <= P) by lia.
      replace (2 * A) with ((2 * (n + 1)) * P) by (unfold A; ring).
      apply Z.mul_le_mono_nonneg_r; lia. }
    replace ((2 * A - 2) ^ 2) with (4 * (A * A) - 8 * A + 4) in H1 by ring.
    lia. }
  rewrite Z.quot_div_nonneg by lia.
  symmetry. apply (Z.div_unique _ _ _ (m - n * P)); lia.
Qed.

Lemma sqrt_float_within_ulp x :
  0 <= x < 2 ^ 52 -> root_within_ulp x (sqrt_float x).
Proof.
  intros [Hx0 Hlt]. unfold sqrt_float, root_within_ulp.
  destruct (x =? 0) eqn:Hz; [reflexivity|]. apply Z.eqb_neq in Hz.
  pose proof (Z.sqrt_spec x ltac:(lia)) as Hk.
  pose proof (Z.sqrt_nonneg x) as Hk0.
  unfold Z.succ in Hk. set (k := Z.sqrt x) in *.
  assert (Hk1 : 1 <= k) by (destruct (Z_lt_le_dec k 1); [clear -Hk Hz Hx0 Hk0 l; nia | lia]).
  assert (Hk26 : k < 2 ^ 26).
  { destruct (Z_lt_le_dec k (2 ^ 26)) as [?|Hge]; [lia|].
    assert (2 ^ 26 * 2 ^ 26 <= k * k) by (apply Z.mul_le_mono_nonneg; lia).
    change (2 ^ 26 * 2 ^ 26) with (2 ^ 52) in *. lia. }
  pose proof (Z.log2_spec k ltac:(lia)) as He.
  pose proof (Z.log2_nonneg k) as He0.
  set (e := Z.log2 k) in *.
  assert (He25 : e <= 25).
  { destruct (Z_lt_le_dec 25 e) as [Hgt|?]; [|lia].
    assert (2 ^ 26 <= 2 ^ e) by (apply Z.pow_le_mono_r; lia). lia. }
  destruct (0 <=? 52 - e) eqn:Hle; [|apply Z.leb_gt in Hle; lia].
  rewrite (four_pow (52 - e)) by lia.
  assert (HS : 2 ^ (52 - e) * 2 ^ e = 2 ^ 52).
  { rewrite <- Z.pow_add_r by lia. f_equal. lia. }
  assert (HS1 : 2 ^ (52 - e) * 2 ^ Z.succ e = 2 ^ 53).
  { rewrite <- Z.pow_add_r by lia. f_equal. lia. }
  assert (HS27 : 2 ^ 27 <= 2 ^ (52 - e)) by (apply Z.pow_le_mono_r; lia).
  set (S := 2 ^ (52 - e)) in *.
  assert (HSpos : 0 < S) by lia.
  assert (HSS : 0 <= S * S) by (clear -HSpos; nia).
  pose proof (Z.sqrtrem_spec (x * (S * S)) ltac:(clear -Hx0 HSS; nia)) as Hrem.
  destruct (Z.sqrtrem (x * (S * S))) as [m r]. destruct Hrem as [Hmr Hr].
  assert (Hm0 : 0 <= m) by lia.
  assert (Hlow : k * S <= m).
  { destruct (Z_lt_le_dec m (k * S)) as [Hl|?]; [|lia]. exfalso.
    assert (H1 : (m + 1) * (m + 1) <= (k * S) * (k * S))
      by (apply Z.mul_le_mono_nonneg; lia).
    assert (H2 : (k * k) * (S * S) <= x * (S * S))
      by (apply Z.mul_le_mono_nonneg_r; lia).
    replace ((k * S) * (k * S)) with ((k * k) * (S * S)) in H1 by ring. lia. }
  assert (Hhigh : m < (k + 1) * S).
  { destruct (Z_lt_le_dec m ((k + 1) * S)) as [?|Hge]; [lia|]. exfalso.
    assert (H1 : ((k + 1) * S) * ((k + 1) * S) <= m * m)
      by (apply Z.mul_le_mono_nonneg; clear -Hk0 HSpos Hge; nia).
    assert (H2 : (x + 1) * (S * S) <= ((k + 1) * (k + 1)) * (S * S))
      by (apply Z.mul_le_mono_nonneg_r; lia).
    replace (((k + 1) * S) * ((k + 1) * S)) with (((k + 1) * (k + 1)) * (S * S)) in H1 by ring.
    lia. }
  assert (H52 : 2 ^ 52 <= m).
  { rewrite <- HS. rewrite (Z.mul_comm S). 
    apply Z.le_trans with (k * S); [apply Z.mul_le_mono_nonneg_r; lia | exact Hlow]. }
  assert (Hk53 : (k + 1) * S <= 2 ^ 53).
  { rewrite <- HS1. rewrite (Z.mul_comm S). apply Z.mul_le_mono_nonneg_r; lia. }
  rewrite (Z.max_r 0 (- - (52 - e))), (Z.max_l 0 (- (52 - e))) by lia.
  rewrite Z.opp_involutive, (four_pow (52 - e)), Z.pow_0_r, !Z.mul_1_r by lia.
  fold S.
  assert (H52v : 2 ^ 52 = 4503599627370496) by reflexivity.
  assert (H53v : 2 ^ 53 = 9007199254740992) by reflexivity.
  destruct (m <? r) eqn:Hup; [apply Z.ltb_lt in Hup | apply Z.ltb_ge in Hup].
  - assert (Hm1 : m + 1 < (k + 1) * S).
    { destruct (Z_lt_le_dec (m + 1) ((k + 1) * S)) as [?|Hge]; [lia|]. exfalso.
      assert (Heq : m + 1 = (k + 1) * S) by lia.
      assert (H2 : (x + 1) * (S * S) <= ((k + 1) * (k + 1)) * (S * S))
        by (apply Z.mul_le_mono_nonneg_r; lia).
      replace (((k + 1) * (k + 1)) * (S * S)) with ((m + 1) * (m + 1)) in H2
        by (rewrite Heq; ring).
      assert (H3 : S * S < (k + 1) * S) by lia.
      assert (H4 : (k + 1) * S <= S * S)
        by (rewrite (Z.mul_comm (k + 1)); apply Z.mul_le_mono_nonneg_l; lia).
      lia. }
    destruct (m + 1 =? 2 ^ 52) eqn:E; [apply Z.eqb_eq in E; lia|].
    split; [lia|]. split.
    + replace ((m + 1 + 1) ^ 2) with (m * m + 4 * m + 4) by ring. lia.
    + replace ((2 * (m + 1) - 2) ^ 2) with (4 * (m * m)) by ring. lia.
  - destruct (m =? 2 ^ 52) eqn:E; [apply Z.eqb_eq in E | apply Z.eqb_neq in E];
      (split; [lia|]); split.
    + replace ((m + 1) ^ 2) with (m * m + 2 * m + 1) by ring. lia.
    + replace ((2 * m - 1) ^ 2) with (4 * (m * m) - 4 * m + 1) by ring. lia.
    + replace ((m + 1) ^ 2) with (m * m + 2 * m + 1) by ring. lia.
    + replace ((2 * m - 2) ^ 2) with (4 * (m * m) - 8 * m + 4) by ring. lia.
Qed.

(** Below [2^52] an accurate power, cut off, is the integer square root. *)
Lemma int_pow_half_exact x :
  pow_accurate -> 0 <= x < 2 ^ 52 -> int_pow_half x = Returned (Z.sqrt x).
Proof.
  intros Hacc Hx. unfold int_pow_half.
  destruct (x <? 0) eqn:Hneg; [lia|].
  unfold float_of_int.
  destruct (x <? 2 ^ 53) eqn:H53.
  - by rewrite (root_within_ulp_trunc x (pow_half x) Hx (Hacc x Hx)).
  - apply Z.ltb_ge in H53. assert (2 ^ 52 < 2 ^ 53) by reflexivity. lia.
Qed.

(** ** The [users] table *)

Lemma ensure_user_lookup u (s : users) :
  ensure_user u s !! u = Some (default fresh_row (s !! u)).
Proof.
  unfold ensure_user. destruct (s !! u) eqn:E; simpl.
  - exact E.
  - apply lookup_insert_eq.
Qed.

Lemma ensure_user_lookup_ne u v (s : users) :
  u <> v -> ensure_user u s !! v = s !! v.
Proof.
  intros Hne. unfold ensure_user. destruct (s !! u); [reflexivity|].
  by apply lookup_insert_ne.
Qed.

(** What [add_xp] does to the row of its user, case by case. *)
Lemma add_xp_unfold u amount (s : users) :
  let row0 := default fresh_row (s !! u) in
  let row1 := set_xp (fun x => x + amount) row0 in
  let s2 := <[u := row1]> s in
  add_xp u amount s =
    match int_pow_half (xp row0 + amount) with
    | Raised e => (s2, Raised e)
    | Returned new_level =>
        if level row0 <? new_level
        then (<[u := set_level new_level row1]> s, Returned (Some new_level))
        else (s2, Returned None)
    end.
Proof.
  intros row0 row1 s2. unfold add_xp.
  assert (Hs2 : alter (set_xp (fun x => x + amount)) u (ensure_user u s) = s2).
  { apply map_eq. intros v. destruct (decide (u = v)) as [<-|Hne].
    - rewrite lookup_alter_eq, ensure_user_lookup. subst s2.
      by rewrite lookup_insert_eq.
    - rewrite lookup_alter_ne, ensure_user_lookup_ne by done. subst s2.
      by rewrite lookup_insert_ne. }
  rewrite Hs2. subst s2. rewrite lookup_insert_eq. simpl.
  destruct (int_pow_half (xp row0 + amount)); [|reflexivity].
  destruct (level row0 <? a); [|reflexivity].
  f_equal. apply map_eq. intros v. destruct (decide (u = v)) as [<-|Hne].
  - by rewrite lookup_alter_eq, !lookup_insert_eq.
  - by rewrite lookup_alter_ne, !lookup_insert_ne.
Qed.

Lemma add_xp_other u v amount (s : users) :
  u <> v -> fst (add_xp u amount s) !! v = s !! v.
Proof.
  intros Hne. rewrite add_xp_unfold.
  destruct (int_pow_half _); [destruct (_ <? _)|]; simpl;
    by rewrite lookup_insert_ne.
Qed.

(** The stored level never goes down in a call of [add_xp], whatever the
    store and the amount. *)
Lemma add_xp_level_mono u v amount (s : users) :
  level_of v s <= level_of v (fst (add_xp u amount s)).
Proof.
  unfold level_of. destruct (decide (u = v)) as [<-|Hne].
  - rewrite add_xp_unfold.
    destruct (s !! u) as [row|] eqn:E; simpl;
      (destruct (int_pow_half _) as [l|]; [destruct (_ <? l) eqn:Hl|]); simpl;
      rewrite lookup_insert_eq; simpl; try lia;
      apply Z.ltb_lt in Hl; simpl in Hl; lia.
  - rewrite add_xp_other by done. lia.
Qed.

Lemma add_xp_calls_level_mono calls v (s : users) :
  level_of v s <= level_of v (add_xp_calls calls s).
Proof.
  revert s. induction calls as [|[u a] calls IH]; intros s; simpl.
  - unfold add_xp_calls. simpl. lia.
  - unfold add_xp_calls in *. simpl.
    etransitivity; [apply (add_xp_level_mono u v a)|apply IH].
Qed.

Lemma level_tracks_xp_insert u row (s : users) :
  level_tracks_xp s ->
  0 <= xp row -> (xp row < 2 ^ 52 -> level row = Z.sqrt (xp row)) ->
  level_tracks_xp (<[u := row]> s).
Proof.
  intros Hs H0 Hl v r. destruct (decide (u = v)) as [<-|Hne].
  - rewrite lookup_insert_eq. intros [= <-]. auto.
  - rewrite lookup_insert_ne by done. apply Hs.
Qed.

Lemma level_tracks_xp_default u (s : users) :
  level_tracks_xp s ->
  let row := default fresh_row (s !! u) in
  0 <= xp row /\ (xp row < 2 ^ 52 -> level row = Z.sqrt (xp row)).
Proof.
  intros Hs. destruct (s !! u) as [row|] eqn:E; simpl.
  - by apply (Hs u).
  - split; [lia|reflexivity].
Qed.

Lemma add_xp_keeps_invariant u amount (s : users) :
  pow_accurate -> level_tracks_xp s -> 0 <= amount ->
  level_tracks_xp (fst (add_xp u amount s)).
Proof.
  intros Hacc Hs Ha. destruct (level_tracks_xp_default u s Hs) as [H0 Hl].
  rewrite add_xp_unfold.
  set (row0 := default fresh_row (s !! u)) in *.
  destruct (Z_lt_le_dec (xp row0 + amount) (2 ^ 52)) as [Hin|Hout].
  - rewrite (int_pow_half_exact _ Hacc) by lia.
    assert (Hmono : Z.sqrt (xp row0) <= Z.sqrt (xp row0 + amount))
      by (apply Z.sqrt_le_mono; lia).
    destruct (level row0 <? _) eqn:Hlt; simpl;
      apply level_tracks_xp_insert; simpl; try done; try lia.
  - destruct (int_pow_half _) as [l|]; [destruct (_ <? l)|]; simpl;
      apply level_tracks_xp_insert; simpl; try done; lia.
Qed.

Lemma ensure_user_keeps_invariant u (s : users) :
  level_tracks_xp s -> level_tracks_xp (ensure_user u s).
Proof.
  intros Hs. unfold ensure_user. destruct (s !! u); [done|].
  by apply level_tracks_xp_insert.
Qed.

Lemma alter_keeps_invariant f u (s : users) :
  (forall r, xp (f r) = xp r /\ level (f r) = level r) ->
  level_tracks_xp s -> level_tracks_xp (alter f u s).
Proof.
  intros Hf Hs v r. destruct (decide (u = v)) as [<-|Hne].
  - rewrite lookup_alter_eq. destruct (s !! u) as [r0|] eqn:E; [|done].
    simpl. intros [= <-]. destruct (Hf r0) as [-> ->]. by apply (Hs u).
  - rewrite lookup_alter_ne by done. apply Hs.
Qed.

Lemma change_coins_fst u delta (s : users) :
  fst (change_coins u delta s)
  = alter (set_coins (fun c => c + delta)) u (ensure_user u s).
Proof. unfold change_coins. by destruct (_ !! u). Qed.

(** Every store the program builds satisfies the invariant. *)
Lemma reachable_level_tracks_xp (s : users) :
  pow_accurate -> reachable_users s -> level_tracks_xp s.
Proof.
  intros Hacc. induction 1.
  - intros u row. by rewrite lookup_empty.
  - by apply ensure_user_keeps_invariant.
  - by apply add_xp_keeps_invariant.
  - rewrite change_coins_fst. apply alter_keeps_invariant; [done|].
    by apply ensure_user_keeps_invariant.
  - by apply alter_keeps_invariant.
Qed.

(** What a call of [add_xp] returns and what it does to the level,
    whatever the power is. *)
Lemma add_xp_return u amount (s : users) :
  let s' := fst (add_xp u amount s) in
  level_of u s <= level_of u s'
  /\ forall ret, snd (add_xp u amount s) = Returned ret ->
       (forall l, ret = Some l <-> l = level_of u s' /\ level_of u s < level_of u s')
       /\ (ret = None <-> level_of u s' = level_of u s).
Proof.
  cbv zeta. split; [apply add_xp_level_mono|].
  rewrite add_xp_unfold.
  assert (Hlv : level_of u s = level (default fresh_row (s !! u)))
    by (unfold level_of; by destruct (s !! u)).
  rewrite Hlv. set (row0 := default fresh_row (s !! u)).
  destruct (int_pow_half (xp row0 + amount)) as [nl|e]; [|by intros ret].
  destruct (level row0 <? nl) eqn:Hlt;
    [apply Z.ltb_lt in Hlt | apply Z.ltb_ge in Hlt];
    cbn [fst snd]; unfold level_of; rewrite lookup_insert_eq; cbn [level set_level set_xp];
    intros ret [= <-]; split.
  - intros l. split; [intros [= <-]; lia | intros [-> _]; reflexivity].
  - split; [discriminate | lia].
  - intros l. split; [discriminate | lia].
  - split; reflexivity.
Qed.

(** C2, as the code has it.  The level is [int(xp ** 0.5)], taken in
    binary64 by the C library's [pow].  Where that power is accurate to
    less than one unit in the last place, and for every account with a
    64-bit id in a store the program can build and every increment
    [0 <= amount] that leaves the xp below [2^52]: [add_xp] returns, the
    stored xp has grown by [amount] and the stored level is the integer
    square root of the stored xp.
    Whatever the power returns, on any store and for any amount: the level
    of the account does not go down, a call that returns gives the new level
    exactly when the level went up and [None] exactly when it stayed, and
    across any sequence of [add_xp] calls the level of no account goes
    down. *)
Theorem add_xp_level_is_floor_sqrt (s : users) (u amount : Z) :
  let s' := fst (add_xp u amount s) in
  (pow_accurate -> sqlite_integer u = true -> reachable_users s ->
   0 <= amount -> xp_of u s + amount < 2 ^ 52 ->
     (exists ret, snd (add_xp u amount s) = Returned ret)
     /\ xp_of u s' = xp_of u s + amount
     /\ level_of u s' = Z.sqrt (xp_of u s')
     /\ level_of u s' * level_of u s' <= xp_of u s'
        < (level_of u s' + 1) * (level_of u s' + 1))
  /\ level_of u s <= level_of u s'
  /\ (forall ret, snd (add_xp u amount s) = Returned ret ->
        (forall l, ret = Some l <-> l = level_of u s' /\ level_of u s < level_of u s')
        /\ (ret = None <-> level_of u s' = level_of u s))
  /\ (forall calls v (s0 : users),
        level_of v s0 <= level_of v (add_xp_calls calls s0)).
Proof.
  cbv zeta. split; [|split; [|split]];
    [|apply add_xp_return|apply add_xp_return|intros; apply add_xp_calls_level_mono].
  intros Hacc _ Hreach Ha Hrange.
  pose proof (reachable_level_tracks_xp s Hacc Hreach) as Hinv.
  destruct (level_tracks_xp_default u s Hinv) as [H0 Hl].
  assert (Hxp : xp_of u s = xp (default fresh_row (s !! u)))
    by (unfold xp_of; by destruct (s !! u)).
  rewrite add_xp_unfold. rewrite Hxp in *.
  set (row0 := default fresh_row (s !! u)) in *.
  rewrite (int_pow_half_exact _ Hacc) by lia.
  specialize (Hl ltac:(lia)).
  assert (Hmono : Z.sqrt (xp row0) <= Z.sqrt (xp row0 + amount))
    by (apply Z.sqrt_le_mono; lia).
  pose proof (Z.sqrt_spec (xp row0 + amount) ltac:(lia)) as Hspec.
  unfold Z.succ in Hspec.
  destruct (level row0 <? Z.sqrt (xp row0 + amount)) eqn:Hlt;
    [apply Z.ltb_lt in Hlt | apply Z.ltb_ge in Hlt];
    cbn [fst snd]; unfold xp_of, level_of; rewrite lookup_insert_eq;
    cbn [xp level set_level set_xp].
  - split; [eauto|]. split; [lia|]. split; [reflexivity|]. lia.
  - assert (Heq : level row0 = Z.sqrt (xp row0 + amount)) by lia.
    split; [eauto|]. split; [lia|]. split; [lia|]. rewrite Heq. lia.
Qed.

(** ** Economy *)

Lemma change_coins_unfold u delta (s : users) :
  let row0 := default fresh_row (s !! u) in
  change_coins u delta s
  = (<[u := set_coins (fun c => c + delta) row0]> s, Returned (coins row0 + delta)).
Proof.
  intros row0. unfold change_coins.
  assert (Hs2 : alter (set_coins (fun c => c + delta)) u (ensure_user u s)
                = <[u := set_coins (fun c => c + delta) row0]> s).
  { apply map_eq. intros v. destruct (decide (u = v)) as [<-|Hne].
    - by rewrite lookup_alter_eq, ensure_user_lookup, lookup_insert_eq.
    - by rewrite lookup_alter_ne, ensure_user_lookup_ne, lookup_insert_ne. }
  rewrite Hs2, lookup_insert_eq. reflexivity.
Qed.

Lemma balance_default u (s : users) :
  balance u s = coins (default fresh_row (s !! u)).
Proof. unfold balance, get_user. by destruct (s !! u). Qed.

Lemma last_daily_default u (s : users) :
  last_daily_of u s = last_daily (default fresh_row (s !! u)).
Proof. unfold last_daily_of. by destruct (s !! u). Qed.

Lemma balance_insert u v row (s : users) :
  balance v (<[u := row]> s) = if decide (u = v) then coins row else balance v s.
Proof.
  unfold balance, get_user. rewrite lookup_insert. by destruct (decide (u = v)).
Qed.

Lemma last_daily_insert u v row (s : users) :
  last_daily_of v (<[u := row]> s)
  = if decide (u = v) then last_daily row else last_daily_of v s.
Proof.
  unfold last_daily_of. rewrite lookup_insert. by destruct (decide (u = v)).
Qed.

Lemma or_zero_id x : or_zero x = x.
Proof. unfold or_zero. destruct (x =? 0) eqn:E; [|done]. apply Z.eqb_eq in E. lia. Qed.

Lemma randint_range lo hi raw : lo <= hi -> lo <= randint lo hi raw <= hi.
Proof.
  intros H. unfold randint.
  pose proof (Z.mod_pos_bound raw (hi - lo + 1) ltac:(lia)). lia.
Qed.

(** C3.  For distinct sender and recipient: when [amount <= 0] or the
    sender's balance is below [amount] the store, hence every balance, is
    unchanged; otherwise the command succeeds, the sender's balance drops
    by [amount], the recipient's grows by [amount], their total and every
    other balance are unchanged. *)
Theorem give_moves_exactly_amount (s : users) (author member amount : Z) :
  author <> member ->
  let s' := fst (cmd_give author member amount s) in
  (amount <= 0 \/ balance author s < amount ->
     s' = s /\ forall u, balance u s' = balance u s)
  /\ (~ (amount <= 0 \/ balance author s < amount) ->
        snd (cmd_give author member amount s) = Returned Gave
        /\ balance author s' = balance author s - amount
        /\ balance member s' = balance member s + amount
        /\ balance author s' + balance member s' = balance author s + balance member s
        /\ forall u, u <> author -> u <> member -> balance u s' = balance u s).
Proof.
  intros Hne. unfold cmd_give.
  pose proof (balance_default author s) as Hba.
  pose proof (balance_default member s) as Hbm.
  destruct (amount <=? 0) eqn:Hpos; [apply Z.leb_le in Hpos | apply Z.leb_gt in Hpos].
  { simpl. split; [done | lia]. }
  unfold get_user.
  destruct (s !! author) as [row|] eqn:Hrow; simpl in Hba.
  2:{ simpl. split; [done | lia]. }
  destruct (coins row <? amount) eqn:Hlt; [apply Z.ltb_lt in Hlt | apply Z.ltb_ge in Hlt].
  { simpl. split; [done | lia]. }
  rewrite change_coins_unfold. cbv zeta. rewrite change_coins_unfold. cbv zeta.
  rewrite Hrow, lookup_insert_ne by done. cbn [fst snd].
  set (rowm := default fresh_row (s !! member)) in *. simpl.
  split; [lia|]. intros _. split; [reflexivity|].
  rewrite !balance_insert.
  destruct (decide (member = author)) as [?|_]; [congruence|].
  destruct (decide (member = member)) as [_|?]; [|congruence].
  destruct (decide (author = author)) as [_|?]; [|congruence].
  cbn [coins set_coins].
  split; [lia|]. split; [lia|]. split; [lia|].
  intros u Hu1 Hu2. rewrite !balance_insert.
  destruct (decide (member = u)); [congruence|].
  destruct (decide (author = u)); [congruence|]. reflexivity.
Qed.

Lemma give_moves_exactly_amount_witness :
  let s := fst (change_coins 1 100 ∅) in
  let s' := fst (cmd_give 1 2 30 s) in
  (30 <= 0 \/ balance 1 s < 30 ->
     s' = s /\ forall u, balance u s' = balance u s)
  /\ (~ (30 <= 0 \/ balance 1 s < 30) ->
        snd (cmd_give 1 2 30 s) = Returned Gave
        /\ balance 1 s' = balance 1 s - 30
        /\ balance 2 s' = balance 2 s + 30
        /\ balance 1 s' + balance 2 s' = balance 1 s + balance 2 s
        /\ forall u, u <> 1 -> u <> 2 -> balance u s' = balance u s).
Proof.
  apply (give_moves_exactly_amount (fst (change_coins 1 100 ∅)) 1 2 30). lia.
Defined.

(** C5.  A claim less than 86400 seconds after the last one is rejected and
    leaves every balance and every [last_daily] as it was; otherwise the
    claim is accepted, the reward lies in [50 .. 150], it is added to the
    claimer's coins, [last_daily] becomes the time of the claim, and no
    other account changes. *)
Theorem daily_rejects_or_grants (s : users) (author now raw : Z) :
  let s' := fst (cmd_daily author now raw s) in
  let r := snd (cmd_daily author now raw s) in
  (now - last_daily_of author s < 86400 ->
     r = Returned AlreadyClaimed
     /\ forall u, balance u s' = balance u s
                  /\ last_daily_of u s' = last_daily_of u s)
  /\ (~ now - last_daily_of author s < 86400 ->
        exists reward,
          r = Returned (Claimed reward)
          /\ 50 <= reward <= 150
          /\ balance author s' = balance author s + reward
          /\ last_daily_of author s' = now
          /\ forall u, u <> author ->
               balance u s' = balance u s
               /\ last_daily_of u s' = last_daily_of u s).
Proof.
  unfold cmd_daily, get_user. rewrite ensure_user_lookup.
  pose proof (balance_default author s) as Hb.
  pose proof (last_daily_default author s) as Hl.
  set (row := default fresh_row (s !! author)) in *.
  rewrite or_zero_id, <- Hl. change (24 * 3600) with 86400.
  assert (Hens : forall u, balance u (ensure_user author s) = balance u s
                           /\ last_daily_of u (ensure_user author s) = last_daily_of u s).
  { intros u. unfold ensure_user. destruct (s !! author) eqn:E; [done|].
    rewrite balance_insert, last_daily_insert.
    destruct (decide (author = u)) as [<-|]; [|done].
    unfold balance, last_daily_of, get_user. by rewrite E. }
  destruct (now - last_daily_of author s <? 86400) eqn:Hlt;
    [apply Z.ltb_lt in Hlt | apply Z.ltb_ge in Hlt]; cbv zeta.
  { cbn [fst snd]. split; [auto | lia]. }
  rewrite change_coins_unfold. cbv beta iota zeta. cbn [fst snd].
  rewrite ensure_user_lookup. fold row.
  change (default fresh_row (Some row)) with row.
  split; [lia|]. intros _. exists (randint 50 150 raw).
  split; [reflexivity|]. split; [apply randint_range; lia|].
  assert (Halt : alter (set_last_daily now) author
                   (<[author := set_coins (fun c => c + randint 50 150 raw) row]>
                      (ensure_user author s))
                 = <[author := set_last_daily now
                                 (set_coins (fun c => c + randint 50 150 raw) row)]>
                     (ensure_user author s)).
  { apply map_eq. intros v. destruct (decide (author = v)) as [<-|Hne].
    - by rewrite lookup_alter_eq, !lookup_insert_eq.
    - by rewrite lookup_alter_ne, !lookup_insert_ne. }
  rewrite Halt, balance_insert, last_daily_insert.
  destruct (decide (author = author)) as [_|?]; [|congruence].
  cbn [coins last_daily set_last_daily set_coins].
  split; [lia|]. split; [reflexivity|].
  intros u Hu. rewrite balance_insert, last_daily_insert.
  destruct (decide (author = u)); [congruence|]. apply Hens.
Qed.

(** C9.  A sender without a row: once the amount passes the [amount <= 0]
    guard the balance check raises (indexing [None]) instead of answering
    that the coins do not suffice; whatever the amount, that answer is never
    given and the store, hence every balance, is unchanged. *)
Theorem give_without_row_raises (s : users) (author member amount : Z) :
  get_user author s = None ->
  (0 < amount -> cmd_give author member amount s = (s, Raised TypeError))
  /\ snd (cmd_give author member amount s) <> Returned NotEnoughCoins
  /\ fst (cmd_give author member amount s) = s
  /\ forall u, balance u (fst (cmd_give author member amount s)) = balance u s.
Proof.
  intros Hrow. unfold cmd_give. rewrite Hrow.
  destruct (amount <=? 0) eqn:Hpos; [apply Z.leb_le in Hpos | apply Z.leb_gt in Hpos];
    cbn [fst snd]; (split; [intros; first [lia | reflexivity]|]);
    (split; [discriminate|]); split; reflexivity.
Qed.

Lemma give_without_row_raises_witness :
  (0 < 5 -> cmd_give 1 2 5 ∅ = (∅, Raised TypeError))
  /\ snd (cmd_give 1 2 5 ∅) <> Returned NotEnoughCoins
  /\ fst (cmd_give 1 2 5 ∅) = ∅
  /\ forall u, balance u (fst (cmd_give 1 2 5 ∅)) = balance u ∅.
Proof.
  apply (give_without_row_raises ∅ 1 2 5). reflexivity.
Defined.

(** ** Reaction roles *)

(** C10.  A reaction event of the bot's own user on a bound message: the
    add handler returns at once, without looking the binding up; the remove
    handler has no such filter, looks the binding up and, role and member
    resolving, removes the bound role from the bot's member.  The remove
    handler does not depend on the bot's user id at all. *)
Theorem reaction_remove_has_no_self_filter
    (bot : Z) (cache : guild_cache) (table : list reaction_role)
    (payload : reaction_payload) (role : Z) :
  p_user_id payload = bot ->
  select_binding (p_guild_id payload) (p_message_id payload) (p_emoji payload) table
    = Some role ->
  has_guild cache (p_guild_id payload) = true ->
  has_member cache (p_guild_id payload) bot = true ->
  has_role cache (p_guild_id payload) role = true ->
  on_raw_reaction_add bot cache table payload = Returned []
  /\ on_raw_reaction_remove bot cache table payload
     = Returned [SelectBinding (p_guild_id payload) (p_message_id payload) (p_emoji payload);
                 RemoveRoles bot role]
  /\ forall other, on_raw_reaction_remove other cache table payload
                   = on_raw_reaction_remove bot cache table payload.
Proof.
  intros Hbot Hsel Hg Hm Hr. split; [|split].
  - unfold on_raw_reaction_add. rewrite Hbot, Z.eqb_refl. reflexivity.
  - unfold on_raw_reaction_remove, resolve_and_act.
    rewrite Hsel, Hg, Hbot, Hm, Hr. reflexivity.
  - reflexivity.
Qed.

Lemma reaction_remove_has_no_self_filter_witness :
  let cache := mk_cache (fun _ => true) (fun _ _ => true) (fun _ _ => true) in
  let table := [mk_reaction_role 10 20 30 "star" 40] in
  let payload := mk_payload 99 10 30 "star" in
  on_raw_reaction_add 99 cache table payload = Returned []
  /\ on_raw_reaction_remove 99 cache table payload
     = Returned [SelectBinding 10 30 "star"; RemoveRoles 99 40]
  /\ forall other, on_raw_reaction_remove other cache table payload
                   = on_raw_reaction_remove 99 cache table payload.
Proof.
  apply (reaction_remove_has_no_self_filter 99
           (mk_cache (fun _ => true) (fun _ _ => true) (fun _ _ => true))
           [mk_reaction_role 10 20 30 "star" 40]
           (mk_payload 99 10 30 "star") 40); reflexivity.
Defined.

(** ** The reminder worker *)

Lemma filter_filter {A} (f g : A -> bool) (l : list A) :
  List.filter f (List.filter g l) = List.filter (fun x => g x && f x) l.
Proof.
  induction l as [|a l IH]; simpl; [reflexivity|].
  destruct (g a); simpl; [destruct (f a)|]; by rewrite IH.
Qed.

Lemma filter_all {A} (f : A -> bool) (l : list A) :
  (forall x, f x = true) -> List.filter f l = l.
Proof.
  intros Hf. induction l as [|a l IH]; simpl; [reflexivity|].
  by rewrite Hf, IH.
Qed.

(** The loop over the due rows removes from the table the rows whose id is
    that of a due row the body deleted, and logs every due row. *)
Lemma deliver_loop outcome due table log :
  fold_left (deliver_one outcome) due (table, log)
  = (List.filter
       (fun r => negb (existsb (fun d => (rid d =? rid r) && deletes outcome d) due))
       table,
     log ++ map (fun d => (rid d, outcome d)) due).
Proof.
  revert table log.
  induction due as [|d due IH]; intros table log; cbn [fold_left map existsb].
  - rewrite app_nil_r. f_equal. symmetry. by apply filter_all.
  - assert (Hstep : deliver_one outcome (table, log) d
                    = (List.filter (fun r => negb ((rid d =? rid r) && deletes outcome d)) table,
                       log ++ [(rid d, outcome d)])).
    { unfold deliver_one, deletes, delete_reminder.
      destruct (outcome d); f_equal;
        try (apply filter_ext; intros r; rewrite Z.eqb_sym; by rewrite andb_true_r).
      symmetry. apply filter_all. intros r. by rewrite andb_false_r. }
    rewrite Hstep, IH, filter_filter, <- app_assoc. f_equal.
    apply filter_ext. intros r. by rewrite negb_orb.
Qed.

Lemma same_id_same_row (l : list reminder_row) a b :
  List.NoDup (map rid l) -> In a l -> In b l -> rid a = rid b -> a = b.
Proof.
  induction l as [|x l IH]; simpl; [tauto|].
  intros Hnd Ha Hb Hid. apply NoDup_cons_iff in Hnd as [Hx Hnd].
  destruct Ha as [<-|Ha], Hb as [<-|Hb]; auto.
  - exfalso. apply Hx. rewrite Hid. by apply in_map.
  - exfalso. apply Hx. rewrite <- Hid. by apply in_map.
Qed.

(** With unique ids the table after a cycle is the old table without the
    due rows that the body deleted. *)
Lemma worker_cycle_unfold now outcome t :
  List.NoDup (map rid (rows t)) ->
  worker_cycle now outcome t
  = (mk_reminders
       (List.filter (fun r => negb (is_due now r && deletes outcome r)) (rows t))
       (last_id t),
     map (fun d => (rid d, outcome d)) (List.filter (is_due now) (rows t))).
Proof.
  intros Hnd. unfold worker_cycle. fold (is_due now).
  rewrite deliver_loop. simpl. f_equal. f_equal.
  apply filter_ext_in. intros r Hr. f_equal.
  destruct (is_due now r && deletes outcome r) eqn:E.
  - apply andb_prop in E as [E1 E2]. apply existsb_exists. exists r.
    split; [apply filter_In; by split|]. by rewrite Z.eqb_refl, E2.
  - destruct (existsb _ _) eqn:Ex; [|reflexivity].
    apply existsb_exists in Ex as (d & Hd & Hd2).
    apply filter_In in Hd as [Hd Hdue]. apply andb_prop in Hd2 as [Hid Hdel].
    apply Z.eqb_eq in Hid.
    assert (d = r) by (eapply same_id_same_row; eauto). subst d.
    by rewrite Hdue, Hdel in E.
Qed.

Lemma in_map_filter {A B} (f : A -> B) (g : A -> bool) (l : list A) y :
  In y (map f (List.filter g l)) -> In y (map f l).
Proof.
  rewrite !in_map_iff. intros (x & Hx & Hin).
  apply filter_In in Hin as [Hin _]. eauto.
Qed.

Lemma NoDup_map_filter {A B} (f : A -> B) (g : A -> bool) (l : list A) :
  List.NoDup (map f l) -> List.NoDup (map f (List.filter g l)).
Proof.
  induction l as [|a l IH]; simpl; [done|].
  intros Hnd. apply NoDup_cons_iff in Hnd as [Ha Hnd].
  destruct (g a); simpl; [|by apply IH].
  apply NoDup_cons_iff. split; [|by apply IH].
  intros Hin. apply Ha. by apply in_map_filter in Hin.
Qed.

Lemma NoDup_snoc {A} (l : list A) (x : A) :
  List.NoDup l -> ~ In x l -> List.NoDup (l ++ [x]).
Proof.
  induction l as [|a l IH]; simpl; intros Hnd Hx.
  - constructor; [simpl; tauto | constructor].
  - apply NoDup_cons_iff in Hnd as [Ha Hnd]. apply NoDup_cons_iff. split.
    + rewrite in_app_iff. simpl. intros [?|[->|[]]]; tauto.
    + apply IH; tauto.
Qed.

Lemma well_keyed_empty : well_keyed empty_reminders.
Proof. split; simpl; constructor. Qed.

Lemma insert_reminder_well_keyed user guild channel at_ text clock_ t :
  well_keyed t ->
  well_keyed (insert_reminder user guild channel at_ text clock_ t).
Proof.
  intros [Hnd Hle]. unfold insert_reminder. split; simpl.
  - rewrite map_app. simpl. apply NoDup_snoc; [done|].
    intros (r & Hr & Hin)%in_map_iff.
    rewrite List.Forall_forall in Hle. specialize (Hle r Hin). simpl in Hr. lia.
  - apply Forall_app. split.
    + eapply List.Forall_impl; [|exact Hle]. simpl. intros. lia.
    + repeat constructor. simpl. lia.
Qed.

Lemma worker_cycle_well_keyed now outcome t :
  well_keyed t -> well_keyed (fst (worker_cycle now outcome t)).
Proof.
  intros [Hnd Hle]. rewrite worker_cycle_unfold by done. split; simpl.
  - by apply NoDup_map_filter.
  - rewrite List.Forall_forall in *. intros r Hr.
    apply filter_In in Hr as [Hr _]. auto.
Qed.

Lemma worker_cycle_log_ids now outcome t id d :
  In (id, d) (snd (worker_cycle now outcome t)) ->
  exists r, In r (rows t) /\ rid r = id.
Proof.
  unfold worker_cycle. rewrite deliver_loop. cbn [snd app].
  intros (r & [= <- _] & [Hr _]%filter_In)%in_map_iff. eauto.
Qed.

Lemma worker_cycle_rows_sub now outcome t r :
  In r (rows (fst (worker_cycle now outcome t))) -> In r (rows t).
Proof.
  unfold worker_cycle. rewrite deliver_loop. cbn [fst rows].
  by intros [Hr _]%filter_In.
Qed.

Lemma worker_cycle_last_id now outcome t :
  last_id (fst (worker_cycle now outcome t)) = last_id t.
Proof. unfold worker_cycle. by rewrite deliver_loop. Qed.

(** An id that the counter has passed and that is not in the table never
    comes back. *)
Lemma evolves_no_reuse t t2 id :
  evolves t t2 -> id <= last_id t ->
  (forall r, In r (rows t) -> rid r <> id) ->
  last_id t <= last_id t2 /\ forall r, In r (rows t2) -> rid r <> id.
Proof.
  intros Hev Hid Hnone. induction Hev as [|t2 now outcome _ [IHl IHr]|t2 ? ? ? ? ? ? _ [IHl IHr]].
  - split; [lia | done].
  - rewrite worker_cycle_last_id. split; [done|].
    intros r Hr%worker_cycle_rows_sub. by apply IHr.
  - simpl. split; [lia|]. intros r [Hr|[<-|[]]]%in_app_or; [by apply IHr|].
    simpl. lia.
Qed.

(** C1, as the code has it.  In a cycle at time [now] over a table with
    unique ids every due row is attempted; it is deleted when its channel
    no longer resolves or its send returned, and kept when its send raised.
    A kept row is attempted again by the next cycle, whenever that runs; a
    deleted row is attempted by no later cycle, whatever is scheduled in
    between; rows that are not due stay, and a cycle adds no row. *)
Theorem worker_deletes_unless_send_raises
    (now : Z) (outcome : reminder_row -> delivery) (t : reminders_table) :
  well_keyed t ->
  let t' := fst (worker_cycle now outcome t) in
  let log := snd (worker_cycle now outcome t) in
  well_keyed t'
  /\ (forall r, In r (rows t) -> remind_at r <= now ->
        In (rid r, outcome r) log
        /\ (outcome r <> SendRaises -> ~ In r (rows t'))
        /\ (outcome r = SendRaises -> In r (rows t')))
  /\ (forall r, In r (rows t) -> now < remind_at r -> In r (rows t'))
  /\ (forall r, In r (rows t') -> In r (rows t))
  /\ (forall now' outcome' r,
        In r (rows t) -> remind_at r <= now -> outcome r = SendRaises ->
        now <= now' ->
        In (rid r, outcome' r) (snd (worker_cycle now' outcome' t')))
  /\ (forall t2 now' outcome' r d,
        In r (rows t) -> remind_at r <= now -> outcome r <> SendRaises ->
        evolves t' t2 ->
        ~ In (rid r, d) (snd (worker_cycle now' outcome' t2))).
Proof.
  intros Hwk. pose proof (worker_cycle_well_keyed now outcome t Hwk) as Hwk'.
  destruct Hwk as [Hnd Hle]. destruct Hwk' as [Hnd' Hle'].
  cbv zeta. split; [by split|].
  rewrite worker_cycle_unfold in Hnd', Hle' |- * by done.
  cbn [fst snd rows] in Hnd', Hle' |- *.
  assert (Hkeep : forall r, In r (rows t) -> remind_at r <= now ->
            outcome r = SendRaises ->
            In r (List.filter (fun r0 => negb (is_due now r0 && deletes outcome r0)) (rows t))).
  { intros r Hr Hdue Hout. apply filter_In. split; [done|].
    unfold deletes. rewrite Hout. by rewrite andb_false_r. }
  assert (Hgone : forall r, remind_at r <= now -> outcome r <> SendRaises ->
            ~ In r (List.filter (fun r0 => negb (is_due now r0 && deletes outcome r0)) (rows t))).
  { intros r Hdue Hout [_ Hin]%filter_In.
    unfold is_due, deletes in Hin. apply Z.leb_le in Hdue. rewrite Hdue in Hin.
    destruct (outcome r); simpl in Hin; congruence. }
  split; [|split; [|split; [|split]]].
  - intros r Hr Hdue. split; [|split].
    + apply in_map_iff. exists r. split; [done|]. apply filter_In.
      split; [done|]. by apply Z.leb_le.
    + by apply Hgone.
    + by apply Hkeep.
  - intros r Hr Hlater. apply filter_In. split; [done|].
    unfold is_due. apply Z.leb_gt in Hlater. by rewrite Hlater.
  - intros r [Hr _]%filter_In. done.
  - intros now' outcome' r Hr Hdue Hout Hle2.
    rewrite worker_cycle_unfold by done. cbn [snd rows].
    apply in_map_iff. exists r. split; [done|]. apply filter_In.
    split; [by apply Hkeep|]. unfold is_due. apply Z.leb_le. lia.
  - intros t2 now' outcome' r d Hr Hdue Hout Hev (x & Hx & Hid)%worker_cycle_log_ids.
    rewrite List.Forall_forall in Hle.
    destruct (evolves_no_reuse _ t2 (rid r) Hev) as [_ Hnone].
    + simpl. by apply Hle.
    + simpl. intros y Hy Hyid.
      assert (Hyr : In y (rows t)) by (apply filter_In in Hy; exact (proj1 Hy)).
      assert (y = r) by (apply (same_id_same_row (rows t)); assumption). subst y.
      by apply (Hgone r).
    + by apply (Hnone x).
Qed.

Lemma worker_deletes_unless_send_raises_witness :
  let t := insert_reminder 5 None 8 100 "tea" 40 empty_reminders in
  let outcome := fun _ : reminder_row => SendOk in
  let t' := fst (worker_cycle 100 outcome t) in
  let log := snd (worker_cycle 100 outcome t) in
  well_keyed t'
  /\ (forall r, In r (rows t) -> remind_at r <= 100 ->
        In (rid r, outcome r) log
        /\ (outcome r <> SendRaises -> ~ In r (rows t'))
        /\ (outcome r = SendRaises -> In r (rows t')))
  /\ (forall r, In r (rows t) -> 100 < remind_at r -> In r (rows t'))
  /\ (forall r, In r (rows t') -> In r (rows t))
  /\ (forall now' outcome' r,
        In r (rows t) -> remind_at r <= 100 -> outcome r = SendRaises ->
        100 <= now' ->
        In (rid r, outcome' r) (snd (worker_cycle now' outcome' t')))
  /\ (forall t2 now' outcome' r d,
        In r (rows t) -> remind_at r <= 100 -> outcome r <> SendRaises ->
        evolves t' t2 ->
        ~ In (rid r, d) (snd (worker_cycle now' outcome' t2))).
Proof.
  apply (worker_deletes_unless_send_raises 100 (fun _ => SendOk)
           (insert_reminder 5 None 8 100 "tea" 40 empty_reminders)).
  apply insert_reminder_well_keyed, well_keyed_empty.
Defined.

(** C1, as the specification has it, fails: a due reminder whose send raises
    is still in the table after the cycle, and the next cycle delivers it. *)
Lemma worker_keeps_reminder_when_send_raises :
  let t := insert_reminder 5 None 8 100 "tea" 40 empty_reminders in
  let t1 := fst (worker_cycle 100 (fun _ => SendRaises) t) in
  well_keyed t
  /\ snd (worker_cycle 100 (fun _ => SendRaises) t) = [(1, SendRaises)]
  /\ rows t1 = [mk_reminder 1 5 None 8 100 "tea" 40]
  /\ snd (worker_cycle 110 (fun _ => SendOk) t1) = [(1, SendOk)]
  /\ rows (fst (worker_cycle 110 (fun _ => SendOk) t1)) = [].
Proof.
  split; [apply insert_reminder_well_keyed, well_keyed_empty|].
  repeat split; reflexivity.
Qed.

(** ** Text and the time format *)

Lemma digit_not_space c : is_digit c = true -> is_int_space c = false.
Proof. destruct c as [[] [] [] [] [] [] [] []]; vm_compute; congruence. Qed.

Lemma lstrip_no_blank blank s : no_blank blank s = true -> lstrip_by blank s = s.
Proof.
  destruct s as [|c r]; simpl; [done|].
  intros [Hc _]%andb_prop. apply negb_true_iff in Hc. by rewrite Hc.
Qed.

Lemma rstrip_no_blank blank s : no_blank blank s = true -> rstrip_by blank s = s.
Proof.
  induction s as [|c r IH]; simpl; [done|].
  intros [Hc Hr]%andb_prop. apply negb_true_iff in Hc.
  rewrite IH, Hc by done. by destruct r.
Qed.

Lemma strip_no_blank blank s : no_blank blank s = true -> strip_by blank s = s.
Proof.
  intros H. unfold strip_by. by rewrite lstrip_no_blank, rstrip_no_blank.
Qed.

Lemma all_digits_no_blank s : all_digits s = true -> no_blank is_int_space s = true.
Proof.
  induction s as [|c r IH]; simpl; [done|].
  intros [Hc Hr]%andb_prop. by rewrite (digit_not_space c Hc), IH.
Qed.

Lemma digits_value_all_digits s acc prev :
  all_digits s = true -> (s = EmptyString -> prev = true) ->
  digits_value acc prev s = Some (decimal_value acc s).
Proof.
  revert acc prev. induction s as [|c r IH]; simpl; intros acc prev Hd Hp.
  - by rewrite Hp.
  - apply andb_prop in Hd as [Hc Hr]. rewrite Hc. by apply IH.
Qed.

Lemma digit_not_sign c :
  is_digit c = true -> Ascii.eqb c "+" = false /\ Ascii.eqb c "-" = false.
Proof. destruct c as [[] [] [] [] [] [] [] []]; vm_compute; intros; split; congruence. Qed.

Lemma digit_count_nonneg s : 0 <= digit_count s.
Proof. induction s as [|c r IH]; cbn [digit_count]; [lia|]. destruct (is_digit c); lia. Qed.

Lemma digit_count_app (a b : string) :
  digit_count (a ++ b)%string = digit_count a + digit_count b.
Proof.
  induction a as [|c a IH]; [reflexivity|].
  change (String c a ++ b)%string with (String c (a ++ b)%string).
  cbn [digit_count]. rewrite IH. lia.
Qed.

Lemma blank_digit_count b : all_blank is_int_space b = true -> digit_count b = 0.
Proof.
  induction b as [|c b IH]; [done|]. cbn [all_blank digit_count].
  intros [Hc Hb]%andb_prop. rewrite (IH Hb).
  destruct (is_digit c) eqn:E; [by rewrite (digit_not_space c E) in Hc|done].
Qed.

(** Every integer in the sense of the specification, of no more digits
    than the interpreter's limit, is converted by [int], to the number it
    denotes. *)
Lemma py_int_integer_text s n :
  integer_text s n -> digit_count s <= MAX_STR_DIGITS -> py_int s = Returned n.
Proof.
  intros [ds Hne Hd|ds Hne Hd|ds Hne Hd] Hlim; unfold py_int.
  - rewrite strip_no_blank by by apply all_digits_no_blank.
    destruct ds as [|c r]; [done|]. pose proof Hd as Hall. simpl in Hd.
    apply andb_prop in Hd as [Hc Hr].
    destruct (digit_not_sign c Hc) as [-> ->].
    rewrite (digits_value_all_digits (String c r)) by done.
    rewrite (proj2 (Z.ltb_ge _ _) Hlim). f_equal. lia.
  - rewrite strip_no_blank
      by (simpl; by rewrite all_digits_no_blank).
    change (digit_count (String "+" ds)) with (0 + digit_count ds) in Hlim.
    assert (Hl : (MAX_STR_DIGITS <? digit_count ds) = false) by (apply Z.ltb_ge; lia).
    change (Ascii.eqb "+" "+") with true. cbv beta iota.
    rewrite digits_value_all_digits by (try done; by destruct ds).
    rewrite Hl. f_equal; lia.
  - rewrite strip_no_blank
      by (simpl; by rewrite all_digits_no_blank).
    change (digit_count (String "-" ds)) with (0 + digit_count ds) in Hlim.
    assert (Hl : (MAX_STR_DIGITS <? digit_count ds) = false) by (apply Z.ltb_ge; lia).
    change (Ascii.eqb "-" "+") with false. change (Ascii.eqb "-" "-") with true.
    cbv beta iota.
    rewrite digits_value_all_digits by (try done; by destruct ds).
    rewrite Hl. f_equal; lia.
Qed.

Lemma append_cons c (p q : string) :
  (String c p ++ q)%string = String c (p ++ q)%string.
Proof. reflexivity. Qed.

Lemma split_last_app pre u :
  split_last (pre ++ String u EmptyString) = Some (pre, u).
Proof. induction pre as [|c r IH]; simpl; [done|]. by rewrite IH. Qed.

Lemma split_last_inv s pre u :
  split_last s = Some (pre, u) -> s = (pre ++ String u EmptyString)%string.
Proof.
  revert pre u. induction s as [|c r IH]; simpl; intros pre u; [done|].
  destruct (split_last r) as [[p l]|] eqn:E.
  - intros [= <- <-]. rewrite append_cons. f_equal. by apply IH.
  - intros [= <- <-]. destruct r; [done|]. simpl in E.
    by destruct (split_last r) as [[? ?]|].
Qed.

Lemma unit_seconds_table unit mult :
  unit_seconds unit = Some mult <->
  In (unit, mult) [("s"%char, 1); ("m"%char, 60); ("h"%char, 3600); ("d"%char, 86400)].
Proof.
  split.
  - destruct unit as [[] [] [] [] [] [] [] []]; simpl; intros [= <-]; tauto.
  - simpl. intros [[= <- <-]|[[= <- <-]|[[= <- <-]|[[= <- <-]|[]]]]]; reflexivity.
Qed.

(** What [parse_when] accepts: a last character that is a unit, after a
    text that [int] converts. *)
Lemma parse_when_accepts when seconds :
  parse_when when = Returned seconds <->
  exists pre unit num mult,
    when = (pre ++ String unit EmptyString)%string
    /\ py_int pre = Returned num
    /\ unit_seconds unit = Some mult
    /\ seconds = num * mult.
Proof.
  unfold parse_when. split.
  - destruct (split_last when) as [[pre unit]|] eqn:Hs; [|done].
    apply split_last_inv in Hs.
    destruct (py_int pre) as [num|] eqn:Hn; [|done].
    destruct (unit_seconds unit) as [mult|] eqn:Hu; [|done].
    destruct (mult =? 0); [done|]. intros [= <-]. by exists pre, unit, num, mult.
  - intros (pre & unit & num & mult & -> & Hn & Hu & ->).
    rewrite split_last_app, Hn, Hu.
    apply unit_seconds_table in Hu. simpl in Hu.
    destruct Hu as [[= <- <-]|[[= <- <-]|[[= <- <-]|[[= <- <-]|[]]]]]; reflexivity.
Qed.

Lemma chars_cons c s : chars (String c s) = c :: chars s.
Proof. reflexivity. Qed.

Lemma lstrip_chars blank s c :
  In c (chars s) -> blank c = true \/ In c (chars (lstrip_by blank s)).
Proof.
  induction s as [|a r IH]; simpl; [tauto|].
  destruct (blank a) eqn:Ha.
  - intros [<-|Hin]; [by left | by apply IH].
  - rewrite chars_cons. simpl. tauto.
Qed.

Lemma lstrip_chars_sub blank s c :
  In c (chars (lstrip_by blank s)) -> In c (chars s).
Proof.
  induction s as [|a r IH]; simpl; [tauto|].
  destruct (blank a); [by right; apply IH | done].
Qed.

Lemma rstrip_chars blank s c :
  In c (chars s) -> blank c = true \/ In c (chars (rstrip_by blank s)).
Proof.
  induction s as [|a r IH]; simpl; [tauto|].
  intros [<-|Hin].
  - destruct (rstrip_by blank r); [destruct (blank a) eqn:Ha|]; simpl; tauto.
  - destruct (IH Hin) as [?|Hr]; [by left|]. right.
    destruct (rstrip_by blank r); [done|]. by right.
Qed.

Lemma rstrip_chars_sub blank s c :
  In c (chars (rstrip_by blank s)) -> In c (chars s).
Proof.
  induction s as [|a r IH]; simpl; [tauto|].
  destruct (rstrip_by blank r) as [|b r'].
  - destruct (blank a); simpl; tauto.
  - rewrite chars_cons. intros [<-|Hin]; [by left | right; by apply IH].
Qed.

Lemma digits_value_chars s acc prev v :
  digits_value acc prev s = Some v ->
  (forall c, In c (chars s) -> is_digit c = true \/ Ascii.eqb c "_" = true)
  /\ (prev = false -> exists c, In c (chars s) /\ is_digit c = true).
Proof.
  revert acc prev. induction s as [|a r IH]; simpl; intros acc prev.
  - destruct prev; [|done]. intros _. split; [by intros c [] | done].
  - destruct (is_digit a) eqn:Ha.
    + intros [Hall _]%IH. split; [|by eauto].
      intros c [<-|Hin]; [by left | by apply Hall].
    + destruct (Ascii.eqb a "_") eqn:Hu; [|done].
      destruct prev; [|done]. intros [Hall Hex]%IH. split.
      * intros c [<-|Hin]; [by right | by apply Hall].
      * done.
Qed.

(** A text [int] converts holds nothing but digits, blanks, signs and
    underscores, and at least one digit. *)
Lemma py_int_chars pre num :
  py_int pre = Returned num ->
  (forall c, In c (chars pre) -> is_digit c = true \/ int_filler c = true)
  /\ exists c, In c (chars pre) /\ is_digit c = true.
Proof.
  unfold py_int.
  set (t := strip_by is_int_space pre).
  assert (Hsub : forall c, In c (chars t) -> In c (chars pre))
    by (intros c Hc; by eapply lstrip_chars_sub, rstrip_chars_sub).
  assert (Hcover : forall c, In c (chars pre) ->
            is_int_space c = true \/ In c (chars t)).
  { intros c Hc. destruct (lstrip_chars is_int_space _ _ Hc) as [?|Hl]; [by left|].
    by apply rstrip_chars. }
  assert (Hbody : forall body v,
            (forall c, In c (chars t) ->
               In c (chars body) \/ Ascii.eqb c "+" = true \/ Ascii.eqb c "-" = true) ->
            (forall c, In c (chars body) -> In c (chars t)) ->
            digits_value 0 false body = Some v ->
            (forall c, In c (chars pre) -> is_digit c = true \/ int_filler c = true)
            /\ exists c, In c (chars pre) /\ is_digit c = true).
  { intros body v Hin Hback [Hall Hex]%digits_value_chars. split.
    - intros c Hc. unfold int_filler.
      destruct (Hcover c Hc) as [Hsp|Hst]; [right; by rewrite Hsp|].
      destruct (Hin c Hst) as [Hb|[Hp|Hm]].
      + destruct (Hall c Hb) as [?|Hu]; [by left|]. right. rewrite Hu.
        by rewrite !orb_true_r.
      + right. rewrite Hp. by rewrite !orb_true_r.
      + right. rewrite Hm. by rewrite !orb_true_r.
    - destruct (Hex eq_refl) as (c & Hc & Hd). exists c. split; [|done].
      by apply Hsub, Hback. }
  destruct t as [|c r] eqn:Hs.
  - simpl. done.
  - destruct (Ascii.eqb c "+") eqn:Hp; [|destruct (Ascii.eqb c "-") eqn:Hm].
    + destruct (digits_value 0 false r) as [v|] eqn:Hv; [|done]. intros _.
      apply (Hbody r v); [|by right|done].
      intros x [<-|Hx]; [right; by left | by left].
    + destruct (digits_value 0 false r) as [v|] eqn:Hv; [|done]. intros _.
      apply (Hbody r v); [|by right|done].
      intros x [<-|Hx]; [right; by right | by left].
    + destruct (digits_value 0 false (String c r)) as [v|] eqn:Hv; [|done].
      intros _. apply (Hbody (String c r) v); [by left|done|done].
Qed.

(** ** The grammar of [int] *)

Lemma append_nil_r (s : string) : (s ++ "")%string = s.
Proof. induction s as [|c r IH]; [done|]. by rewrite append_cons, IH. Qed.

Lemma append_assoc (a b c : string) :
  ((a ++ b) ++ c)%string = (a ++ (b ++ c))%string.
Proof. induction a as [|x a IH]; [done|]. by rewrite !append_cons, IH. Qed.

Lemma lstrip_split blank s :
  exists lead, s = (lead ++ lstrip_by blank s)%string /\ all_blank blank lead = true.
Proof.
  induction s as [|c r (lead & Hr & Hl)]; simpl.
  - by exists EmptyString.
  - destruct (blank c) eqn:Hc.
    + exists (String c lead). rewrite append_cons, <- Hr. simpl. by rewrite Hc.
    + by exists EmptyString.
Qed.

Lemma rstrip_split blank s :
  exists trail, s = (rstrip_by blank s ++ trail)%string /\ all_blank blank trail = true.
Proof.
  induction s as [|c r (trail & Hr & Hl)]; simpl.
  - by exists EmptyString.
  - destruct (rstrip_by blank r) as [|b r'] eqn:E.
    + simpl in Hr. destruct (blank c) eqn:Hc.
      * exists (String c trail). simpl. rewrite Hc. split; [by rewrite Hr | done].
      * exists trail. rewrite ?append_cons. simpl. by rewrite <- Hr.
    + exists trail. rewrite ?append_cons in *. by rewrite <- Hr.
Qed.

Lemma lstrip_app_blank blank lead s :
  all_blank blank lead = true ->
  lstrip_by blank (lead ++ s) = lstrip_by blank s.
Proof.
  induction lead as [|c r IH]; [done|]. simpl.
  intros [Hc Hr]%andb_prop. rewrite ?append_cons. simpl. rewrite Hc. by apply IH.
Qed.

Lemma rstrip_all_blank blank s :
  all_blank blank s = true -> rstrip_by blank s = EmptyString.
Proof.
  induction s as [|c r IH]; [done|]. simpl.
  intros [Hc Hr]%andb_prop. by rewrite IH, Hc.
Qed.

Lemma rstrip_app_blank blank s trail :
  all_blank blank trail = true ->
  rstrip_by blank (s ++ trail) = rstrip_by blank s.
Proof.
  intros Ht. induction s as [|c r IH].
  - simpl. by apply rstrip_all_blank.
  - rewrite ?append_cons. simpl. by rewrite IH.
Qed.

Lemma ends_clean_cons blank c d r :
  ends_clean blank (String c (String d r)) = ends_clean blank (String d r).
Proof.
  unfold ends_clean. simpl. by destruct (split_last r) as [[? ?]|].
Qed.

Lemma rstrip_ends_clean blank s :
  ends_clean blank s = true -> rstrip_by blank s = s.
Proof.
  induction s as [|c r IH]; [done|].
  destruct r as [|d r].
  - unfold ends_clean. simpl. intros Hc%negb_true_iff. by rewrite Hc.
  - rewrite ends_clean_cons. intros Hr. specialize (IH Hr).
    change (rstrip_by blank (String c (String d r)))
      with (match rstrip_by blank (String d r) with
            | EmptyString => if blank c then EmptyString else String c EmptyString
            | r' => String c r'
            end).
    by rewrite IH.
Qed.

Lemma digit_tail_ends_clean r acc v c :
  digit_tail r acc v -> is_digit c = true ->
  ends_clean is_int_space (String c r) = true.
Proof.
  intros Ht. revert c. induction Ht as [acc|d r acc v Hd _ IH|d r acc v Hd _ IH]; intros c Hc.
  - unfold ends_clean. simpl. by rewrite (digit_not_space c Hc).
  - rewrite ends_clean_cons. by apply IH.
  - rewrite !ends_clean_cons. by apply IH.
Qed.

Lemma digits_value_sound r :
  forall acc v,
    (digits_value acc true r = Some v -> digit_tail r acc v)
    /\ (digits_value acc false r = Some v ->
        exists c r', r = String c r' /\ is_digit c = true
                     /\ digit_tail r' (10 * acc + (code c - 48)) v).
Proof.
  induction r as [|c r IH]; intros acc v; simpl.
  - split; [intros [= <-]; constructor | done].
  - destruct (is_digit c) eqn:Hc.
    + split; intros H%IH.
      * by apply tail_digit.
      * by exists c, r.
    + destruct (Ascii.eqb c "_") eqn:Hu; [|done].
      apply Ascii.eqb_eq in Hu. subst c. split; [|done].
      intros (d & r' & -> & Hd & Ht)%IH. by apply tail_underscore.
Qed.

(** The digits scanner accepts exactly the tails of the grammar. *)
Lemma digits_value_tail r acc v :
  digits_value acc true r = Some v <-> digit_tail r acc v.
Proof.
  split; [apply digits_value_sound|].
  induction 1 as [acc|c r acc v Hc _ IH|c r acc v Hc _ IH]; simpl.
  - done.
  - by rewrite Hc.
  - by rewrite Hc.
Qed.

Lemma digits_value_run body v :
  digits_value 0 false body = Some v <-> digit_run body v.
Proof.
  split.
  - destruct body as [|c r]; simpl; [done|].
    destruct (is_digit c) eqn:Hc.
    + intros H%digits_value_tail. by constructor.
    + by destruct (Ascii.eqb c "_").
  - intros [c r v' Hc Ht]. simpl. rewrite Hc. by apply digits_value_tail.
Qed.

Lemma digit_run_clean body v :
  digit_run body v ->
  ends_clean is_int_space body = true
  /\ exists c r, body = String c r /\ is_digit c = true.
Proof.
  intros [c r v' Hc Ht]. split; [by eapply digit_tail_ends_clean | eauto].
Qed.

(** Stripping a text that is blanks, a core without blanks at its ends,
    blanks, leaves the core. *)
Lemma strip_core blank lead c r trail :
  all_blank blank lead = true -> all_blank blank trail = true ->
  blank c = false -> ends_clean blank (String c r) = true ->
  strip_by blank (lead ++ String c r ++ trail) = String c r.
Proof.
  intros Hl Ht Hc He. unfold strip_by.
  rewrite lstrip_app_blank by done. rewrite ?append_cons. simpl. rewrite Hc.
  rewrite <- append_cons, rstrip_app_blank by done. by apply rstrip_ends_clean.
Qed.

Lemma ends_clean_strip blank s :
  ends_clean blank (strip_by blank s) = true.
Proof.
  unfold strip_by. generalize (lstrip_by blank s) as t. clear s.
  induction t as [|c r IH]; [done|]. simpl.
  destruct (rstrip_by blank r) as [|d r'] eqn:E.
  - destruct (blank c) eqn:Hc; [done|]. unfold ends_clean. simpl. by rewrite Hc.
  - by rewrite ends_clean_cons.
Qed.

(** [int] converts exactly the texts of the grammar, to the number they
    denote. *)
Lemma py_int_grammar s n : py_int s = Returned n <-> int_text s n.
Proof.
  split.
  - unfold py_int.
    destruct (lstrip_split is_int_space s) as (lead & Hs & Hlead).
    destruct (rstrip_split is_int_space (lstrip_by is_int_space s)) as (trail & Hs2 & Htrail).
    fold (strip_by is_int_space s) in Hs2. rewrite Hs2 in Hs.
    destruct (strip_by is_int_space s) as [|c r] eqn:Ht; [done|].
    destruct (Ascii.eqb c "+") eqn:Hp; [|destruct (Ascii.eqb c "-") eqn:Hm].
    + apply Ascii.eqb_eq in Hp. subst c.
      destruct (digits_value 0 false r) as [v|] eqn:Hv; [|done].
      destruct (MAX_STR_DIGITS <? digit_count r) eqn:Hlim; [done|].
      apply Z.ltb_ge in Hlim. intros [= <-].
      rewrite Hs. replace (1 * v) with v by lia.
      rewrite ?append_cons. apply int_text_plus; try done. by apply digits_value_run.
    + apply Ascii.eqb_eq in Hm. subst c.
      destruct (digits_value 0 false r) as [v|] eqn:Hv; [|done].
      destruct (MAX_STR_DIGITS <? digit_count r) eqn:Hlim; [done|].
      apply Z.ltb_ge in Hlim. intros [= <-].
      rewrite Hs. replace (-1 * v) with (- v) by lia.
      rewrite ?append_cons. apply int_text_minus; try done. by apply digits_value_run.
    + destruct (digits_value 0 false (String c r)) as [v|] eqn:Hv; [|done].
      destruct (MAX_STR_DIGITS <? digit_count (String c r)) eqn:Hlim; [done|].
      apply Z.ltb_ge in Hlim. intros [= <-].
      rewrite Hs. replace (1 * v) with v by lia.
      apply int_text_plain; try done. by apply digits_value_run.
  - intros [lead body trail v Hl Ht Hrun Hlim|lead body trail v Hl Ht Hrun Hlim
            |lead body trail v Hl Ht Hrun Hlim];
      destruct (digit_run_clean body v Hrun) as (Hclean & c & r & -> & Hc);
      apply Z.ltb_ge in Hlim; unfold py_int.
    + rewrite strip_core by (try done; by apply digit_not_space).
      destruct (digit_not_sign c Hc) as [-> ->].
      apply digits_value_run in Hrun. rewrite Hrun, Hlim. f_equal. lia.
    + rewrite strip_core by (try done; by rewrite ends_clean_cons).
      change (Ascii.eqb "+" "+") with true. cbv beta iota.
      apply digits_value_run in Hrun. rewrite Hrun, Hlim. f_equal; lia.
    + rewrite strip_core by (try done; by rewrite ends_clean_cons).
      change (Ascii.eqb "-" "+") with false. change (Ascii.eqb "-" "-") with true.
      cbv beta iota.
      apply digits_value_run in Hrun. rewrite Hrun, Hlim. f_equal; lia.
Qed.

(** ** The reminder command *)

Lemma cmd_remindme_rejected ctx when text c1 c2 t e :
  parse_when when = Raised e ->
  cmd_remindme ctx when text c1 c2 t = (t, Returned InvalidTimeFormat).
Proof. intros H. unfold cmd_remindme. by rewrite H. Qed.

Lemma cmd_remindme_accepted ctx when text c1 c2 t seconds :
  parse_when when = Returned seconds ->
  sqlite_binds (ctx_author ctx) (ctx_guild ctx) (ctx_channel ctx) (c1 + seconds) c2
  = true ->
  cmd_remindme ctx when text c1 c2 t
  = (mk_reminders
       (rows t ++ [mk_reminder (last_id t + 1) (ctx_author ctx) (ctx_guild ctx)
                     (ctx_channel ctx) (c1 + seconds) text c2])
       (last_id t + 1),
     Returned (ReminderSet (c1 + seconds))).
Proof.
  intros H Hb. unfold cmd_remindme, schedule_reminder. by rewrite H, Hb.
Qed.

Lemma cmd_remindme_overflow ctx when text c1 c2 t seconds :
  parse_when when = Returned seconds ->
  sqlite_binds (ctx_author ctx) (ctx_guild ctx) (ctx_channel ctx) (c1 + seconds) c2
  = false ->
  cmd_remindme ctx when text c1 c2 t = (t, Raised OverflowError).
Proof.
  intros H Hb. unfold cmd_remindme, schedule_reminder. by rewrite H, Hb.
Qed.

(** C6, as the code has it.  For a text of code points below 256, the
    parser accepts it exactly when its last character is a unit from s, m,
    h, d and the text before it is one that [int] converts: blanks, at most
    one sign, a run of at most 4300 decimal digits in which single
    underscores may separate two digits, blanks.  The offset is the number
    times 1, 60, 3600 or 86400.  So every integer in the sense of the
    specification, of no more digits than that limit, followed by a unit is
    accepted with that offset ("10m" gives 600, "2h" 7200, "1d" 86400), and
    a text before the unit that holds a character other than a digit,
    blank, sign or underscore, or no digit at all, or more than 4300
    digits, is rejected, as is any other trailing character and a missing
    unit ("10x", "m10", "10").  A rejected text is answered with the format
    message and leaves the table as it was.  An accepted one is answered
    with the reminder time when the parameters of the insert are 64-bit
    integers; when one is not, the insert raises [OverflowError], the table
    is left as it was and no answer is sent. *)
Theorem remindme_time_format :
  (forall when seconds,
     parse_when when = Returned seconds <->
     exists pre unit num mult,
       when = (pre ++ String unit EmptyString)%string
       /\ int_text pre num
       /\ In (unit, mult) [("s"%char, 1); ("m"%char, 60); ("h"%char, 3600); ("d"%char, 86400)]
       /\ seconds = num * mult)
  /\ (forall when seconds,
        spec_time_format when seconds -> digit_count when <= MAX_STR_DIGITS ->
        parse_when when = Returned seconds)
  /\ (forall pre num,
        int_text pre num ->
        (forall c, In c (chars pre) -> is_digit c = true \/ int_filler c = true)
        /\ (exists c, In c (chars pre) /\ is_digit c = true)
        /\ digit_count pre <= MAX_STR_DIGITS)
  /\ (parse_when "10m" = Returned 600
      /\ parse_when "2h" = Returned 7200
      /\ parse_when "1d" = Returned 86400
      /\ parse_when "10x" = Raised ValueError
      /\ parse_when "m10" = Raised ValueError
      /\ parse_when "10" = Raised ValueError)
  /\ (forall ctx when text c1 c2 t,
        match parse_when when with
        | Raised _ =>
            cmd_remindme ctx when text c1 c2 t = (t, Returned InvalidTimeFormat)
        | Returned seconds =>
            if sqlite_binds (ctx_author ctx) (ctx_guild ctx) (ctx_channel ctx)
                 (c1 + seconds) c2
            then snd (cmd_remindme ctx when text c1 c2 t)
                 = Returned (ReminderSet (c1 + seconds))
            else cmd_remindme ctx when text c1 c2 t = (t, Raised OverflowError)
        end).
Proof.
  split; [|split; [|split; [|split]]].
  - intros when seconds. rewrite parse_when_accepts.
    split; intros (pre & unit & num & mult & H1 & H2 & H3 & H4);
      exists pre, unit, num, mult; repeat split; try done;
      first [by apply py_int_grammar | by apply unit_seconds_table].
  - intros when seconds (pre & unit & num & mult & H1 & H2 & H3 & H4) Hlim.
    apply parse_when_accepts. exists pre, unit, num, mult.
    repeat split; try done.
    + apply py_int_integer_text; [done|].
      rewrite H1, digit_count_app in Hlim.
      pose proof (digit_count_nonneg (String unit EmptyString)). lia.
    + by apply unit_seconds_table.
  - intros pre num H. split; [|split].
    + apply py_int_grammar in H. by apply (py_int_chars pre num).
    + apply py_int_grammar in H. by apply (py_int_chars pre num).
    + destruct H as [lead body trail v Hl Ht Hrun Hlim|lead body trail v Hl Ht Hrun Hlim
                    |lead body trail v Hl Ht Hrun Hlim];
        rewrite !digit_count_app, (blank_digit_count lead Hl), (blank_digit_count trail Ht).
      * lia.
      * change (digit_count (String "+" body)) with (0 + digit_count body). lia.
      * change (digit_count (String "-" body)) with (0 + digit_count body). lia.
  - repeat split; reflexivity.
  - intros ctx when text c1 c2 t. destruct (parse_when when) eqn:E.
    + destruct (sqlite_binds _ _ _ _ _) eqn:Hb.
      * by rewrite (cmd_remindme_accepted _ _ _ _ _ _ _ E Hb).
      * by apply (cmd_remindme_overflow _ _ _ _ _ _ _ E).
    + by rewrite (cmd_remindme_rejected _ _ _ _ _ _ _ E).
Qed.

(** C6, as the specification has it, fails: [int] strips blanks and lets
    underscores through, so "10 m" and "1_0m" are accepted with 600 seconds
    although neither is an integer immediately followed by a unit.  *)
Lemma remindme_accepts_beyond_spec_format :
  parse_when "10 m" = Returned 600
  /\ ~ spec_time_format "10 m" 600
  /\ parse_when "1_0m" = Returned 600
  /\ ~ spec_time_format "1_0m" 600.
Proof.
  assert (Hno : forall when pre unit,
            split_last when = Some (pre, unit) ->
            (forall n, ~ integer_text pre n) ->
            forall seconds, ~ spec_time_format when seconds).
  { intros when pre unit Hs Hpre seconds (p & u & n & m & -> & Hi & _).
    rewrite split_last_app in Hs. injection Hs as -> ->. by apply (Hpre n). }
  split; [reflexivity|]. split; [|split; [reflexivity|]].
  - apply (Hno _ "10 " "m"%char); [reflexivity|].
    intros n Hi. inversion Hi; subst; simpl in *; discriminate.
  - apply (Hno _ "1_0" "m"%char); [reflexivity|].
    intros n Hi. inversion Hi; subst; simpl in *; discriminate.
Qed.

(** C7, as the code has it.  An accepted text whose insert can bind its
    parameters as 64-bit integers adds one row whose [remind_at] is the
    command's clock reading plus the offset and whose [created_at] is the
    clock reading of the insertion; the reminder time is after the creation
    time exactly when the offset exceeds the time that passed between the
    two readings, so with both readings in the same second exactly when
    the offset is positive.  When a parameter is not a 64-bit integer the
    insert raises [OverflowError]: no row is added and no answer is
    sent. *)
Theorem remindme_row_times
    (ctx : context) (when text : string) (c1 c2 : Z) (t : reminders_table)
    (seconds : Z) :
  parse_when when = Returned seconds ->
  if sqlite_binds (ctx_author ctx) (ctx_guild ctx) (ctx_channel ctx) (c1 + seconds) c2
  then
    exists row,
      cmd_remindme ctx when text c1 c2 t
      = (mk_reminders (rows t ++ [row]) (rid row),
         Returned (ReminderSet (remind_at row)))
      /\ remind_at row = c1 + seconds
      /\ created_at row = c2
      /\ (created_at row < remind_at row <-> c2 - c1 < seconds)
      /\ (c1 = c2 -> (created_at row < remind_at row <-> 0 < seconds))
  else cmd_remindme ctx when text c1 c2 t = (t, Raised OverflowError).
Proof.
  intros H. destruct (sqlite_binds _ _ _ _ _) eqn:Hb.
  - rewrite (cmd_remindme_accepted _ _ _ _ _ _ _ H Hb).
    exists (mk_reminder (last_id t + 1) (ctx_author ctx) (ctx_guild ctx)
              (ctx_channel ctx) (c1 + seconds) text c2).
    split; [reflexivity|]. simpl. repeat split; lia.
  - by apply (cmd_remindme_overflow _ _ _ _ _ _ _ H).
Qed.

Lemma remindme_row_times_witness :
  exists row,
    cmd_remindme (mk_context 5 None 8) "10m" "tea" 1000 1000 empty_reminders
    = (mk_reminders (rows empty_reminders ++ [row]) (rid row),
       Returned (ReminderSet (remind_at row)))
    /\ remind_at row = 1000 + 600
    /\ created_at row = 1000
    /\ (created_at row < remind_at row <-> 1000 - 1000 < 600)
    /\ (1000 = 1000 -> (created_at row < remind_at row <-> 0 < 600)).
Proof.
  apply (remindme_row_times (mk_context 5 None 8) "10m" "tea" 1000 1000
           empty_reminders 600).
  reflexivity.
Defined.

(** C7, as the specification has it, fails: "0s" and "-5m" are accepted,
    and the rows they add are not scheduled after their creation time. *)
Lemma remindme_accepts_time_not_in_future :
  cmd_remindme (mk_context 5 None 8) "0s" "tea" 1000 1000 empty_reminders
  = (mk_reminders [mk_reminder 1 5 None 8 1000 "tea" 1000] 1,
     Returned (ReminderSet 1000))
  /\ ~ (created_at (mk_reminder 1 5 None 8 1000 "tea" 1000)
        < remind_at (mk_reminder 1 5 None 8 1000 "tea" 1000))
  /\ cmd_remindme (mk_context 5 None 8) "-5m" "tea" 1000 1000 empty_reminders
     = (mk_reminders [mk_reminder 1 5 None 8 700 "tea" 1000] 1,
        Returned (ReminderSet 700))
  /\ ~ (created_at (mk_reminder 1 5 None 8 700 "tea" 1000)
        < remind_at (mk_reminder 1 5 None 8 700 "tea" 1000)).
Proof. repeat split; try reflexivity; simpl; lia. Qed.

(** ** The dispatcher *)

Lemma award_xp_frame m w st :
  let st' := fst (award_xp m w st) in
  active_trivia st' = active_trivia st
  /\ trivia_scores st' = trivia_scores st
  /\ _last_react_time st' = _last_react_time st
  /\ _last_reply_time st' = _last_reply_time st
  /\ forall a, In a (snd (award_xp m w st)) ->
       (exists u l, a = LevelUp u l) \/ (exists e, a = LogError e).
Proof.
  unfold award_xp. destruct (add_xp _ _ _) as [u [[l|]|e]]; simpl;
    repeat split; try tauto.
  - destruct (l =? 0); simpl; [tauto|]. intros a [<-|[]]. left. eauto.
  - intros a [<-|[]]. right. eauto.
Qed.

(** The three ways the trivia check can go. *)
Lemma trivia_check_cases m w st :
  (* no session, or a text that is not the answer *)
  ((active_trivia st !! channel_id m = None
    \/ exists answer asker, active_trivia st !! channel_id m = Some (answer, asker)
         /\ lower (strip (content m)) <> answer)
   /\ trivia_check m w st = (st, [], false))
  \/ (* the answer, announced *)
  (exists answer asker,
     active_trivia st !! channel_id m = Some (answer, asker)
     /\ lower (strip (content m)) = answer
     /\ announce_sent w = true
     /\ trivia_check m w st
        = (mk_state (db_users st) (delete (channel_id m) (active_trivia st))
             (<[author_id m := score st (author_id m) + 1]> (trivia_scores st))
             (_last_react_time st) (_last_reply_time st),
           [TriviaCorrect (author_id m) (score st (author_id m) + 1); ProcessCommands m],
           true))
  \/ (* the answer, but the announcement raised *)
  (exists answer asker,
     active_trivia st !! channel_id m = Some (answer, asker)
     /\ lower (strip (content m)) = answer
     /\ announce_sent w = false
     /\ trivia_check m w st
        = (mk_state (db_users st) (active_trivia st)
             (<[author_id m := score st (author_id m) + 1]> (trivia_scores st))
             (_last_react_time st) (_last_reply_time st),
           [TriviaAnnounceFailed (author_id m)],
           false)).
Proof.
  unfold trivia_check, score.
  destruct (active_trivia st !! channel_id m) as [[answer asker]|] eqn:Hs.
  - destruct (String.eqb (lower (strip (content m))) answer) eqn:He.
    + apply String.eqb_eq in He. destruct (announce_sent w) eqn:Ha.
      * right. left. by exists answer, asker.
      * right. right. by exists answer, asker.
    + apply String.eqb_neq in He. left. split; [|done]. right.
      by exists answer, asker.
  - left. split; [by left | done].
Qed.

Lemma trivia_start_sessions channel asker raw st :
  sessions_from_command st -> sessions_from_command (trivia_cmd channel asker raw st).
Proof.
  intros Hst. unfold trivia_cmd.
  destruct (choice TRIVIA_QUESTIONS raw) as [q|] eqn:Hq; [|done].
  intros ch a k. simpl. destruct (decide (channel = ch)) as [<-|Hne].
  - rewrite lookup_insert_eq. intros [= <- <-].
    unfold choice in Hq. apply list_elem_of_lookup_2, list_elem_of_In in Hq.
    exact (in_map snd TRIVIA_QUESTIONS q Hq).
  - rewrite lookup_insert_ne by done. apply Hst.
Qed.

(** [on_message] for a message that is not from a bot, step by step. *)
Lemma on_message_unfold cfg m w st :
  author_bot m = false ->
  on_message cfg m w st =
    let s1 := fst (award_xp m w st) in
    let a1 := snd (award_xp m w st) in
    let s2 := fst (fst (trivia_check m w s1)) in
    let a2 := snd (fst (trivia_check m w s1)) in
    if snd (trivia_check m w s1) then (s2, a1 ++ a2)
    else
      let r := auto_react cfg m (clock w) (_last_react_time s2) in
      let p := auto_reply cfg m (clock w) (reply_draw w) (_last_reply_time s2) in
      (mk_state (db_users s2) (active_trivia s2) (trivia_scores s2) (fst r) (fst p),
       a1 ++ a2
       ++ (if snd r then [AddReactions (author_id m) (channel_id m)] else [])
       ++ (if snd p then [AutoReply (author_id m) (channel_id m)] else [])
       ++ [ProcessCommands m]).
Proof.
  intros Hbot. unfold on_message. rewrite Hbot.
  destruct (award_xp m w st) as [s1 a1]. cbn [fst snd].
  destruct (trivia_check m w s1) as [[s2 a2] handled]. cbn [fst snd].
  destruct handled; [reflexivity|].
  destruct (auto_react _ _ _ _) as [lr reacted].
  destruct (auto_reply _ _ _ _ _) as [lp replied]. reflexivity.
Qed.

(** What a message does to the trivia dictionaries. *)
Lemma on_message_trivia cfg m w st :
  author_bot m = false ->
  let st' := fst (on_message cfg m w st) in
  let acts := snd (on_message cfg m w st) in
  ((active_trivia st !! channel_id m = None
    \/ exists answer asker, active_trivia st !! channel_id m = Some (answer, asker)
         /\ lower (strip (content m)) <> answer)
   /\ active_trivia st' = active_trivia st
   /\ trivia_scores st' = trivia_scores st)
  \/ (exists answer asker,
        active_trivia st !! channel_id m = Some (answer, asker)
        /\ lower (strip (content m)) = answer
        /\ trivia_scores st'
           = <[author_id m := score st (author_id m) + 1]> (trivia_scores st)
        /\ (announce_sent w = false -> active_trivia st' = active_trivia st)
        /\ (announce_sent w = true ->
              active_trivia st' = delete (channel_id m) (active_trivia st)
              /\ _last_react_time st' = _last_react_time st
              /\ _last_reply_time st' = _last_reply_time st
              /\ acts = snd (award_xp m w st)
                        ++ [TriviaCorrect (author_id m) (score st (author_id m) + 1);
                            ProcessCommands m])).
Proof.
  intros Hbot. cbv zeta. rewrite on_message_unfold by done. cbv zeta.
  destruct (award_xp_frame m w st) as (Ht & Hs & Hr & Hp & _).
  set (s1 := fst (award_xp m w st)) in *.
  assert (Hscore : score s1 (author_id m) = score st (author_id m))
    by (unfold score; by rewrite Hs).
  destruct (trivia_check_cases m w s1)
    as [[Hno ->]|[(a & k & Hl & He & Ha & ->)|(a & k & Hl & He & Ha & ->)]];
    cbn [fst snd]; rewrite ?Ht, ?Hs, ?Hscore in *.
  - left. cbn. rewrite ?Ht, ?Hs. done.
  - right. exists a, k. cbn. rewrite ?Hr, ?Hp.
    split; [done|]. split; [done|]. split; [done|].
    split; [intros; congruence | done].
  - right. exists a, k. cbn. rewrite ?Ht, ?Hs.
    split; [done|]. split; [done|]. split; [done|].
    split; [done | intros; congruence].
Qed.

Lemma normalise_answer a : In a trivia_answers -> normalise a = a.
Proof.
  simpl. intros [<-|[<-|[<-|[<-|[]]]]]; reflexivity.
Qed.

Lemma on_message_sessions cfg m w st :
  sessions_from_command st -> sessions_from_command (fst (on_message cfg m w st)).
Proof.
  intros Hst. destruct (author_bot m) eqn:Hbot.
  - unfold on_message. by rewrite Hbot.
  - unfold sessions_from_command in *.
    destruct (on_message_trivia cfg m w st Hbot)
      as [(_ & -> & _)|(a & k & _ & _ & _ & Hkeep & Hdel)]; [done|].
    intros ch a' k'. destruct (announce_sent w).
    + destruct (Hdel eq_refl) as (-> & _).
      intros [_ H]%lookup_delete_Some. by apply (Hst ch a' k').
    + rewrite (Hkeep eq_refl). apply Hst.
Qed.

Lemma run_sessions cfg evs st :
  sessions_from_command st -> sessions_from_command (fst (run cfg st evs)).
Proof.
  revert st. induction evs as [|ev evs IH]; intros st Hst; simpl; [done|].
  destruct (handle cfg st ev) as [st1 a] eqn:Hh.
  specialize (IH st1). destruct (run cfg st1 evs) as [st2 l]. simpl in *.
  apply IH. destruct ev as [m w|channel asker raw]; simpl in Hh.
  - replace st1 with (fst (on_message cfg m w st)) by by rewrite Hh.
    by apply on_message_sessions.
  - injection Hh as <- _. by apply trivia_start_sessions.
Qed.

Lemma initial_sessions : sessions_from_command initial_state.
Proof. intros ch a k. simpl. by rewrite lookup_empty. Qed.

Lemma score_insert st u v x :
  get0 (<[u := x]> (trivia_scores st)) v = if decide (u = v) then x else score st v.
Proof.
  unfold score, get0. rewrite lookup_insert. by destruct (decide (u = v)).
Qed.

(** C4, as the code has it.  For a session started by the trivia command
    and a message in its channel that is not from a bot: the message is
    counted, raising its author's score by exactly 1 and no other score,
    when its trimmed-lowercased text equals the trimmed-lowercased stored
    answer, and changes neither scores nor sessions when it does not.  When
    the announcement of a counted message is sent, the session of that
    channel, and no other, is cleared, prefix commands are dispatched for
    the message as the last action, no auto-react and no auto-reply happens,
    and no later message in that channel changes a score. *)
Theorem trivia_first_correct_answer
    (cfg : config) (evs : list event) (m : message) (w : surroundings)
    (answer : string) (asker : Z) :
  let st := fst (run cfg initial_state evs) in
  author_bot m = false ->
  active_trivia st !! channel_id m = Some (answer, asker) ->
  let st' := fst (on_message cfg m w st) in
  let acts := snd (on_message cfg m w st) in
  (normalise (content m) = normalise answer ->
     score st' (author_id m) = score st (author_id m) + 1
     /\ (forall u, u <> author_id m -> score st' u = score st u)
     /\ (announce_sent w = true ->
           active_trivia st' !! channel_id m = None
           /\ (forall ch, ch <> channel_id m ->
                 active_trivia st' !! ch = active_trivia st !! ch)
           /\ (exists before,
                 acts = before ++ [TriviaCorrect (author_id m) (score st' (author_id m));
                                   ProcessCommands m])
           /\ (forall u c, ~ In (AddReactions u c) acts /\ ~ In (AutoReply u c) acts)
           /\ _last_react_time st' = _last_react_time st
           /\ _last_reply_time st' = _last_reply_time st
           /\ (forall m2 w2, channel_id m2 = channel_id m ->
                 trivia_scores (fst (on_message cfg m2 w2 st')) = trivia_scores st')))
  /\ (normalise (content m) <> normalise answer ->
        trivia_scores st' = trivia_scores st /\ active_trivia st' = active_trivia st).
Proof.
  intros st Hbot Hsession. cbv zeta.
  assert (Hnorm : normalise answer = answer).
  { apply normalise_answer.
    apply (run_sessions cfg evs initial_state initial_sessions _ _ _ Hsession). }
  rewrite Hnorm. unfold normalise.
  destruct (on_message_trivia cfg m w st Hbot)
    as [([Hnone|(a & k & Hl & Hne)] & Hkeep & Hscores)
       |(a & k & Hl & Heq & Hscores & _ & Hsent)];
    set (st' := fst (on_message cfg m w st)) in *;
    set (acts := snd (on_message cfg m w st)) in *.
  - congruence.
  - rewrite Hsession in Hl. injection Hl as <- <-. split; [done|]. done.
  - rewrite Hsession in Hl. injection Hl as <- <-. split; [|done]. intros _.
    assert (Hmine : score st' (author_id m) = score st (author_id m) + 1).
    { unfold score at 1. rewrite Hscores, score_insert.
      by destruct (decide (author_id m = author_id m)). }
    split; [done|]. split.
    { intros u Hu. unfold score at 1. rewrite Hscores, score_insert.
      by destruct (decide (author_id m = u)); [congruence|]. }
    intros Ha. destruct (Hsent Ha) as (Hdel & Hr & Hp & Hacts).
    split; [by rewrite Hdel, lookup_delete_eq|].
    split; [intros ch Hch; by rewrite Hdel, lookup_delete_ne|].
    split; [exists (snd (award_xp m w st)); by rewrite Hmine|].
    split.
    { intros u c. rewrite Hacts.
      destruct (award_xp_frame m w st) as (_ & _ & _ & _ & Hxp).
      split; intros [Hin|[Hin|[Hin|[]]]]%in_app_or; try discriminate;
        destruct (Hxp _ Hin) as [(? & ? & ?)|(? & ?)]; discriminate. }
    split; [done|]. split; [done|].
    intros m2 w2 Hch. destruct (author_bot m2) eqn:Hbot2.
    { unfold on_message. by rewrite Hbot2. }
    destruct (on_message_trivia cfg m2 w2 st' Hbot2)
      as [(_ & _ & Hsame)|(a2 & k2 & Hl2 & _)]; [done|].
    rewrite Hch, Hdel, lookup_delete_eq in Hl2. discriminate.
Qed.



(** ** Cooldowns *)

Section Cooldown.
(** One of the two subsystems: its dictionary, its action, its window. *)
Variable cfg : config.
Variable last : bot_state -> gmap (Z * Z) Z.
Variable act : Z -> Z -> action.
Variable cooldown : Z.

(** Handling an event either leaves the dictionary alone and does not act,
    or it is a message that passed the cooldown test and stamped its key. *)
Hypothesis step :
  forall st ev,
    (last (fst (handle cfg st ev)) = last st
     /\ forall u c, ~ In (act u c) (snd (handle cfg st ev)))
    \/ (exists m w,
          ev = MessageCreated m w
          /\ cooldown <= clock w - get0 (last st) (author_id m, channel_id m)
          /\ last (fst (handle cfg st ev))
             = <[(author_id m, channel_id m) := clock w]> (last st)).

Lemma run_cons st ev evs :
  run cfg st (ev :: evs)
  = (fst (run cfg (fst (handle cfg st ev)) evs),
     snd (handle cfg st ev) :: snd (run cfg (fst (handle cfg st ev)) evs)).
Proof.
  cbn [run]. destruct (handle cfg st ev) as [st1 a]. cbn [fst snd].
  by destruct (run cfg st1 evs) as [st2 l].
Qed.

(** With a window that is not negative the timestamps never go back. *)
Lemma step_mono st ev key :
  0 <= cooldown ->
  get0 (last st) key <= get0 (last (fst (handle cfg st ev))) key.
Proof using All.
  intros Hcd. destruct (step st ev) as [[-> _]|(m & w & _ & Hcool & ->)]; [lia|].
  unfold get0 in *. rewrite lookup_insert.
  destruct (decide ((author_id m, channel_id m) = key)) as [<-|]; simpl; lia.
Qed.

(** An action at position [j] of a run happens at least one window after
    the timestamp the run started with. *)
Lemma fired_after_start evs st j m w :
  0 <= cooldown ->
  evs !! j = Some (MessageCreated m w) ->
  emitted (snd (run cfg st evs)) j (act (author_id m) (channel_id m)) ->
  get0 (last st) (author_id m, channel_id m) + cooldown <= clock w.
Proof using All.
  intros Hcd. revert st j.
  induction evs as [|ev evs IH]; intros st j Hev (acts & Hacts & Hin); [done|].
  rewrite run_cons in Hacts. cbn [snd] in Hacts. destruct j as [|j]; simpl in *.
  - injection Hev as ->. injection Hacts as <-.
    destruct (step st (MessageCreated m w))
      as [[_ Hno]|(m' & w' & [= <- <-] & Hcool & _)]; [by destruct (Hno _ _ Hin)|].
    lia.
  - pose proof (step_mono st ev (author_id m, channel_id m) Hcd).
    specialize (IH (fst (handle cfg st ev)) j Hev).
    assert (Hrest : emitted (snd (run cfg (fst (handle cfg st ev)) evs)) j
                      (act (author_id m) (channel_id m))) by by exists acts.
    specialize (IH Hrest). lia.
Qed.

(** Two actions for the same author and channel are at least one window
    apart. *)
Lemma fired_twice_apart evs st i j mi wi mj wj :
  (i < j)%nat ->
  evs !! i = Some (MessageCreated mi wi) ->
  evs !! j = Some (MessageCreated mj wj) ->
  author_id mi = author_id mj -> channel_id mi = channel_id mj ->
  emitted (snd (run cfg st evs)) i (act (author_id mi) (channel_id mi)) ->
  emitted (snd (run cfg st evs)) j (act (author_id mj) (channel_id mj)) ->
  ~ Z.abs (clock wi - clock wj) < cooldown.
Proof using All.
  intros Hij Hi Hj Ha Hc Hfi Hfj Hwin.
  assert (Hcd : 0 <= cooldown) by lia.
  revert st i j Hij Hi Hj Hfi Hfj.
  induction evs as [|ev evs IH]; intros st i j Hij Hi Hj Hfi Hfj; [done|].
  destruct j as [|j]; [lia|].
  destruct Hfi as (ai & Hai & Hini). destruct Hfj as (aj & Haj & Hinj).
  rewrite run_cons in Hai, Haj. cbn [snd] in Hai, Haj. simpl in Hj, Haj.
  destruct i as [|i]; simpl in Hi, Hai.
  - injection Hi as ->. injection Hai as <-.
    destruct (step st (MessageCreated mi wi))
      as [[_ Hno]|(m' & w' & [= <- <-] & Hcool & Hlast)];
      [by destruct (Hno _ _ Hini)|].
    assert (Hlater : get0 (last (fst (handle cfg st (MessageCreated mi wi))))
                       (author_id mj, channel_id mj) + cooldown <= clock wj).
    { apply (fired_after_start evs _ j); [done|done|by exists aj]. }
    rewrite Hlast, <- Ha, <- Hc in Hlater. unfold get0 in Hlater.
    rewrite lookup_insert_eq in Hlater. simpl in Hlater. lia.
  - apply (IH (fst (handle cfg st ev)) i j); [lia|done|done| |].
    + by exists ai.
    + by exists aj.
Qed.
End Cooldown.

Lemma auto_react_cases (cfg : config) (m : message) (now : Z) (l : gmap (Z * Z) Z) :
  auto_react cfg m now l = (l, false)
  \/ (AUTO_REACT_COOLDOWN cfg <= now - get0 l (author_id m, channel_id m)
      /\ auto_react cfg m now l = (<[(author_id m, channel_id m) := now]> l, true)).
Proof.
  unfold auto_react, cooled_down.
  destruct (in_channels _ m); [|by left].
  destruct (AUTO_REACT_COOLDOWN cfg <=? now - get0 l (author_id m, channel_id m)) eqn:E.
  - apply Z.leb_le in E.
    destruct (AUTO_REACT_KEYWORDS cfg); [by right|].
    destruct (any_keyword _ m); [by right | by left].
  - destruct (AUTO_REACT_KEYWORDS cfg); [by left|].
    destruct (any_keyword _ m); by left.
Qed.

Lemma auto_reply_cases (cfg : config) (m : message) (now raw : Z)
    (l : gmap (Z * Z) Z) :
  auto_reply cfg m now raw l = (l, false)
  \/ (AUTO_REPLY_COOLDOWN cfg <= now - get0 l (author_id m, channel_id m)
      /\ auto_reply cfg m now raw l = (<[(author_id m, channel_id m) := now]> l, true)).
Proof.
  unfold auto_reply, cooled_down.
  destruct (in_channels _ m); [|by left].
  destruct (_ || _); [|by left].
  destruct (AUTO_REPLY_COOLDOWN cfg <=? now - get0 l (author_id m, channel_id m)) eqn:E;
    [|by left].
  apply Z.leb_le in E. destruct (_ <=? AUTO_REPLY_CHANCE cfg); [by right | by left].
Qed.

(** The two cooldown tests inside [on_message]: either the handler stops before
    them, or both run on the dictionaries as they were. *)
Lemma on_message_cooldowns cfg m w st :
  let st' := fst (on_message cfg m w st) in
  let acts := snd (on_message cfg m w st) in
  (_last_react_time st' = _last_react_time st
   /\ _last_reply_time st' = _last_reply_time st
   /\ forall a, In a acts -> quiet a)
  \/ (exists a0,
        (forall a, In a a0 -> quiet a)
        /\ _last_react_time st'
           = fst (auto_react cfg m (clock w) (_last_react_time st))
        /\ _last_reply_time st'
           = fst (auto_reply cfg m (clock w) (reply_draw w) (_last_reply_time st))
        /\ acts
           = a0
             ++ (if snd (auto_react cfg m (clock w) (_last_react_time st))
                 then [AddReactions (author_id m) (channel_id m)] else [])
             ++ (if snd (auto_reply cfg m (clock w) (reply_draw w) (_last_reply_time st))
                 then [AutoReply (author_id m) (channel_id m)] else [])
             ++ [ProcessCommands m]).
Proof.
  cbv zeta. destruct (author_bot m) eqn:Hbot.
  { left. unfold on_message. rewrite Hbot. simpl. tauto. }
  rewrite on_message_unfold by done. cbv zeta.
  destruct (award_xp_frame m w st) as (Ht & Hs & Hr & Hp & Hxp).
  assert (Hq1 : forall a, In a (snd (award_xp m w st)) -> quiet a).
  { intros a Ha. by destruct (Hxp a Ha) as [(? & ? & ->)|(? & ->)]. }
  set (s1 := fst (award_xp m w st)) in *.
  destruct (trivia_check_cases m w s1)
    as [[_ ->]|[(a & k & _ & _ & _ & ->)|(a & k & _ & _ & _ & ->)]]; cbn [fst snd].
  - right. exists (snd (award_xp m w st) ++ []).
    rewrite Hr, Hp, <- !app_assoc. cbn [_last_react_time _last_reply_time].
    split; [|done]. intros x. rewrite app_nil_r. apply Hq1.
  - left. cbn [_last_react_time _last_reply_time]. split; [done|]. split; [done|].
    intros x [Hx|[<-|[<-|[]]]]%in_app_or; [by apply Hq1|done|done].
  - right. exists (snd (award_xp m w st) ++ [TriviaAnnounceFailed (author_id m)]).
    rewrite Hr, Hp, <- !app_assoc. cbn [_last_react_time _last_reply_time].
    split; [|done]. intros x [Hx|[<-|[]]]%in_app_or; [by apply Hq1|done].
Qed.

Lemma in_cooldown_actions (a0 : list action) (reacted replied : bool) m x :
  (forall a, In a a0 -> quiet a) ->
  In x (a0
        ++ (if reacted then [AddReactions (author_id m) (channel_id m)] else [])
        ++ (if replied then [AutoReply (author_id m) (channel_id m)] else [])
        ++ [ProcessCommands m]) ->
  quiet x
  \/ (reacted = true /\ x = AddReactions (author_id m) (channel_id m))
  \/ (replied = true /\ x = AutoReply (author_id m) (channel_id m)).
Proof.
  intros Hq [Hx|[Hx|[Hx|[<-|[]]]%in_app_or]%in_app_or]%in_app_or.
  - left. by apply Hq.
  - destruct reacted; [|done]. destruct Hx as [<-|[]]. right. by left.
  - destruct replied; [|done]. destruct Hx as [<-|[]]. right. by right.
  - by left.
Qed.

Lemma react_step cfg st ev :
  (_last_react_time (fst (handle cfg st ev)) = _last_react_time st
   /\ forall u c, ~ In (AddReactions u c) (snd (handle cfg st ev)))
  \/ (exists m w,
        ev = MessageCreated m w
        /\ AUTO_REACT_COOLDOWN cfg
           <= clock w - get0 (_last_react_time st) (author_id m, channel_id m)
        /\ _last_react_time (fst (handle cfg st ev))
           = <[(author_id m, channel_id m) := clock w]> (_last_react_time st)).
Proof.
  destruct ev as [m w|channel asker raw]; simpl.
  2:{ left. unfold trivia_cmd. destruct (choice _ _); simpl; tauto. }
  destruct (on_message_cooldowns cfg m w st) as [(Hr & _ & Hq)|(a0 & Hq & Hr & _ & Hacts)].
  { left. split; [done|]. intros u c Hin. apply (Hq _ Hin). }
  destruct (auto_react_cases cfg m (clock w) (_last_react_time st)) as [E|[Hcool E]];
    rewrite E in Hr, Hacts; cbn [fst snd] in Hr, Hacts.
  - left. split; [done|]. intros u c Hin. rewrite Hacts in Hin.
    destruct (in_cooldown_actions a0 false _ m _ Hq Hin) as [?|[[? _]|[_ ?]]]; done.
  - right. by exists m, w.
Qed.

Lemma reply_step cfg st ev :
  (_last_reply_time (fst (handle cfg st ev)) = _last_reply_time st
   /\ forall u c, ~ In (AutoReply u c) (snd (handle cfg st ev)))
  \/ (exists m w,
        ev = MessageCreated m w
        /\ AUTO_REPLY_COOLDOWN cfg
           <= clock w - get0 (_last_reply_time st) (author_id m, channel_id m)
        /\ _last_reply_time (fst (handle cfg st ev))
           = <[(author_id m, channel_id m) := clock w]> (_last_reply_time st)).
Proof.
  destruct ev as [m w|channel asker raw]; simpl.
  2:{ left. unfold trivia_cmd. destruct (choice _ _); simpl; tauto. }
  destruct (on_message_cooldowns cfg m w st) as [(_ & Hp & Hq)|(a0 & Hq & _ & Hp & Hacts)].
  { left. split; [done|]. intros u c Hin. apply (Hq _ Hin). }
  destruct (auto_reply_cases cfg m (clock w) (reply_draw w) (_last_reply_time st))
    as [E|[Hcool E]]; rewrite E in Hp, Hacts; cbn [fst snd] in Hp, Hacts.
  - left. split; [done|]. intros u c Hin. rewrite Hacts in Hin.
    destruct (in_cooldown_actions a0 _ false m _ Hq Hin) as [?|[[_ ?]|[? _]]]; done.
  - right. by exists m, w.
Qed.

(** C8.  In any run of the dispatcher from any state, take two different
    messages of the same author in the same channel whose clock readings
    are less than the cooldown apart: reactions are added for at most one
    of them, and, with the cooldown of the replies, a reply is sent for at
    most one of them.  The two subsystems keep separate timestamps. *)
Theorem cooldown_triggers_at_most_once
    (cfg : config) (st : bot_state) (evs : list event) (i j : nat)
    (mi mj : message) (wi wj : surroundings) :
  i <> j ->
  evs !! i = Some (MessageCreated mi wi) ->
  evs !! j = Some (MessageCreated mj wj) ->
  author_id mi = author_id mj -> channel_id mi = channel_id mj ->
  let outs := snd (run cfg st evs) in
  (Z.abs (clock wi - clock wj) < AUTO_REACT_COOLDOWN cfg ->
     ~ (emitted outs i (AddReactions (author_id mi) (channel_id mi))
        /\ emitted outs j (AddReactions (author_id mj) (channel_id mj))))
  /\ (Z.abs (clock wi - clock wj) < AUTO_REPLY_COOLDOWN cfg ->
        ~ (emitted outs i (AutoReply (author_id mi) (channel_id mi))
           /\ emitted outs j (AutoReply (author_id mj) (channel_id mj)))).
Proof.
  intros Hij Hi Hj Ha Hc outs.
  assert (Hord : (i < j)%nat \/ (j < i)%nat) by lia.
  split; intros Hwin [Hfi Hfj]; destruct Hord as [Hlt|Hlt].
  - by apply (fired_twice_apart cfg _last_react_time AddReactions
                (AUTO_REACT_COOLDOWN cfg) (react_step cfg)
                evs st i j mi wi mj wj).
  - apply (fired_twice_apart cfg _last_react_time AddReactions
             (AUTO_REACT_COOLDOWN cfg) (react_step cfg)
             evs st j i mj wj mi wi); try done. lia.
  - by apply (fired_twice_apart cfg _last_reply_time AutoReply
                (AUTO_REPLY_COOLDOWN cfg) (reply_step cfg)
                evs st i j mi wi mj wj).
  - apply (fired_twice_apart cfg _last_reply_time AutoReply
             (AUTO_REPLY_COOLDOWN cfg) (reply_step cfg)
             evs st j i mj wj mi wi); try done. lia.
Qed.


(** * Further properties *)

(** ** Economy *)

Lemma xp_default u (s : users) : xp_of u s = xp (default fresh_row (s !! u)).
Proof. unfold xp_of. by destruct (s !! u). Qed.

Lemma level_default u (s : users) : level_of u s = level (default fresh_row (s !! u)).
Proof. unfold level_of. by destruct (s !! u). Qed.

(** X1.  Within SQLite's 64-bit integers, two [change_coins] calls on one
    account add up: when the account id, the two amounts, their sum and the
    balance before, between and after the calls are 64-bit integers, the
    store after the two calls is the store after one call with the sum, and
    the second call returns the balance the account then shows.  (Outside
    that range binding a parameter raises [OverflowError] and the sum is
    stored as a real number.) *)
Theorem change_coins_adds_up (s : users) (u a b : Z) :
  forallb sqlite_integer
    [u; a; b; a + b; balance u s; balance u s + a; balance u s + a + b] = true ->
  fst (change_coins u b (fst (change_coins u a s))) = fst (change_coins u (a + b) s)
  /\ snd (change_coins u b (fst (change_coins u a s))) = Returned (balance u s + a + b)
  /\ balance u (fst (change_coins u (a + b) s)) = balance u s + a + b.
Proof.
  intros _.
  rewrite !change_coins_unfold. cbn [fst snd]. rewrite lookup_insert_eq.
  rewrite (balance_default u s), balance_insert.
  destruct (decide (u = u)) as [_|?]; [|congruence].
  set (row := default fresh_row (s !! u)). cbn [default set_coins coins].
  split; [|split; [f_equal; lia | lia]].
  rewrite insert_insert_eq. f_equal. unfold set_coins, id. cbn. f_equal. lia.
Qed.

Lemma change_coins_adds_up_witness :
  fst (change_coins 1 (-30) (fst (change_coins 1 100 ∅))) = fst (change_coins 1 (100 + -30) ∅)
  /\ snd (change_coins 1 (-30) (fst (change_coins 1 100 ∅)))
     = Returned (balance 1 ∅ + 100 + -30)
  /\ balance 1 (fst (change_coins 1 (100 + -30) ∅)) = balance 1 ∅ + 100 + -30.
Proof.
  apply (change_coins_adds_up ∅ 1 100 (-30)). reflexivity.
Defined.

Lemma add_xp_balance (s : users) (u v amount : Z) :
  balance v (fst (add_xp u amount s)) = balance v s.
Proof.
  rewrite add_xp_unfold, (balance_default v s).
  destruct (int_pow_half _) as [l|]; [destruct (_ <? l)|]; cbn [fst];
    rewrite balance_insert; destruct (decide (u = v)) as [<-|Hne]; cbn;
    try done; by rewrite balance_default.
Qed.

(** X2.  The two writers keep to their columns: [add_xp] changes no balance
    and no [last_daily], [change_coins] changes no xp, level or
    [last_daily], and neither touches an account other than its own beyond
    that: [add_xp] leaves the xp and the level of every other account as
    they were, [change_coins] the balance of every other account. *)
Theorem writers_keep_to_their_columns (s : users) (u v amount : Z) :
  (balance v (fst (add_xp u amount s)) = balance v s
   /\ last_daily_of v (fst (add_xp u amount s)) = last_daily_of v s
   /\ (u <> v -> xp_of v (fst (add_xp u amount s)) = xp_of v s)
   /\ (u <> v -> level_of v (fst (add_xp u amount s)) = level_of v s))
  /\ (xp_of v (fst (change_coins u amount s)) = xp_of v s
      /\ level_of v (fst (change_coins u amount s)) = level_of v s
      /\ last_daily_of v (fst (change_coins u amount s)) = last_daily_of v s
      /\ (u <> v -> balance v (fst (change_coins u amount s)) = balance v s)).
Proof.
  split.
  - enough (H3 : balance v (fst (add_xp u amount s)) = balance v s
                 /\ last_daily_of v (fst (add_xp u amount s)) = last_daily_of v s
                 /\ (u <> v -> xp_of v (fst (add_xp u amount s)) = xp_of v s)).
    { destruct H3 as (Hb & Hd & Hx). repeat split; try done.
      intros Hne. unfold level_of. by rewrite add_xp_other. }
    rewrite add_xp_unfold.
    rewrite (balance_default v s), (last_daily_default v s), (xp_default v s).
    destruct (int_pow_half _) as [l|]; [destruct (_ <? l)|]; cbn [fst];
      rewrite balance_insert, last_daily_insert; unfold xp_of;
      rewrite lookup_insert;
      destruct (decide (u = v)) as [<-|Hne]; cbn;
      rewrite <- ?balance_default, <- ?last_daily_default;
      (split; [try done|split; [try done|try done]]);
      try (by rewrite balance_default); try (by rewrite last_daily_default);
      intros _; by destruct (s !! v).
  - rewrite change_coins_unfold. cbn [fst].
    unfold xp_of, level_of. rewrite last_daily_insert, balance_insert, !lookup_insert.
    rewrite (last_daily_default v s).
    destruct (decide (u = v)) as [<-|Hne]; cbn.
    + repeat split; try (by destruct (s !! u)); done.
    + repeat split; try (by destruct (s !! v)); try done;
        by rewrite last_daily_default.
Qed.

Lemma solvent_balance (s : users) : solvent s <-> forall u, 0 <= balance u s.
Proof.
  unfold solvent, balance, get_user. split.
  - intros H u. destruct (s !! u) as [row|] eqn:E; [by apply (H u)|lia].
  - intros H u row E. specialize (H u). by rewrite E in H.
Qed.

(** What [cmd_give] does to every balance, sender and recipient being
    distinct or not. *)
Lemma cmd_give_balances (s : users) (author member amount v : Z) :
  (0 < amount <= balance author s
   /\ snd (cmd_give author member amount s) = Returned Gave
   /\ balance v (fst (cmd_give author member amount s))
      = balance v s - (if decide (author = v) then amount else 0)
                    + (if decide (member = v) then amount else 0))
  \/ (~ 0 < amount <= balance author s
      /\ snd (cmd_give author member amount s) <> Returned Gave
      /\ fst (cmd_give author member amount s) = s).
Proof.
  unfold cmd_give.
  pose proof (balance_default author s) as Hba.
  destruct (amount <=? 0) eqn:Hpos; [apply Z.leb_le in Hpos | apply Z.leb_gt in Hpos].
  { right. cbn. split; [lia|done]. }
  unfold get_user. destruct (s !! author) as [row|] eqn:Hrow; cbn in Hba.
  2:{ right. cbn. split; [lia|done]. }
  destruct (coins row <? amount) eqn:Hlt; [apply Z.ltb_lt in Hlt | apply Z.ltb_ge in Hlt].
  { right. cbn. split; [lia|done]. }
  left. rewrite change_coins_unfold. cbv zeta. rewrite change_coins_unfold. cbv zeta.
  cbn [fst snd]. split; [lia|]. split; [done|].
  rewrite Hrow. cbn [default]. rewrite !balance_insert.
  destruct (decide (member = v)) as [<-|Hmv].
  - rewrite lookup_insert.
    destruct (decide (author = member)) as [->|Hne]; cbn.
    + rewrite Hba. unfold id. lia.
    + rewrite (balance_default member s). lia.
  - destruct (decide (author = v)) as [<-|Hav]; cbn; unfold id; lia.
Qed.

(** What [cmd_daily] does to every balance. *)
Lemma cmd_daily_balances (s : users) (author now raw v : Z) :
  exists reward, 0 <= reward
    /\ balance v (fst (cmd_daily author now raw s))
       = balance v s + (if decide (author = v) then reward else 0).
Proof.
  unfold cmd_daily, get_user. rewrite ensure_user_lookup.
  set (row := default fresh_row (s !! author)).
  assert (Hens : balance v (ensure_user author s) = balance v s).
  { unfold ensure_user. destruct (s !! author) eqn:E; [done|].
    rewrite balance_insert. destruct (decide (author = v)) as [<-|]; [|done].
    unfold balance, get_user. by rewrite E. }
  destruct (now - or_zero (last_daily row) <? 24 * 3600).
  { exists 0. cbn [fst]. rewrite Hens. split; [lia|]. destruct (decide _); lia. }
  rewrite change_coins_unfold. cbv beta iota zeta. cbn [fst snd].
  rewrite ensure_user_lookup. fold row. change (default fresh_row (Some row)) with row.
  exists (randint 50 150 raw).
  pose proof (randint_range 50 150 raw ltac:(lia)). split; [lia|].
  unfold balance, get_user. destruct (decide (author = v)) as [<-|Hne].
  - rewrite lookup_alter_eq, lookup_insert_eq. cbn.
    unfold row. rewrite <- balance_default. unfold balance, get_user.
    destruct (s !! author); cbn; lia.
  - rewrite lookup_alter_ne, lookup_insert_ne by done.
    fold (get_user v (ensure_user author s)). fold (balance v (ensure_user author s)).
    rewrite Hens. unfold balance, get_user. lia.
Qed.

(** X3.  No sequence of [give], [daily] and chat messages puts an account
    in debt: a store in which every balance is at least 0 stays so. *)
Theorem economy_keeps_balances_nonnegative (cs : list economy_command) (s : users) :
  solvent s -> solvent (economy_run cs s).
Proof.
  revert s. induction cs as [|c cs IH]; intros s Hs; [done|].
  unfold economy_run. cbn [fold_left]. apply IH.
  apply solvent_balance. intros v.
  pose proof (proj1 (solvent_balance s) Hs) as Hpos.
  destruct c as [a m n|a now raw|a raw]; cbn [economy_step].
  - destruct (cmd_give_balances s a m n v) as [(Hok & _ & ->)|(_ & _ & ->)];
      [|by apply Hpos].
    pose proof (Hpos v). pose proof (Hpos a).
    destruct (decide (a = v)) as [->|]; destruct (decide (m = v)); lia.
  - destruct (cmd_daily_balances s a now raw v) as (r & Hr & ->).
    pose proof (Hpos v). destruct (decide _); lia.
  - rewrite add_xp_balance. apply Hpos.
Qed.


(** X4.  Giving coins to oneself never changes a balance: the command
    succeeds exactly when the amount is positive and covered, and then debit
    and credit cancel. *)
Theorem give_to_oneself_changes_nothing (s : users) (u amount v : Z) :
  balance v (fst (cmd_give u u amount s)) = balance v s
  /\ (snd (cmd_give u u amount s) = Returned Gave <-> 0 < amount <= balance u s).
Proof.
  destruct (cmd_give_balances s u u amount v) as [(Hok & Hr & ->)|(Hno & Hr & ->)].
  - split; [destruct (decide (u = v)); lia | by split].
  - split; [done | clear -Hno Hr; tauto].
Qed.

Lemma ensure_user_present u row (s : users) :
  s !! u = Some row -> ensure_user u s = s.
Proof. intros H. unfold ensure_user. by rewrite H. Qed.

(** The two ways [cmd_daily] can go. *)
Lemma cmd_daily_cases (s : users) (author now raw : Z) :
  (now - last_daily_of author s < 86400
   /\ cmd_daily author now raw s = (ensure_user author s, Returned AlreadyClaimed))
  \/ (86400 <= now - last_daily_of author s
      /\ cmd_daily author now raw s
         = (<[author := set_last_daily now
                          (set_coins (fun c => c + randint 50 150 raw)
                             (default fresh_row (s !! author)))]> (ensure_user author s),
            Returned (Claimed (randint 50 150 raw)))).
Proof.
  unfold cmd_daily, get_user. rewrite ensure_user_lookup.
  rewrite (last_daily_default author s).
  set (row := default fresh_row (s !! author)).
  rewrite or_zero_id. change (24 * 3600) with 86400.
  destruct (now - last_daily row <? 86400) eqn:Hlt;
    [apply Z.ltb_lt in Hlt; by left | apply Z.ltb_ge in Hlt; right].
  split; [done|]. rewrite change_coins_unfold. cbv beta iota zeta. cbn [fst snd].
  rewrite ensure_user_lookup. fold row. change (default fresh_row (Some row)) with row.
  f_equal. apply map_eq. intros v. destruct (decide (author = v)) as [<-|Hne].
  - by rewrite lookup_alter_eq, !lookup_insert_eq.
  - by rewrite lookup_alter_ne, !lookup_insert_ne.
Qed.

(** X5.  After an accepted daily claim at time [now], a further claim of
    the same user is rejected, and changes nothing, as long as less than
    86400 seconds have passed, and is accepted again from exactly 86400
    seconds on. *)
Theorem daily_once_per_day (s : users) (author now raw now' raw' reward : Z) :
  snd (cmd_daily author now raw s) = Returned (Claimed reward) ->
  let s1 := fst (cmd_daily author now raw s) in
  (now' - now < 86400 ->
     cmd_daily author now' raw' s1 = (s1, Returned AlreadyClaimed))
  /\ (86400 <= now' - now ->
        exists reward', snd (cmd_daily author now' raw' s1) = Returned (Claimed reward')
                        /\ balance author (fst (cmd_daily author now' raw' s1))
                           = balance author s1 + reward').
Proof.
  intros Hacc. cbv zeta.
  destruct (cmd_daily_cases s author now raw) as [[_ E]|[_ E]];
    rewrite E in Hacc |- *; [done|]. cbn [fst snd] in *. clear Hacc.
  set (row1 := set_last_daily now _). set (s1 := <[author := row1]> _).
  assert (Hrow : s1 !! author = Some row1) by apply lookup_insert_eq.
  assert (Hlast : last_daily_of author s1 = now)
    by (unfold last_daily_of; by rewrite Hrow).
  destruct (cmd_daily_cases s1 author now' raw') as [[Hlt E']|[Hge E']];
    rewrite Hlast in *; rewrite E'; cbn [fst snd]; split; try lia.
  - intros _. by rewrite (ensure_user_present _ _ _ Hrow).
  - intros _. exists (randint 50 150 raw'). split; [done|].
    rewrite balance_insert. destruct (decide (author = author)); [|done].
    rewrite Hrow. cbn. unfold balance, get_user. rewrite Hrow. done.
Qed.

Lemma daily_once_per_day_witness :
  let s1 := fst (cmd_daily 1 100000 7 ∅) in
  (100500 - 100000 < 86400 ->
     cmd_daily 1 100500 3 s1 = (s1, Returned AlreadyClaimed))
  /\ (86400 <= 100500 - 100000 ->
        exists reward', snd (cmd_daily 1 100500 3 s1) = Returned (Claimed reward')
                        /\ balance 1 (fst (cmd_daily 1 100500 3 s1))
                           = balance 1 s1 + reward').
Proof.
  apply (daily_once_per_day ∅ 1 100000 7 100500 3 57). reflexivity.
Defined.



(** ** The dispatcher, further *)

Lemma add_xp_xp (s : users) (u v amount : Z) :
  xp_of v (fst (add_xp u amount s))
  = xp_of v s + (if decide (u = v) then amount else 0).
Proof.
  rewrite add_xp_unfold, (xp_default v s).
  destruct (int_pow_half _) as [l|]; [destruct (_ <? l)|]; cbn [fst];
    unfold xp_of; rewrite lookup_insert;
    destruct (decide (u = v)) as [<-|Hne]; cbn; try lia;
    destruct (s !! v); cbn; lia.
Qed.

Lemma trivia_check_users m w st :
  db_users (fst (fst (trivia_check m w st))) = db_users st.
Proof.
  destruct (trivia_check_cases m w st)
    as [[_ ->]|[(a & k & _ & _ & _ & ->)|(a & k & _ & _ & _ & ->)]]; done.
Qed.

Lemma on_message_users cfg m w st :
  author_bot m = false ->
  db_users (fst (on_message cfg m w st))
  = fst (add_xp (author_id m) (randint 1 3 (xp_draw w)) (db_users st)).
Proof.
  intros Hbot. rewrite on_message_unfold by done. cbv zeta.
  assert (Hxp : db_users (fst (award_xp m w st))
                = fst (add_xp (author_id m) (randint 1 3 (xp_draw w)) (db_users st))).
  { unfold award_xp. by destruct (add_xp _ _ _) as [u [[l|]|e]]. }
  destruct (snd (trivia_check m w (fst (award_xp m w st)))); cbn [fst db_users];
    by rewrite trivia_check_users.
Qed.

(** X7.  Every message that is not from a bot raises its author's xp by 1,
    2 or 3, whatever else the handler does with it, and changes nobody
    else's xp and no balance; a message from a bot changes nothing and
    emits nothing. *)
Theorem message_awards_xp (cfg : config) (m : message) (w : surroundings) (st : bot_state) :
  (author_bot m = false ->
     exists d, 1 <= d <= 3
       /\ xp_of (author_id m) (db_users (fst (on_message cfg m w st)))
          = xp_of (author_id m) (db_users st) + d
       /\ (forall v, v <> author_id m ->
             xp_of v (db_users (fst (on_message cfg m w st))) = xp_of v (db_users st))
       /\ (forall v, balance v (db_users (fst (on_message cfg m w st)))
                     = balance v (db_users st)))
  /\ (author_bot m = true -> on_message cfg m w st = (st, [])).
Proof.
  split; intros Hbot.
  - rewrite on_message_users by done. exists (randint 1 3 (xp_draw w)).
    split; [apply randint_range; lia|]. split; [|split].
    + rewrite add_xp_xp. by destruct (decide (author_id m = author_id m)).
    + intros v Hv. rewrite add_xp_xp. destruct (decide (author_id m = v)); [congruence|lia].
    + intros v. apply add_xp_balance.
  - unfold on_message. by rewrite Hbot.
Qed.

(** X8.  For a message that is not from a bot, prefix commands are
    dispatched exactly once, as the handler's last action, on every path:
    after a trivia hit, after a failed announcement, with or without
    reactions and reply. *)
Theorem commands_dispatched_exactly_once
    (cfg : config) (m : message) (w : surroundings) (st : bot_state) :
  author_bot m = false ->
  exists before,
    snd (on_message cfg m w st) = before ++ [ProcessCommands m]
    /\ forall m', ~ In (ProcessCommands m') before.
Proof.
  intros Hbot. rewrite on_message_unfold by done. cbv zeta.
  destruct (award_xp_frame m w st) as (_ & _ & _ & _ & Hxp).
  assert (Hq1 : forall m', ~ In (ProcessCommands m') (snd (award_xp m w st))).
  { intros m' Ha. by destruct (Hxp _ Ha) as [(? & ? & ?)|(? & ?)]. }
  set (s1 := fst (award_xp m w st)). set (a1 := snd (award_xp m w st)) in *.
  assert (Hflags : forall (b c : bool) (x y : action) m',
            (forall m0, x <> ProcessCommands m0) -> (forall m0, y <> ProcessCommands m0) ->
            ~ In (ProcessCommands m') ((if b then [x] else []) ++ (if c then [y] else []))).
  { intros b c x y m' Hx Hy. destruct b, c; cbn; intros H;
      repeat (destruct H as [H|H]; [first [by apply (Hx m') | by apply (Hy m')]|]); done. }
  destruct (trivia_check_cases m w s1)
    as [[_ ->]|[(a & k & _ & _ & _ & ->)|(a & k & _ & _ & _ & ->)]]; cbn [fst snd].
  - eexists (a1 ++ (if snd (auto_react cfg m (clock w) (_last_react_time s1))
                    then [AddReactions (author_id m) (channel_id m)] else [])
                ++ (if snd (auto_reply cfg m (clock w) (reply_draw w) (_last_reply_time s1))
                    then [AutoReply (author_id m) (channel_id m)] else [])).
    split; [by rewrite <- !app_assoc|].
    intros m' [H|H]%in_app_or; [by apply (Hq1 m')|]. by apply Hflags in H.
  - exists (a1 ++ [TriviaCorrect (author_id m) (score s1 (author_id m) + 1)]).
    split; [by rewrite <- app_assoc|].
    intros m' [H|[?|[]]]%in_app_or; [by apply (Hq1 m') | done].
  - cbn [_last_react_time _last_reply_time].
    eexists (a1 ++ [TriviaAnnounceFailed (author_id m)]
                ++ (if snd (auto_react cfg m (clock w) (_last_react_time s1))
                    then [AddReactions (author_id m) (channel_id m)] else [])
                ++ (if snd (auto_reply cfg m (clock w) (reply_draw w) (_last_reply_time s1))
                    then [AutoReply (author_id m) (channel_id m)] else [])).
    split; [by rewrite <- !app_assoc|].
    intros m' [H|[[?|[]]|H]%in_app_or]%in_app_or; [by apply (Hq1 m')|done|].
    by apply Hflags in H.
Qed.


Lemma handle_score cfg st ev u :
  score st u <= score (fst (handle cfg st ev)) u <= score st u + 1.
Proof.
  destruct ev as [m w|channel asker raw]; cbn [handle fst].
  2:{ unfold trivia_cmd, score. destruct (choice _ _); cbn [trivia_scores]; lia. }
  destruct (author_bot m) eqn:Hbot.
  { unfold on_message. rewrite Hbot. cbn [fst]. lia. }
  destruct (on_message_trivia cfg m w st Hbot)
    as [(_ & _ & Hs)|(a & k & _ & _ & Hs & _)]; unfold score at 2 3; rewrite Hs.
  - fold (score st u). lia.
  - rewrite score_insert. destruct (decide (author_id m = u)) as [<-|]; lia.
Qed.

(** X9.  Trivia scores only grow, by at most one point per handled event:
    over any run no score goes down, and none gains more points than events
    were handled. *)
Theorem trivia_scores_only_grow
    (cfg : config) (st : bot_state) (evs : list event) (u : Z) :
  score st u <= score (fst (run cfg st evs)) u
  <= score st u + Z.of_nat (length evs).
Proof.
  revert st. induction evs as [|ev evs IH]; intros st.
  - cbn. lia.
  - rewrite run_cons. cbn [fst length].
    pose proof (handle_score cfg st ev u). specialize (IH (fst (handle cfg st ev))). lia.
Qed.

Lemma run_emitted cfg st evs i a :
  emitted (snd (run cfg st evs)) i a ->
  exists st0 ev, In a (snd (handle cfg st0 ev)).
Proof.
  revert st i. induction evs as [|ev evs IH]; intros st i (acts & Hl & Hin); [done|].
  rewrite run_cons in Hl. cbn [snd] in Hl. destruct i as [|i]; cbn in Hl.
  - injection Hl as <-. eauto.
  - apply (IH (fst (handle cfg st ev)) i). by exists acts.
Qed.

Lemma handle_emits_reply cfg st ev u c :
  In (AutoReply u c) (snd (handle cfg st ev)) ->
  exists m w l, ev = MessageCreated m w
    /\ snd (auto_reply cfg m (clock w) (reply_draw w) l) = true.
Proof.
  destruct ev as [m w|? ? ?]; cbn [handle snd]; [|done]. intros Hin.
  destruct (on_message_cooldowns cfg m w st) as [(_ & _ & Hq)|(a0 & Hq & _ & _ & Hacts)].
  { by destruct (Hq _ Hin). }
  rewrite Hacts in Hin.
  destruct (in_cooldown_actions a0 _ _ m _ Hq Hin) as [?|[[_ ?]|[? _]]]; [done|done|].
  eauto.
Qed.

Lemma handle_emits_react cfg st ev u c :
  In (AddReactions u c) (snd (handle cfg st ev)) ->
  exists m w l, ev = MessageCreated m w /\ snd (auto_react cfg m (clock w) l) = true.
Proof.
  destruct ev as [m w|? ? ?]; cbn [handle snd]; [|done]. intros Hin.
  destruct (on_message_cooldowns cfg m w st) as [(_ & _ & Hq)|(a0 & Hq & _ & _ & Hacts)].
  { by destruct (Hq _ Hin). }
  rewrite Hacts in Hin.
  destruct (in_cooldown_actions a0 _ _ m _ Hq Hin) as [?|[[? _]|[_ ?]]]; [done| |done].
  eauto.
Qed.

(** X10.  A subsystem without configured channels is off: with an empty
    channel list no run ever adds reactions, respectively sends a reply; and
    a reply chance of 0 or less switches the replies off as well. *)
Theorem unconfigured_subsystems_stay_silent
    (cfg : config) (st : bot_state) (evs : list event) (i : nat) (u c : Z) :
  (AUTO_REACT_CHANNEL_IDS cfg = [] ->
     ~ emitted (snd (run cfg st evs)) i (AddReactions u c))
  /\ (AUTO_REPLY_CHANNEL_IDS cfg = [] \/ AUTO_REPLY_CHANCE cfg <= 0 ->
        ~ emitted (snd (run cfg st evs)) i (AutoReply u c)).
Proof.
  split.
  - intros Hoff (st0 & ev & (m & w & l & _ & Hfire)%handle_emits_react)%run_emitted.
    unfold auto_react in Hfire. by rewrite Hoff in Hfire.
  - intros Hoff (st0 & ev & (m & w & l & _ & Hfire)%handle_emits_reply)%run_emitted.
    unfold auto_reply in Hfire. destruct Hoff as [Hoff|Hoff].
    + by rewrite Hoff in Hfire.
    + pose proof (randint_range 1 100 (reply_draw w) ltac:(lia)).
      destruct (in_channels _ m); [|done]. destruct (_ || _); [|done].
      destruct (cooled_down _ _ _ _); [|done].
      destruct (randint 1 100 (reply_draw w) <=? AUTO_REPLY_CHANCE cfg) eqn:E; [|done].
      apply Z.leb_le in E. lia.
Qed.

(** With a reply chance of 100 or more the block replies whenever the
    channel, the keywords and the cooldown allow it. *)
Lemma auto_reply_full_chance
    (cfg : config) (m : message) (now raw : Z) (last : gmap (Z * Z) Z) :
  100 <= AUTO_REPLY_CHANCE cfg ->
  in_channels (AUTO_REPLY_CHANNEL_IDS cfg) m = true ->
  AUTO_REPLY_KEYWORDS cfg = [] \/ any_keyword (AUTO_REPLY_KEYWORDS cfg) m = true ->
  AUTO_REPLY_COOLDOWN cfg <= now - get0 last (author_id m, channel_id m) ->
  auto_reply cfg m now raw last = (<[(author_id m, channel_id m) := now]> last, true).
Proof.
  intros Hchance Hch Hkw Hcool. unfold auto_reply, cooled_down. rewrite Hch.
  assert (Hk : (match AUTO_REPLY_KEYWORDS cfg with [] => true | _ :: _ => false end
                || any_keyword (AUTO_REPLY_KEYWORDS cfg) m) = true).
  { destruct Hkw as [-> | ->]; [done | by rewrite orb_true_r]. }
  rewrite Hk. apply Z.leb_le in Hcool. rewrite Hcool.
  pose proof (randint_range 1 100 raw ltac:(lia)).
  destruct (randint 1 100 raw <=? AUTO_REPLY_CHANCE cfg) eqn:E; [done|].
  apply Z.leb_gt in E. lia.
Qed.

(** X11.  A reply chance of 100 or more takes the dice out.  A message
    that is not from a bot and is not a correct trivia answer whose
    announcement is sent (that one ends the handler early), written in a
    configured channel and matching a keyword (or any such message when no
    keywords are set), gets an automatic reply whenever the cooldown has
    passed, whatever the draw, and the time of the reply is recorded. *)
Theorem full_chance_always_replies
    (cfg : config) (m : message) (w : surroundings) (st : bot_state) :
  author_bot m = false ->
  (forall answer asker,
     active_trivia st !! channel_id m = Some (answer, asker) ->
     lower (strip (content m)) = answer -> announce_sent w = false) ->
  100 <= AUTO_REPLY_CHANCE cfg ->
  in_channels (AUTO_REPLY_CHANNEL_IDS cfg) m = true ->
  AUTO_REPLY_KEYWORDS cfg = [] \/ any_keyword (AUTO_REPLY_KEYWORDS cfg) m = true ->
  AUTO_REPLY_COOLDOWN cfg
  <= clock w - get0 (_last_reply_time st) (author_id m, channel_id m) ->
  In (AutoReply (author_id m) (channel_id m)) (snd (on_message cfg m w st))
  /\ _last_reply_time (fst (on_message cfg m w st))
     = <[(author_id m, channel_id m) := clock w]> (_last_reply_time st).
Proof.
  intros Hbot Htrivia Hchance Hch Hkw Hcool.
  rewrite on_message_unfold by done. cbv zeta.
  destruct (award_xp_frame m w st) as (Hact & _ & _ & Hlast & _).
  set (s1 := fst (award_xp m w st)) in *.
  assert (Hfire : forall last', last' = _last_reply_time st ->
            auto_reply cfg m (clock w) (reply_draw w) last'
            = (<[(author_id m, channel_id m) := clock w]> (_last_reply_time st), true)).
  { intros last' ->. by apply auto_reply_full_chance. }
  destruct (trivia_check_cases m w s1)
    as [[_ ->]|[(a & k & Hs & Ha & Hsent & _)|(a & k & _ & _ & _ & ->)]]; cbn [fst snd].
  - rewrite (Hfire _ Hlast). cbn [fst snd _last_reply_time]. split; [|done].
    rewrite !in_app_iff. do 3 right. left. by left.
  - rewrite Hact in Hs. rewrite (Htrivia a k Hs Ha) in Hsent. done.
  - cbn [_last_reply_time]. rewrite (Hfire _ Hlast). cbn [fst snd _last_reply_time].
    split; [|done].
    rewrite !in_app_iff. cbn [In]. do 3 right. left. by left.
Qed.


(** ** Reactions to a message *)

Lemma try_add_reactions_from_trace answer emojis :
  forall i,
    let trace := try_add_reactions_from answer i emojis in
    map fst trace = take (length trace) emojis
    /\ (forall k e o, trace !! k = Some (e, o) -> o = answer (i + k)%nat)
    /\ (forall k e, trace !! k = Some (e, Forbidden) -> length trace = S k)
    /\ ((length trace < length emojis)%nat ->
        exists e, last trace = Some (e, Forbidden)).
Proof.
  induction emojis as [|e rest IH]; intros i; cbn zeta.
  { cbn. repeat split; try done. lia. }
  destruct (IH (S i)) as (IH1 & IH2 & IH3 & IH4).
  assert (Hgo : answer i <> Forbidden ->
            try_add_reactions_from answer i (e :: rest)
            = (e, answer i) :: try_add_reactions_from answer (S i) rest).
  { cbn. by destruct (answer i). }
  assert (Hdec : answer i = Forbidden \/ answer i <> Forbidden)
    by (destruct (answer i); auto).
  destruct Hdec as [Hf|Hf].
  - cbn. rewrite Hf. cbn. repeat split.
    + intros [|k] e' o; cbn; [|done]. intros [= _ <-]. by rewrite Nat.add_0_r.
    + by intros [|k] e'.
    + eauto.
  - rewrite (Hgo Hf). cbn [map fst length take]. repeat split.
    + by rewrite IH1.
    + intros [|k] e' o; cbn.
      * intros [= _ <-]. by rewrite Nat.add_0_r.
      * intros Hk. rewrite (IH2 _ _ _ Hk). f_equal. lia.
    + intros [|k] e'; cbn.
      * intros [= _ Hk]. by rewrite Hk in Hf.
      * intros Hk. by rewrite (IH3 _ _ Hk).
    + intros Hlen. destruct IH4 as [e' He']; [lia|]. exists e'.
      destruct (try_add_reactions_from answer (S i) rest); [done|]. done.
Qed.

(** X12.  [try_add_reactions] goes through the emojis in order and gives up
    at the first [Forbidden], and only there: the attempts are a prefix of
    the emoji list, the [k]-th attempt gets the platform's [k]-th answer, a
    [Forbidden] attempt is the last one, and when emojis are left over the
    last attempt was [Forbidden].  Any other failure costs only its own
    emoji. *)
Theorem reactions_stop_at_first_forbidden
    (answer : nat -> reaction_outcome) (emojis : list string) :
  let trace := try_add_reactions answer emojis in
  map fst trace = take (length trace) emojis
  /\ (forall k e o, trace !! k = Some (e, o) -> o = answer k)
  /\ (forall k e, trace !! k = Some (e, Forbidden) -> length trace = S k)
  /\ ((length trace < length emojis)%nat ->
      exists e, last trace = Some (e, Forbidden)).
Proof.
  exact (try_add_reactions_from_trace answer emojis 0%nat).
Qed.

(** ** Settings read from the environment *)

(** Case analysis over the 256 code points. *)
Ltac by_code_points c :=
  destruct c as [[] [] [] [] [] [] [] []]; vm_compute; intuition congruence.

Lemma space_not_digit c :
  is_space c = true ->
  is_unicode_digit c = false /\ (int_filler c = true -> is_int_space c = true).
Proof. by_code_points c. Qed.

Lemma unicode_digit_plain c :
  is_unicode_digit c = true -> is_digit c = true \/ int_filler c = true ->
  is_digit c = true.
Proof. by_code_points c. Qed.

Lemma int_space_is_space c : is_int_space c = true -> is_space c = true.
Proof. by_code_points c. Qed.

Lemma lower_char_idem c : lower_char (lower_char c) = lower_char c.
Proof. by_code_points c. Qed.

Lemma lower_char_space c : is_space (lower_char c) = is_space c.
Proof. by_code_points c. Qed.

Lemma lower_char_comma c : lower_char c = ","%char -> c = ","%char.
Proof. by_code_points c. Qed.

Lemma chars_app (a b : string) : chars (a ++ b)%string = chars a ++ chars b.
Proof.
  induction a as [|c a IH]; [done|].
  rewrite append_cons, !chars_cons, IH. done.
Qed.

Lemma all_chars_forall p s :
  all_chars p s = true <-> forall c, In c (chars s) -> p c = true.
Proof.
  induction s as [|c s IH]; cbn [all_chars].
  - split; [intros _ c []|done].
  - rewrite chars_cons, andb_true_iff, IH. split.
    + intros [Hc Hs] d [<-|Hd]; auto.
    + intros H. split; [apply H; by left|intros d Hd; apply H; by right].
Qed.

Lemma all_blank_all_chars blank s : all_blank blank s = all_chars blank s.
Proof. induction s as [|c s IH]; [done|]. cbn. by rewrite IH. Qed.

Lemma all_digits_all_chars s : all_digits s = all_chars is_digit s.
Proof. induction s as [|c s IH]; [done|]. cbn. by rewrite IH. Qed.

Lemma decimal_value_nonneg s :
  forall acc, all_digits s = true -> 0 <= acc -> 0 <= decimal_value acc s.
Proof.
  induction s as [|c s IH]; intros acc Hd Hacc; cbn; [done|].
  cbn in Hd. apply andb_true_iff in Hd as [Hc Hs]. apply IH; [done|].
  unfold is_digit in Hc. apply andb_true_iff in Hc as [Hc _]. lia.
Qed.

(** The text around its stripped core. *)
Lemma strip_split s :
  exists lead trail,
    s = (lead ++ strip s ++ trail)%string
    /\ all_blank is_space lead = true /\ all_blank is_space trail = true.
Proof.
  destruct (lstrip_split is_space s) as (lead & Hs & Hlead).
  destruct (rstrip_split is_space (lstrip_by is_space s)) as (trail & Hl & Htrail).
  exists lead, trail. unfold strip, strip_by. by rewrite <- Hl.
Qed.

(** A piece that passes [x.strip().isdigit()] and that [int] converts is a
    run of ASCII digits between blanks, and [int] reads it in base ten. *)
Lemma py_int_of_digit_piece x v :
  isdigit (strip x) = true -> py_int x = Returned v ->
  all_digits (strip x) = true /\ v = decimal_value 0 (strip x).
Proof.
  intros Hd Hv.
  destruct (py_int_chars _ _ Hv) as [Hchars _].
  destruct (strip_split x) as (lead & trail & Hx & Hlead & Htrail).
  remember (strip x) as t eqn:Ht. clear Ht.
  destruct t as [|c r]; [done|]. cbn [isdigit] in Hd.
  rewrite all_blank_all_chars in Hlead, Htrail.
  assert (Hin : forall d, In d (chars lead) \/ In d (chars (String c r)) \/ In d (chars trail) ->
                          is_digit d = true \/ int_filler d = true).
  { intros d Hd'. apply Hchars. rewrite Hx, !chars_app, !in_app_iff. clear -Hd'. tauto. }
  assert (Hlead' : all_blank is_int_space lead = true).
  { rewrite all_blank_all_chars. apply all_chars_forall. intros d Hd'.
    pose proof (proj1 (all_chars_forall _ _) Hlead d Hd') as Hsp.
    destruct (space_not_digit d Hsp) as [Hnd Hf].
    destruct (Hin d (or_introl Hd')) as [Hdig|Hfil]; [|by apply Hf].
    unfold is_unicode_digit in Hnd. by rewrite Hdig in Hnd. }
  assert (Htrail' : all_blank is_int_space trail = true).
  { rewrite all_blank_all_chars. apply all_chars_forall. intros d Hd'.
    pose proof (proj1 (all_chars_forall _ _) Htrail d Hd') as Hsp.
    destruct (space_not_digit d Hsp) as [Hnd Hf].
    destruct (Hin d (or_intror (or_intror Hd'))) as [Hdig|Hfil]; [|by apply Hf].
    unfold is_unicode_digit in Hnd. by rewrite Hdig in Hnd. }
  assert (Hcore : all_digits (String c r) = true).
  { rewrite all_digits_all_chars. apply all_chars_forall. intros d Hd'.
    apply unicode_digit_plain; [|apply Hin; by right; left].
    by apply (proj1 (all_chars_forall _ _) Hd). }
  split; [done|].
  assert (Hc : is_digit c = true) by (cbn in Hcore; by apply andb_true_iff in Hcore as [? _]).
  assert (Hstrip : strip_by is_int_space x = String c r).
  { rewrite Hx. unfold strip_by. rewrite lstrip_app_blank by done.
    rewrite append_cons. cbn [lstrip_by]. rewrite (digit_not_space c Hc).
    rewrite <- append_cons, rstrip_app_blank by done.
    apply rstrip_no_blank. by apply all_digits_no_blank. }
  unfold py_int in Hv. rewrite Hstrip in Hv.
  destruct (digit_not_sign c Hc) as [-> ->] in Hv.
  rewrite digits_value_all_digits in Hv by done.
  destruct (MAX_STR_DIGITS <? _); [done|].
  injection Hv as <-. change (decimal_value 0 (String c r))
    with (decimal_value (10 * 0 + (code c - 48)) r). lia.
Qed.

Lemma py_int_raises x e : py_int x = Raised e -> e = ValueError.
Proof.
  unfold py_int. destruct (strip_by _ _) as [|c r].
  - destruct (digits_value _ _ _); [destruct (_ <? _)|]; congruence.
  - destruct (Ascii.eqb c "+"); [|destruct (Ascii.eqb c "-")];
      (destruct (digits_value _ _ _); [destruct (_ <? _)|]); congruence.
Qed.

Lemma int_each_returned xs ids :
  int_each xs = Returned ids -> Forall2 (fun x v => py_int x = Returned v) xs ids.
Proof.
  revert ids. induction xs as [|x xs IH]; intros ids; cbn.
  - intros [= <-]. constructor.
  - destruct (py_int x) as [v|] eqn:Hx; [|done].
    destruct (int_each xs) as [vs|]; [|done]. intros [= <-].
    constructor; [done|]. by apply IH.
Qed.

Lemma int_each_raised xs x :
  In x xs -> py_int x = Raised ValueError -> int_each xs = Raised ValueError.
Proof.
  induction xs as [|y xs IH]; [done|]. intros [->|Hin] Hx; cbn.
  - by rewrite Hx.
  - destruct (py_int y) as [v|e] eqn:Hy.
    + by rewrite (IH Hin Hx).
    + by rewrite (py_int_raises _ _ Hy).
Qed.

(** X13.  When the channel setting (a text of code points below 256) is
    accepted, every id in it is the number that a comma-separated piece
    spells in ASCII digits once the blanks around it are taken off, in the
    order of the pieces; so no id is negative, and pieces that are not
    digits are passed over. *)
Theorem channel_ids_are_plain_numbers (setting : string) (ids : list Z) :
  parse_channel_ids setting = Returned ids ->
  let pieces := List.filter (fun x => isdigit (strip x)) (str_split "," setting) in
  ids = map (fun x => decimal_value 0 (strip x)) pieces
  /\ Forall (fun x => all_digits (strip x) = true) pieces
  /\ Forall (fun id => 0 <= id) ids.
Proof.
  unfold parse_channel_ids. intros H%int_each_returned. cbn zeta.
  assert (Hp : Forall (fun x => isdigit (strip x) = true)
                 (List.filter (fun x => isdigit (strip x)) (str_split "," setting))).
  { apply List.Forall_forall. by intros x [_ ?]%filter_In. }
  induction H as [|x v xs vs Hx _ IH]; [by repeat constructor|].
  apply Forall_cons in Hp as [Hd Hp]. destruct (IH Hp) as (-> & Hds & Hpos).
  destruct (py_int_of_digit_piece x v Hd Hx) as [Hall ->].
  split; [done|]. split; constructor; try done.
  by apply decimal_value_nonneg.
Qed.

Lemma channel_ids_are_plain_numbers_witness :
  let pieces := List.filter (fun x => isdigit (strip x)) (str_split "," "12, 7,general,") in
  [12; 7] = map (fun x => decimal_value 0 (strip x)) pieces
  /\ Forall (fun x => all_digits (strip x) = true) pieces
  /\ Forall (fun id => 0 <= id) [12; 7].
Proof.
  apply (channel_ids_are_plain_numbers "12, 7,general," [12; 7]). reflexivity.
Defined.

(** X14.  The test [x.strip().isdigit()] does not guard [int(x)]: a piece
    that passes it but holds a superscript digit (U+00B2, U+00B3, U+00B9),
    or one of the separators U+001C..U+001F that [strip] removes and [int]
    does not, makes the whole expression raise [ValueError]. *)
Theorem channel_ids_digit_test_does_not_guard_int (setting x : string) (c : ascii) :
  In x (str_split "," setting) ->
  isdigit (strip x) = true ->
  In c (chars x) ->
  In (code c) [178; 179; 185; 28; 29; 30; 31] ->
  parse_channel_ids setting = Raised ValueError.
Proof.
  intros Hx Hd Hc Hcode. unfold parse_channel_ids.
  apply (int_each_raised _ x); [apply filter_In; by split|].
  destruct (py_int x) as [v|e] eqn:Hv; [|by rewrite (py_int_raises _ _ Hv)].
  destruct (py_int_chars _ _ Hv) as [Hchars _]. specialize (Hchars c Hc).
  exfalso. revert Hcode Hchars. clear. by_code_points c.
Qed.

Lemma channel_ids_digit_test_does_not_guard_int_witness :
  parse_channel_ids ("42," ++ String (ascii_of_nat 178) "") = Raised ValueError.
Proof.
  apply (channel_ids_digit_test_does_not_guard_int
           ("42," ++ String (ascii_of_nat 178) "") (String (ascii_of_nat 178) "")
           (ascii_of_nat 178));
    vm_compute; tauto.
Defined.

Lemma str_split_no_sep sep s x : In x (str_split sep s) -> ~ In sep (chars x).
Proof.
  revert x. induction s as [|c r IH]; intros x; cbn [str_split].
  - intros [<-|[]]. cbn. tauto.
  - destruct (Ascii.eqb c sep) eqn:E.
    + intros [<-|Hx]; [cbn; tauto|by apply IH].
    + destruct (str_split sep r) as [|p ps].
      * intros [<-|[]] [->|[]]. by rewrite Ascii.eqb_refl in E.
      * intros [<-|Hx].
        -- rewrite chars_cons. intros [->|Hp]; [by rewrite Ascii.eqb_refl in E|].
           by apply (IH p (or_introl eq_refl)).
        -- apply IH. by right.
Qed.

Lemma lower_chars s d :
  In d (chars (lower s)) -> exists c, In c (chars s) /\ d = lower_char c.
Proof.
  induction s as [|c r IH]; cbn [lower]; [done|]. rewrite !chars_cons.
  intros [<-|Hd]; [exists c; split; [by left|done]|].
  destruct (IH Hd) as (c' & ? & ?). exists c'. split; [by right|done].
Qed.

Lemma lower_lower s : lower (lower s) = lower s.
Proof. induction s as [|c r IH]; cbn; [done|]. by rewrite lower_char_idem, IH. Qed.

Lemma lstrip_lower s : lstrip_by is_space (lower s) = lower (lstrip_by is_space s).
Proof.
  induction s as [|c r IH]; cbn; [done|]. rewrite lower_char_space.
  by destruct (is_space c).
Qed.

Lemma rstrip_lower s : rstrip_by is_space (lower s) = lower (rstrip_by is_space s).
Proof.
  induction s as [|c r IH]; cbn; [done|]. rewrite IH, lower_char_space.
  destruct (rstrip_by is_space r); cbn; [by destruct (is_space c)|done].
Qed.

Lemma strip_lower s : strip (lower s) = lower (strip s).
Proof. unfold strip, strip_by. by rewrite lstrip_lower, rstrip_lower. Qed.

Lemma lstrip_head blank s :
  match lstrip_by blank s with
  | String c _ => blank c = false
  | EmptyString => True
  end.
Proof.
  induction s as [|c r IH]; cbn; [done|].
  destruct (blank c) eqn:E; [done|]. done.
Qed.

Lemma rstrip_head blank c r :
  blank c = false ->
  exists r', rstrip_by blank (String c r) = String c r'.
Proof.
  intros Hc. cbn. rewrite Hc. destruct (rstrip_by blank r); eauto.
Qed.

Lemma strip_idem s : strip (strip s) = strip s.
Proof.
  unfold strip, strip_by at 1.
  assert (Hl : lstrip_by is_space (strip_by is_space s) = strip_by is_space s).
  { unfold strip_by. pose proof (lstrip_head is_space s) as Hh.
    destruct (lstrip_by is_space s) as [|c r]; [done|].
    destruct (rstrip_head is_space c r Hh) as [r' ->]. cbn. by rewrite Hh. }
  rewrite Hl. apply rstrip_ends_clean, ends_clean_strip.
Qed.

Lemma strip_chars_sub s c : In c (chars (strip s)) -> In c (chars s).
Proof.
  unfold strip, strip_by. intros H%rstrip_chars_sub. by apply lstrip_chars_sub in H.
Qed.

(** X15.  Every keyword read from a keyword setting (a text of code points
    below 256) is ready for the substring test against the lower-cased
    message: it is not empty (the empty text would occur in every message),
    has no blanks left around it, is in lower case, and holds no comma. *)
Theorem keywords_are_normalised (setting : string) :
  Forall (fun k => k <> EmptyString /\ strip k = k /\ lower k = k
                   /\ ~ In ","%char (chars k))
    (parse_keywords setting).
Proof.
  unfold parse_keywords. apply List.Forall_forall.
  intros k (x & <- & [Hx Hne]%filter_In)%in_map_iff. repeat split.
  - destruct (strip x); [done|]. done.
  - by rewrite strip_lower, strip_idem.
  - apply lower_lower.
  - intros (c & Hc%strip_chars_sub & Hcomma)%lower_chars.
    symmetry in Hcomma. apply lower_char_comma in Hcomma as ->.
    by apply (str_split_no_sep _ _ _ Hx).
Qed.

Lemma parse_channel_ids_empty : parse_channel_ids "" = Returned [].
Proof. reflexivity. Qed.

(** X16.  A subsystem whose channel setting is absent from the environment
    is off for good: whatever the other settings are, if the module loads,
    no run ever adds reactions (without [AUTO_REACT_CHANNELS]) or sends an
    automatic reply (without [AUTO_REPLY_CHANNELS]). *)
Theorem unset_channels_switch_subsystem_off
    (environ : string -> option string) (cfg : config)
    (st : bot_state) (evs : list event) (i : nat) (u c : Z) :
  load_config environ = Returned cfg ->
  (environ "AUTO_REACT_CHANNELS" = None ->
     ~ emitted (snd (run cfg st evs)) i (AddReactions u c))
  /\ (environ "AUTO_REPLY_CHANNELS" = None ->
        ~ emitted (snd (run cfg st evs)) i (AutoReply u c)).
Proof.
  unfold load_config, environ_get. intros Hload. split; intros Hunset; rewrite Hunset in Hload.
  - rewrite parse_channel_ids_empty in Hload.
    destruct (py_int _) as [rc|]; [|done]. destruct (parse_channel_ids _) as [ids|]; [|done].
    destruct (py_int _) as [ch|]; [|done]. destruct (py_int _) as [pc|]; [|done].
    injection Hload as <-.
    by intros (st0 & ev & (m & w & l & _ & Hfire)%handle_emits_react)%run_emitted.
  - destruct (parse_channel_ids _) as [ids|]; [|done].
    destruct (py_int _) as [rc|]; [|done]. rewrite parse_channel_ids_empty in Hload.
    destruct (py_int _) as [ch|]; [|done]. destruct (py_int _) as [pc|]; [|done].
    injection Hload as <-.
    by intros (st0 & ev & (m & w & l & _ & Hfire)%handle_emits_reply)%run_emitted.
Qed.


(** ** Rock-paper-scissors *)

Lemma choice_rps raw :
  (raw mod 3 = 0 /\ choice rps_opts raw = Some "rock")
  \/ (raw mod 3 = 1 /\ choice rps_opts raw = Some "paper")
  \/ (raw mod 3 = 2 /\ choice rps_opts raw = Some "scissors").
Proof.
  unfold choice. change (Z.of_nat (length rps_opts)) with 3.
  assert (H : raw mod 3 = 0 \/ raw mod 3 = 1 \/ raw mod 3 = 2)
    by (pose proof (Z.mod_pos_bound raw 3); lia).
  destruct H as [H|[H|H]]; rewrite H; auto.
Qed.

Lemma rps_slash_valid choice_ raw bot :
  In (lower choice_) rps_opts -> choice rps_opts raw = Some bot ->
  rps_slash choice_ raw
  = Returned (Played (lower choice_) bot (rps_judge (lower choice_) bot)).
Proof.
  intros Hin Hbot. unfold rps_slash. rewrite Hbot.
  by destruct Hin as [<- | [<- | [<- | [ ] ] ] ].
Qed.

(** X17.  Rock-paper-scissors is fair.  For a valid choice and any result
    (tie, win, loss), exactly one of three consecutive draws of the
    generator - that is, exactly one of the bot's three options - leads to
    that result; so with draws that are evenly spread the three results are
    equally likely, whatever the player chooses. *)
Theorem rps_is_fair (choice_ : string) (raw : Z) (res : rps_result) :
  In (lower choice_) rps_opts ->
  exists k, 0 <= k < 3
    /\ (exists bot, rps_slash choice_ (raw + k)
                    = Returned (Played (lower choice_) bot res))
    /\ forall k', 0 <= k' < 3 ->
         (exists bot, rps_slash choice_ (raw + k')
                      = Returned (Played (lower choice_) bot res)) ->
         k' = k.
Proof.
  intros Hin.
  destruct (choice_rps (raw + 0)) as [[M0 H0]|[[M0 H0]|[M0 H0]]];
  destruct (choice_rps (raw + 1)) as [[M1 H1]|[[M1 H1]|[M1 H1]]];
  destruct (choice_rps (raw + 2)) as [[M2 H2]|[[M2 H2]|[M2 H2]]];
    try (exfalso; clear - M0 M1 M2; Z.div_mod_to_equations; lia);
    clear M0 M1 M2;
    pose proof (rps_slash_valid choice_ _ _ Hin H0) as P0;
    pose proof (rps_slash_valid choice_ _ _ Hin H1) as P1;
    pose proof (rps_slash_valid choice_ _ _ Hin H2) as P2;
    clear H0 H1 H2;
    destruct Hin as [Hl|[Hl|[Hl|[]]]]; rewrite <- Hl in *; clear Hl;
    vm_compute rps_judge in P0, P1, P2;
    destruct res;
    first
      [ exists 0; split; [lia|]; split; [by eexists|];
        intros k' Hk' [bot Hb];
        assert (Hc : k' = 0 \/ k' = 1 \/ k' = 2) by lia;
        destruct Hc as [-> | [-> | ->]]; congruence
      | exists 1; split; [lia|]; split; [by eexists|];
        intros k' Hk' [bot Hb];
        assert (Hc : k' = 0 \/ k' = 1 \/ k' = 2) by lia;
        destruct Hc as [-> | [-> | ->]]; congruence
      | exists 2; split; [lia|]; split; [by eexists|];
        intros k' Hk' [bot Hb];
        assert (Hc : k' = 0 \/ k' = 1 \/ k' = 2) by lia;
        destruct Hc as [-> | [-> | ->]]; congruence ].
Qed.

Lemma rps_is_fair_witness :
  exists k, 0 <= k < 3
    /\ (exists bot, rps_slash "Rock" (10 + k) = Returned (Played (lower "Rock") bot YouWin))
    /\ forall k', 0 <= k' < 3 ->
         (exists bot, rps_slash "Rock" (10 + k')
                      = Returned (Played (lower "Rock") bot YouWin)) ->
         k' = k.
Proof.
  apply (rps_is_fair "Rock" 10 YouWin). vm_compute. tauto.
Defined.

(** X18.  The message [rps_slash] composes does not depend on the case of
    the choice.  A choice whose lower-case form is one of the three
    options gets a result line with that lower-case form, a choice of the
    bot out of the three options and the verdict of the comparison; every
    other choice gets the invalid-choice message, and only such a choice
    does.  Texts with the same lower-case form get the same message. *)
Theorem rps_choice_is_case_insensitive (choice_ : string) (raw : Z) :
  (In (lower choice_) rps_opts ->
     exists bot,
       In bot rps_opts
       /\ rps_slash choice_ raw
          = Returned (Played (lower choice_) bot (rps_judge (lower choice_) bot)))
  /\ (rps_slash choice_ raw = Returned InvalidChoice <-> ~ In (lower choice_) rps_opts)
  /\ (forall other, lower other = lower choice_ ->
        rps_slash other raw = rps_slash choice_ raw).
Proof.
  assert (Hvalid : In (lower choice_) rps_opts ->
            exists bot,
              In bot rps_opts
              /\ rps_slash choice_ raw
                 = Returned (Played (lower choice_) bot (rps_judge (lower choice_) bot))).
  { intros Hin.
    destruct (choice_rps raw) as [[_ H]|[[_ H]|[_ H]]];
      eexists; (split; [|by apply (rps_slash_valid _ _ _ Hin H)]); cbn; auto. }
  split; [exact Hvalid|]. split.
  - split.
    + intros Hrej Hin. destruct (Hvalid Hin) as (bot & _ & Hp). congruence.
    + intros Hout. unfold rps_slash. cbn [rps_opts existsb].
      destruct (String.eqb_spec (lower choice_) "rock") as [E|_];
        [exfalso; apply Hout; rewrite E; cbn; auto|].
      destruct (String.eqb_spec (lower choice_) "paper") as [E|_];
        [exfalso; apply Hout; rewrite E; cbn; auto|].
      destruct (String.eqb_spec (lower choice_) "scissors") as [E|_];
        [exfalso; apply Hout; rewrite E; cbn; auto|].
      done.
  - intros other Hl. unfold rps_slash. by rewrite Hl.
Qed.

(** ** Polls *)

Lemma parse_items_normalised setting :
  Forall (fun o => o <> EmptyString /\ strip o = o /\ ~ In ","%char (chars o))
    (parse_items setting).
Proof.
  unfold parse_items. apply List.Forall_forall.
  intros k (x & <- & [Hx Hne]%filter_In)%in_map_iff. repeat split.
  - by destruct (strip x).
  - apply strip_idem.
  - intros Hc%strip_chars_sub. by apply (str_split_no_sep _ _ _ Hx).
Qed.

(** X19.  A poll opens exactly when the text holds two to five options
    after blank pieces are dropped; then the [i]-th option is listed with
    the [i]-th keycap emoji, no index leaves [NUMBER_EMOJIS], and every
    option is non-empty, without blanks around it and without a comma.
    Otherwise the command asks for 2-5 options. *)
Theorem poll_opens_with_two_to_five_options (opts : string) :
  let options := parse_items opts in
  ((2 <= length options <= 5)%nat ->
     poll_slash opts
     = Returned (PollOpened (zip (take (length options) NUMBER_EMOJIS) options)))
  /\ ((length options < 2 \/ 5 < length options)%nat ->
        poll_slash opts = Returned ProvideOptions)
  /\ Forall (fun o => o <> EmptyString /\ strip o = o /\ ~ In ","%char (chars o))
       options.
Proof.
  cbn zeta. split; [|split; [|apply parse_items_normalised]]; unfold poll_slash.
  - intros Hn.
    destruct (parse_items opts) as [|a [|b [|c [|d [|e [|f r]]]]]];
      cbn in Hn; try lia; reflexivity.
  - intros Hn.
    destruct (length (parse_items opts) <? 2)%nat eqn:E1; [done|].
    destruct (5 <? length (parse_items opts))%nat eqn:E2; [done|].
    apply Nat.ltb_ge in E1, E2. lia.
Qed.

(** ** Moderation *)

Lemma moderation_step_cases t c :
  moderation_step t c
  = if carried_out c then
      mk_infractions
        (inf_rows t
         ++ [let '(g, u, m, a, r, k) := entry_of c in
             mk_infraction (inf_last_id t + 1) g u m a r k])
        (inf_last_id t + 1)
    else t.
Proof.
  destruct c as [g a m r ok cf k|g a m r ok cf k|g a m r k]; cbn;
    unfold cmd_kick, cmd_ban, log_infraction;
    try destruct ok; try destruct cf; done.
Qed.

(** X20.  The infractions table is a complete, append-only record of what
    the moderators did: after any sequence of kick, ban and warn commands
    the old rows stand unchanged, followed, in the order of the commands,
    by one row for every warning and for every kick or ban the platform
    carried out - a kick or ban that failed leaves none, and one whose
    confirmation could not be sent still leaves its row.  The new rows are
    numbered consecutively. *)
Theorem infractions_log_is_complete
    (cs : list moderation_command) (t : infractions_table) :
  exists new,
    inf_rows (moderation_run cs t) = inf_rows t ++ new
    /\ map entry new = map entry_of (List.filter carried_out cs)
    /\ map inf_id new
       = map (fun k => inf_last_id t + 1 + Z.of_nat k) (seq 0 (length new))
    /\ inf_last_id (moderation_run cs t) = inf_last_id t + Z.of_nat (length new).
Proof.
  revert t. induction cs as [|c cs IH]; intros t.
  { exists []. cbn. rewrite app_nil_r. repeat split; lia. }
  unfold moderation_run. cbn [fold_left]. fold (moderation_run cs (moderation_step t c)).
  destruct (IH (moderation_step t c)) as (new & Hrows & Hent & Hids & Hlast).
  rewrite moderation_step_cases in Hrows, Hids, Hlast |- *.
  cbn [List.filter]. destruct (carried_out c).
  - cbn [inf_rows inf_last_id] in *.
    eexists (_ :: new). rewrite Hrows, <- app_assoc. split; [reflexivity|].
    split; [|split].
    + cbn [map]. rewrite Hent. f_equal. by destruct c.
    + cbn [map length seq]. f_equal; [by destruct (entry_of c) as [[[[[? ?] ?] ?] ?] ?]; cbn; lia|].
      rewrite Hids, <- seq_shift, map_map. apply map_ext. intros k. lia.
    + rewrite Hlast. cbn [length]. lia.
  - exists new. done.
Qed.

(** ** Welcome messages *)

Lemma setwelcome_lookup (cmds : list (Z * Z * string)) :
  forall (t : guild_configs) g,
    fold_left (fun t c => cmd_setwelcome c.1.1 c.1.2 c.2 t) cmds t !! g
    = match last (List.filter (fun c => c.1.1 =? g) cmds) with
      | Some c => Some (mk_guild_config c.1.2 c.2 None)
      | None => t !! g
      end.
Proof.
  induction cmds as [|c cmds IH]; intros t g; [done|].
  cbn [fold_left List.filter]. rewrite IH. unfold cmd_setwelcome.
  destruct (c.1.1 =? g) eqn:E.
  - apply Z.eqb_eq in E. rewrite E, lookup_insert_eq.
    destruct (List.filter _ cmds) as [|d l]; [reflexivity|].
    change (last (c :: d :: l)) with (last (d :: l)).
    destruct (last (d :: l)) eqn:L; [done|]. by apply last_None in L.
  - apply Z.eqb_neq in E. by rewrite lookup_insert_ne.
Qed.

(** X21.  The welcome of a guild follows the latest [setwelcome] given in
    that guild, and nothing else: after any sequence of such commands a
    join is greeted in the channel and with the template of the last
    command of the member's guild - provided the channel still resolves and
    the template can be filled, otherwise nothing is sent - and commands in
    other guilds make no difference. *)
Theorem welcome_follows_latest_setting
    (format : string -> string -> string -> result string)
    (get_channel : Z -> Z -> bool) (cmds : list (Z * Z * string))
    (t : guild_configs) (guild : Z) (mention guild_name : string) :
  on_member_join format get_channel guild mention guild_name
    (fold_left (fun t c => cmd_setwelcome c.1.1 c.1.2 c.2 t) cmds t)
  = match last (List.filter (fun c => c.1.1 =? guild) cmds) with
    | Some (_, channel, template) =>
        if get_channel guild channel then
          match format template mention guild_name with
          | Returned text => Some (channel, text)
          | Raised _ => None
          end
        else None
    | None => on_member_join format get_channel guild mention guild_name t
    end.
Proof.
  unfold on_member_join. rewrite setwelcome_lookup.
  by destruct (last _) as [[[g ch] msg]|].
Qed.

(** ** Reaction roles: registering *)

Lemma select_binding_app g m e t1 t2 :
  select_binding g m e (t1 ++ t2)
  = match select_binding g m e t1 with
    | Some r => Some r
    | None => select_binding g m e t2
    end.
Proof.
  unfold select_binding. rewrite List.filter_app.
  by destruct (List.filter _ t1).
Qed.

(** X22.  Registering a reaction role makes the emoji work both ways, and
    the first registration wins: for a user other than the bot whom the
    cache resolves together with the role, reacting with the emoji on the
    message grants a role and taking the reaction back removes the same
    role - the role bound first to this emoji on this message, and the
    newly registered one only if there was none. *)
Theorem first_reaction_role_registration_wins
    (bot_user_id : Z) (cache : guild_cache) (table : list reaction_role)
    (guild channel message_id role user : Z) (emoji : string) :
  let table' := cmd_createreactionrole guild channel message_id emoji role table in
  let bound := default role (select_binding guild message_id emoji table) in
  let payload := mk_payload user guild message_id emoji in
  user <> bot_user_id ->
  has_guild cache guild = true ->
  has_member cache guild user = true ->
  has_role cache guild bound = true ->
  on_raw_reaction_add bot_user_id cache table' payload
  = Returned [SelectBinding guild message_id emoji; AddRoles user bound]
  /\ on_raw_reaction_remove bot_user_id cache table' payload
     = Returned [SelectBinding guild message_id emoji; RemoveRoles user bound].
Proof.
  intros table' bound payload Hu Hg Hm Hr.
  assert (Hsel : select_binding guild message_id emoji table' = Some bound).
  { unfold table', bound, cmd_createreactionrole. rewrite select_binding_app.
    destruct (select_binding guild message_id emoji table); [done|].
    unfold select_binding. cbn. by rewrite !Z.eqb_refl, String.eqb_refl. }
  unfold on_raw_reaction_add, on_raw_reaction_remove, resolve_and_act.
  cbn [p_user_id p_guild_id p_message_id p_emoji payload].
  apply Z.eqb_neq in Hu. by rewrite Hu, Hsel, Hg, Hm, Hr.
Qed.

Lemma first_reaction_role_registration_wins_witness :
  on_raw_reaction_add 1 (mk_cache (fun _ => true) (fun _ _ => true) (fun _ _ => true))
    (cmd_createreactionrole 7 3 50 "x" 22 [mk_reaction_role 7 3 50 "x" 11])
    (mk_payload 5 7 50 "x")
  = Returned [SelectBinding 7 50 "x"; AddRoles 5 11]
  /\ on_raw_reaction_remove 1 (mk_cache (fun _ => true) (fun _ _ => true) (fun _ _ => true))
       (cmd_createreactionrole 7 3 50 "x" 22 [mk_reaction_role 7 3 50 "x" 11])
       (mk_payload 5 7 50 "x")
     = Returned [SelectBinding 7 50 "x"; RemoveRoles 5 11].
Proof.
  apply (first_reaction_role_registration_wins 1
           (mk_cache (fun _ => true) (fun _ _ => true) (fun _ _ => true))
           [mk_reaction_role 7 3 50 "x" 11] 7 3 50 22 5 "x");
    [lia | reflexivity | reflexivity | reflexivity].
Defined.

(** ** Asking the assistant *)

Lemma length_substring_0 n s :
  String.length (substring 0 n s) = Nat.min n (String.length s).
Proof.
  revert s. induction n as [|n IH]; intros [|c s]; cbn; try done.
  by rewrite IH.
Qed.

Lemma length_append (a b : string) :
  String.length (a ++ b)%string = (String.length a + String.length b)%nat.
Proof.
  induction a as [|c a IH]; [done|]. rewrite append_cons. cbn. by rewrite IH.
Qed.

Lemma substring_0_prefix n s : String.prefix (substring 0 n s) s = true.
Proof.
  revert s. induction n as [|n IH]; intros [|c s]; cbn; try done.
  rewrite IH. by destruct (ascii_dec c c).
Qed.

(** X23.  What the ask commands send fits the limit: the slash command
    sends the stripped answer unchanged when it has at most 1900
    characters and otherwise its first 1900 characters followed by three
    dots, 1903 characters in all; the prefix command sends at most the
    first 1900 characters of the answer as it came. *)
Theorem ask_answers_fit_the_limit (text err : option string) (out : string) :
  (ask_slash text err = Answer out ->
     (String.length out <= 1903)%nat
     /\ exists t, text = Some t
          /\ ((String.length (strip t) <= 1900)%nat -> out = strip t)
          /\ ((1900 < String.length (strip t))%nat ->
                String.length out = 1903%nat
                /\ out = (substring 0 1900 (strip t) ++ "...")%string))
  /\ (ask_prefix text err = Answer out ->
        (String.length out <= 1900)%nat
        /\ exists t, text = Some t /\ String.prefix out t = true
             /\ ((String.length t <= 1900)%nat -> out = t)).
Proof.
  unfold ask_slash, ask_prefix, MAX_RESPONSE_LENGTH.
  destruct text as [t|]; [|done]. destruct (nonempty t); [|done]. split.
  - destruct (1900 <? String.length (strip t))%nat eqn:E.
    + apply Nat.ltb_lt in E. intros [= <-].
      assert (Hlen : String.length (substring 0 1900 (strip t) ++ "...")%string = 1903%nat).
      { rewrite length_append, length_substring_0, Nat.min_l by lia. reflexivity. }
      split; [lia|]. exists t. split; [done|]. split; [lia|]. intros _. by split.
    + apply Nat.ltb_ge in E. intros [= <-]. split; [lia|].
      exists t. split; [done|]. split; [done|lia].
  - intros [= <-]. rewrite length_substring_0. split; [lia|].
    exists t. split; [done|]. split; [apply substring_0_prefix|].
    intros Hl. clear -Hl. revert Hl. generalize 1900%nat as n. revert t.
    induction t as [|c t IH]; intros [|n] Hl; cbn in *; try done; try lia.
    rewrite IH by lia. done.
Qed.

(** ** Reminders, from the command to the worker *)

(** X24.  A reminder waits for its time and is then taken up at once.
    After a [remindme] on a well-keyed table that was answered with the
    reminder time [at_] - the text was accepted and the insert went
    through - a cycle of the worker before [at_] does not touch the
    reminder and keeps its row; a cycle at or after [at_] tries to deliver
    it, and deletes the row unless the send raised. *)
Theorem reminder_waits_for_its_time
    (ctx : context) (when text : string) (c1 c2 at_ now : Z)
    (outcome : reminder_row -> delivery) (t : reminders_table) :
  well_keyed t ->
  snd (cmd_remindme ctx when text c1 c2 t) = Returned (ReminderSet at_) ->
  let t' := fst (cmd_remindme ctx when text c1 c2 t) in
  let id := last_id t + 1 in
  let after := worker_cycle now outcome t' in
  (now < at_ ->
     (forall d, ~ In (id, d) (snd after))
     /\ exists r, In r (rows (fst after)) /\ rid r = id /\ r_content r = text)
  /\ (at_ <= now ->
        exists d, In (id, d) (snd after)
          /\ (d <> SendRaises -> forall r, In r (rows (fst after)) -> rid r <> id)).
Proof.
  intros Hk Hans t' id after.
  assert (Ht' : t' = insert_reminder (ctx_author ctx) (ctx_guild ctx) (ctx_channel ctx)
                       at_ text c2 t).
  { unfold t'. revert Hans. unfold cmd_remindme, schedule_reminder.
    destruct (parse_when when) as [seconds|]; [|done].
    destruct (sqlite_binds _ _ _ _ _); [|done]. cbn [fst snd]. by intros [= ->]. }
  assert (Hk' : well_keyed t') by (rewrite Ht'; by apply insert_reminder_well_keyed).
  set (R := mk_reminder id (ctx_author ctx) (ctx_guild ctx) (ctx_channel ctx)
              at_ text c2).
  assert (Hrows : rows t' = rows t ++ [R]) by (by rewrite Ht').
  assert (HR : In R (rows t')) by (rewrite Hrows; apply in_or_app; right; by left).
  assert (Hsame : forall r, In r (rows t') -> rid r = id -> r = R).
  { intros r Hr Hid. by apply (same_id_same_row (rows t') r R (proj1 Hk')). }
  unfold after. rewrite (worker_cycle_unfold now outcome t' (proj1 Hk')). cbn [fst snd rows].
  split.
  - intros Hnow. assert (Hdue : is_due now R = false) by (apply Z.leb_gt; done).
    split.
    + intros d (r & [= Hid _] & [Hr Hd]%filter_In)%in_map_iff.
      rewrite (Hsame r Hr Hid) in Hd. congruence.
    + exists R. split; [|done]. apply filter_In. split; [done|]. by rewrite Hdue.
  - intros Hnow. assert (Hdue : is_due now R = true) by (apply Z.leb_le; done).
    exists (outcome R). split.
    + apply in_map_iff. exists R. split; [done|]. apply filter_In. by split.
    + intros Hd r [Hr Hkeep]%filter_In Hid. rewrite (Hsame r Hr Hid) in Hkeep.
      rewrite Hdue in Hkeep. unfold deletes in Hkeep. by destruct (outcome R).
Qed.

Lemma reminder_waits_for_its_time_witness :
  let t' := fst (cmd_remindme (mk_context 5 (Some 7) 3) "10m" "tea" 1000 1000 empty_reminders) in
  let id := last_id empty_reminders + 1 in
  let after := worker_cycle 1300 (fun _ => SendOk) t' in
  (1300 < 1600 ->
     (forall d, ~ In (id, d) (snd after))
     /\ exists r, In r (rows (fst after)) /\ rid r = id /\ r_content r = "tea")
  /\ (1600 <= 1300 ->
        exists d, In (id, d) (snd after)
          /\ (d <> SendRaises -> forall r, In r (rows (fst after)) -> rid r <> id)).
Proof.
  apply (reminder_waits_for_its_time (mk_context 5 (Some 7) 3) "10m" "tea" 1000 1000 1600
           1300 (fun _ => SendOk) empty_reminders);
    [apply well_keyed_empty | reflexivity].
Defined.

(** X25.  The worker never sends a reminder early and never loses one that
    is not yet due: on a table without duplicate ids, a cycle keeps the
    rows that are not due exactly as they were, in order, and everything it
    tries to deliver is a row of the table whose time has come. *)
Theorem worker_leaves_future_reminders_alone
    (now : Z) (outcome : reminder_row -> delivery) (t : reminders_table) :
  List.NoDup (map rid (rows t)) ->
  List.filter (fun r => negb (is_due now r)) (rows (fst (worker_cycle now outcome t)))
  = List.filter (fun r => negb (is_due now r)) (rows t)
  /\ forall id d, In (id, d) (snd (worker_cycle now outcome t)) ->
       exists r, In r (rows t) /\ rid r = id /\ remind_at r <= now /\ d = outcome r.
Proof.
  intros Hnd. rewrite (worker_cycle_unfold now outcome t Hnd). cbn [fst snd rows]. split.
  - rewrite filter_filter. apply List.filter_ext. intros r.
    destruct (is_due now r), (deletes outcome r); done.
  - intros id d (r & [= <- <-] & [Hr Hd]%filter_In)%in_map_iff.
    exists r. repeat split; try done. by apply Z.leb_le.
Qed.

Lemma worker_leaves_future_reminders_alone_witness :
  List.filter (fun r => negb (is_due 50 r))
    (rows (fst (worker_cycle 50 (fun _ => SendOk)
                  (mk_reminders [mk_reminder 1 5 None 3 40 "a" 10;
                                 mk_reminder 2 5 None 3 90 "b" 10] 2))))
  = List.filter (fun r => negb (is_due 50 r))
      (rows (mk_reminders [mk_reminder 1 5 None 3 40 "a" 10;
                           mk_reminder 2 5 None 3 90 "b" 10] 2))
  /\ forall id d,
       In (id, d) (snd (worker_cycle 50 (fun _ => SendOk)
                          (mk_reminders [mk_reminder 1 5 None 3 40 "a" 10;
                                         mk_reminder 2 5 None 3 90 "b" 10] 2))) ->
       exists r, In r (rows (mk_reminders [mk_reminder 1 5 None 3 40 "a" 10;
                                           mk_reminder 2 5 None 3 90 "b" 10] 2))
                 /\ rid r = id /\ remind_at r <= 50 /\ d = (fun _ => SendOk) r.
Proof.
  apply (worker_leaves_future_reminders_alone 50 (fun _ => SendOk)
           (mk_reminders [mk_reminder 1 5 None 3 40 "a" 10;
                          mk_reminder 2 5 None 3 90 "b" 10] 2)).
  cbn. repeat constructor; cbn; intuition lia.
Defined.

(** ** Level-up announcements *)

Lemma award_xp_level_up m w st u l :
  In (LevelUp u l) (snd (award_xp m w st)) ->
  u = author_id m /\ l <> 0
  /\ level_of u (db_users st) < l
  /\ level_of u (fst (add_xp (author_id m) (randint 1 3 (xp_draw w)) (db_users st))) = l.
Proof.
  unfold award_xp. rewrite add_xp_unfold. cbv zeta.
  destruct (int_pow_half _) as [nl|e]; [|by intros [?|[]]].
  destruct (_ <? nl) eqn:Hl; cbn [fst snd]; [|done].
  destruct (nl =? 0) eqn:Hz; [done|]. intros [[= <- <-]|[]].
  apply Z.ltb_lt in Hl. apply Z.eqb_neq in Hz.
  repeat split; try done.
  - by rewrite level_default.
  - unfold level_of. by rewrite lookup_insert_eq.
Qed.

Lemma on_message_level_up cfg m w st u l :
  In (LevelUp u l) (snd (on_message cfg m w st)) ->
  author_bot m = false /\ In (LevelUp u l) (snd (award_xp m w st)).
Proof.
  destruct (author_bot m) eqn:Hbot.
  { unfold on_message. rewrite Hbot. by intros []. }
  rewrite on_message_unfold by done. cbv zeta. intros H. split; [done|]. revert H.
  destruct (trivia_check_cases m w (fst (award_xp m w st)))
    as [[_ ->]|[(a & k & _ & _ & _ & ->)|(a & k & _ & _ & _ & ->)]]; cbn [fst snd].
  - intros [H|[[]|[H|[H|H]%in_app_or]%in_app_or]%in_app_or]%in_app_or; [done| | |].
    + by destruct (snd (auto_react _ _ _ _)); [destruct H as [?|[]]|].
    + by destruct (snd (auto_reply _ _ _ _ _)); [destruct H as [?|[]]|].
    + by destruct H as [?|[]].
  - intros [H|[?|[?|[]]]]%in_app_or; done.
  - intros [H|[[?|[]]|[H|[H|H]%in_app_or]%in_app_or]%in_app_or]%in_app_or; [done|done| | |].
    + by destruct (snd (auto_react _ _ _ _)); [destruct H as [?|[]]|].
    + by destruct (snd (auto_reply _ _ _ _ _)); [destruct H as [?|[]]|].
    + by destruct H as [?|[]].
Qed.

(** X26.  A level-up announcement is always true: when the handler
    announces that a user reached a level, the user is the author of the
    message, the level is not 0, it is higher than the level the author had
    before, and it is the level the table holds afterwards. *)
Theorem level_up_announcements_are_true
    (cfg : config) (m : message) (w : surroundings) (st : bot_state) (u l : Z) :
  In (LevelUp u l) (snd (on_message cfg m w st)) ->
  u = author_id m /\ l <> 0
  /\ level_of u (db_users st) < l
  /\ level_of u (db_users (fst (on_message cfg m w st))) = l.
Proof.
  intros [Hbot H]%on_message_level_up.
  rewrite on_message_users by done. by apply award_xp_level_up.
Qed.

End Platform.

(** * Runs with a correctly rounded power *)

(** The examples below fix the power as [sqrt_float], the correctly
    rounded root. *)

Local Open Scope string_scope.
Local Open Scope list_scope.
Local Open Scope Z_scope.

(** Values of [int(n ** 0.5)] where the power is the correctly rounded
    root. *)
Example int_pow_half_values :
  map (int_pow_half sqrt_float) [0; 1; 80; 81; 2 ^ 52 - 1; -1]
  = [Returned 0; Returned 1; Returned 8; Returned 9; Returned 67108863;
     Raised TypeError].
Proof. vm_compute. reflexivity. Qed.

(** C2 on a small run: with the correctly rounded root as the power, a
    user with 1 xp who gains 3 more is at level 2. *)
Lemma add_xp_level_is_floor_sqrt_witness :
  let s := fst (add_xp sqrt_float 7 1 ∅) in
  let s' := fst (add_xp sqrt_float 7 3 s) in
  (exists ret, snd (add_xp sqrt_float 7 3 s) = Returned ret)
  /\ xp_of 7 s' = xp_of 7 s + 3
  /\ level_of 7 s' = Z.sqrt (xp_of 7 s')
  /\ level_of 7 s' * level_of 7 s' <= xp_of 7 s'
     < (level_of 7 s' + 1) * (level_of 7 s' + 1).
Proof.
  apply (proj1 (add_xp_level_is_floor_sqrt sqrt_float (fst (add_xp sqrt_float 7 1 ∅)) 7 3)).
  - intros x Hx. by apply sqrt_float_within_ulp.
  - reflexivity.
  - apply reach_add_xp; [apply reach_empty | lia].
  - lia.
  - vm_compute. reflexivity.
Defined.

(** C2, as the specification has it, fails beyond that range, whatever the
    power returns: [2^54 - 1] and [2^54] are converted to the same double,
    so on an empty store [add_xp(7, 2**54 - 1)] and [add_xp(7, 2**54)]
    store the same level, while the integer square roots of the two xp
    values differ.  With the correctly rounded root the first call stores
    level [2^27], one more than the integer root. *)
Lemma add_xp_level_above_floor_sqrt :
  (float_of_int (2 ^ 54 - 1) = Some (2 ^ 54) /\ float_of_int (2 ^ 54) = Some (2 ^ 54))
  /\ (Z.sqrt (2 ^ 54 - 1) = 2 ^ 27 - 1 /\ Z.sqrt (2 ^ 54) = 2 ^ 27)
  /\ ~ (exists pow_half,
          level_of 7 (fst (add_xp pow_half 7 (2 ^ 54 - 1) ∅))
          = Z.sqrt (xp_of 7 (fst (add_xp pow_half 7 (2 ^ 54 - 1) ∅)))
          /\ level_of 7 (fst (add_xp pow_half 7 (2 ^ 54) ∅))
             = Z.sqrt (xp_of 7 (fst (add_xp pow_half 7 (2 ^ 54) ∅))))
  /\ (snd (add_xp sqrt_float 7 (2 ^ 54 - 1) ∅) = Returned (Some (2 ^ 27))
      /\ xp_of 7 (fst (add_xp sqrt_float 7 (2 ^ 54 - 1) ∅)) = 2 ^ 54 - 1
      /\ level_of 7 (fst (add_xp sqrt_float 7 (2 ^ 54 - 1) ∅)) = 2 ^ 27).
Proof.
  split; [split; vm_compute; reflexivity|].
  split; [split; vm_compute; reflexivity|].
  split; [|repeat split; vm_compute; reflexivity].
  intros (p & H1 & H2). revert H1 H2.
  rewrite !add_xp_unfold. cbv zeta. rewrite lookup_empty. cbn [default].
  unfold int_pow_half.
  change (xp fresh_row + (2 ^ 54 - 1) <? 0) with false.
  change (xp fresh_row + 2 ^ 54 <? 0) with false.
  change (float_of_int (xp fresh_row + (2 ^ 54 - 1))) with (Some (2 ^ 54)).
  change (float_of_int (xp fresh_row + 2 ^ 54)) with (Some (2 ^ 54)).
  cbv beta iota.
  destruct (level fresh_row <? trunc_float (p (2 ^ 54)));
    cbn [fst]; unfold level_of, xp_of; rewrite !lookup_insert_eq;
    cbn [level xp set_level set_xp fresh_row];
    change (Z.sqrt (0 + (2 ^ 54 - 1))) with (2 ^ 27 - 1);
    change (Z.sqrt (0 + 2 ^ 54)) with (2 ^ 27); lia.
Qed.

Lemma trivia_first_correct_answer_witness :
  let m := mk_message false 5 3 " Paris " in
  let w := mk_surroundings 0 true 1000 0 in
  author_bot m = false
  /\ active_trivia (demo_state sqrt_float) !! channel_id m = Some ("paris", 9)
  /\ normalise (content m) = normalise "paris"
  /\ score (fst (on_message sqrt_float demo_config m w (demo_state sqrt_float))) 5 = score (demo_state sqrt_float) 5 + 1
  /\ active_trivia (fst (on_message sqrt_float demo_config m w (demo_state sqrt_float))) !! 3 = None
  /\ (exists before,
        snd (on_message sqrt_float demo_config m w (demo_state sqrt_float))
        = before ++ [TriviaCorrect 5 (score (fst (on_message sqrt_float demo_config m w (demo_state sqrt_float))) 5);
                     ProcessCommands m]).
Proof.
  intros m w.
  destruct (trivia_first_correct_answer sqrt_float demo_config [TriviaStarted 3 9 0] m w
              "paris" 9 eq_refl eq_refl) as [Hcounted _].
  destruct (Hcounted eq_refl) as (Hscore & _ & Hsent).
  destruct (Hsent eq_refl) as (Hcleared & _ & Hacts & _).
  split; [reflexivity|]. split; [reflexivity|]. split; [reflexivity|].
  split; [exact Hscore|]. split; [exact Hcleared | exact Hacts].
Defined.

(** C4, as the specification has it, fails twice.  A message from a bot is
    dropped before the check: its text is the answer, yet nothing is
    counted.  And when sending the announcement raises, the score has been
    raised but the session stays, so the same text is counted again. *)
Lemma trivia_answer_not_counted_or_counted_twice :
  active_trivia (demo_state sqrt_float) !! 3 = Some ("paris", 9)
  /\ normalise (content (mk_message true 5 3 "paris")) = normalise "paris"
  /\ on_message sqrt_float demo_config (mk_message true 5 3 "paris")
       (mk_surroundings 0 true 1000 0) (demo_state sqrt_float) = (demo_state sqrt_float, [])
  /\ (let failed := fst (on_message sqrt_float demo_config (mk_message false 5 3 "paris")
                           (mk_surroundings 0 false 1000 0) (demo_state sqrt_float)) in
      score (demo_state sqrt_float) 5 = 0
      /\ score failed 5 = 1
      /\ active_trivia failed !! 3 = Some ("paris", 9)
      /\ score (fst (on_message sqrt_float demo_config (mk_message false 5 3 "paris")
                       (mk_surroundings 0 true 1010 0) failed)) 5 = 2).
Proof. repeat split; vm_compute; reflexivity. Qed.

Lemma cooldown_triggers_at_most_once_witness :
  let evs := [MessageCreated (mk_message false 5 3 "hello") (mk_surroundings 0 true 1000 0);
              MessageCreated (mk_message false 5 3 "again") (mk_surroundings 0 true 1004 0)] in
  let outs := snd (run sqrt_float demo_config initial_state evs) in
  emitted outs 0 (AddReactions 5 3)
  /\ emitted outs 0 (AutoReply 5 3)
  /\ (Z.abs (1000 - 1004) < AUTO_REACT_COOLDOWN demo_config ->
        ~ (emitted outs 0 (AddReactions 5 3) /\ emitted outs 1 (AddReactions 5 3)))
  /\ (Z.abs (1000 - 1004) < AUTO_REPLY_COOLDOWN demo_config ->
        ~ (emitted outs 0 (AutoReply 5 3) /\ emitted outs 1 (AutoReply 5 3))).
Proof.
  split; [eexists; split; [reflexivity|]; vm_compute; tauto|].
  split; [eexists; split; [reflexivity|]; vm_compute; tauto|].
  apply (cooldown_triggers_at_most_once sqrt_float demo_config initial_state
           [MessageCreated (mk_message false 5 3 "hello") (mk_surroundings 0 true 1000 0);
            MessageCreated (mk_message false 5 3 "again") (mk_surroundings 0 true 1004 0)]
           0 1 (mk_message false 5 3 "hello") (mk_message false 5 3 "again")
           (mk_surroundings 0 true 1000 0) (mk_surroundings 0 true 1004 0));
    [lia | reflexivity | reflexivity | reflexivity | reflexivity].
Defined.

Lemma economy_keeps_balances_nonnegative_witness :
  solvent (economy_run sqrt_float [Daily 1 100000 7; Give 1 2 20; Message 2 0; Give 2 1 50] ∅).
Proof.
  apply (economy_keeps_balances_nonnegative sqrt_float
           [Daily 1 100000 7; Give 1 2 20; Message 2 0; Give 2 1 50] ∅).
  intros u row. by rewrite lookup_empty.
Defined.

Lemma commands_dispatched_exactly_once_witness :
  exists before,
    snd (on_message sqrt_float demo_config (mk_message false 5 3 "paris")
           (mk_surroundings 0 true 1000 0) (demo_state sqrt_float))
    = before ++ [ProcessCommands (mk_message false 5 3 "paris")]
    /\ forall m', ~ In (ProcessCommands m') before.
Proof.
  apply (commands_dispatched_exactly_once sqrt_float demo_config (mk_message false 5 3 "paris")
           (mk_surroundings 0 true 1000 0) (demo_state sqrt_float)).
  reflexivity.
Defined.

Lemma unset_channels_switch_subsystem_off_witness :
  (@None string = None ->
     ~ emitted (snd (run sqrt_float (mk_config [] [] 10 [] [] 15 30) initial_state
                       [MessageCreated (mk_message false 5 3 "hello")
                          (mk_surroundings 0 true 1000 0)]))
         0 (AddReactions 5 3))
  /\ (@None string = None ->
        ~ emitted (snd (run sqrt_float (mk_config [] [] 10 [] [] 15 30) initial_state
                          [MessageCreated (mk_message false 5 3 "hello")
                             (mk_surroundings 0 true 1000 0)]))
            0 (AutoReply 5 3)).
Proof.
  apply (unset_channels_switch_subsystem_off sqrt_float (fun _ => None)
           (mk_config [] [] 10 [] [] 15 30) initial_state
           [MessageCreated (mk_message false 5 3 "hello") (mk_surroundings 0 true 1000 0)]
           0%nat 5 3).
  reflexivity.
Defined.

Lemma level_up_announcements_are_true_witness :
  5 = author_id (mk_message false 5 3 "hello") /\ 1 <> 0
  /\ level_of 5 (db_users initial_state) < 1
  /\ level_of 5 (db_users (fst (on_message sqrt_float demo_config (mk_message false 5 3 "hello")
                                   (mk_surroundings 0 true 1000 0) initial_state))) = 1.
Proof.
  apply (level_up_announcements_are_true sqrt_float demo_config (mk_message false 5 3 "hello")
           (mk_surroundings 0 true 1000 0) initial_state 5 1).
  vm_compute. tauto.
Defined.

Lemma full_chance_always_replies_witness :
  In (AutoReply 5 3)
    (snd (on_message sqrt_float (mk_config [] [] 10 [3] ["hi"] 100 30)
            (mk_message false 5 3 "Oh HI there") (mk_surroundings 0 true 1000 77)
            initial_state))
  /\ _last_reply_time
       (fst (on_message sqrt_float (mk_config [] [] 10 [3] ["hi"] 100 30)
               (mk_message false 5 3 "Oh HI there") (mk_surroundings 0 true 1000 77)
               initial_state))
     = <[(5, 3) := 1000]> (_last_reply_time initial_state).
Proof.
  apply (full_chance_always_replies sqrt_float (mk_config [] [] 10 [3] ["hi"] 100 30)
           (mk_message false 5 3 "Oh HI there") (mk_surroundings 0 true 1000 77)
           initial_state);
    [reflexivity | intros answer asker H; vm_compute in H; discriminate | cbn; lia
    | reflexivity | right; reflexivity | vm_compute; congruence].
Defined.
